(** * HippoCanvas: the canvas interaction engine and the prompt compiler

    A shallow embedding of the canvas application component ([AppContent]),
    of the node component ([NodeComponent]) and of the generation service
    ([generateImageWithGemini]), with the properties of the specification
    stated and settled over it.

    Conventions of the embedding:
    - a JavaScript [number] that holds a coordinate, a size or a scale is a
      rational ([Q]); one that holds a counter or an index is an integer ([Z]);
    - a JavaScript string is a [string] of UTF-8 bytes;
    - an optional field ([field?: T]) is an [option];
    - React state is passed explicitly: a handler takes the state of the render
      it closes over and returns the state after its updates are applied;
    - an asynchronous call is split at its [await]: the part before it and the
      continuation after it are separate steps on the store, and the outcome
      of the awaited collaborator is an input of the continuation. *)

From Stdlib Require Import ZArith QArith Qminmax List String Ascii Bool Lia.
From Stdlib Require Import DecimalString DecimalZ DecimalPos Qabs Lqa.
From Stdlib Require Import Sorting.Sorted Sorting.Permutation.
Import ListNotations.

Local Open Scope string_scope.
Local Open Scope Z_scope.

(** ** JavaScript helpers *)

Module JS.

(** Truthiness of a string: only the empty string is falsy. *)
Definition truthy_string (s : string) : bool :=
  match s with EmptyString => false | String _ _ => true end.

(** Truthiness of an optional string ([undefined] is falsy). *)
Definition truthy (o : option string) : bool :=
  match o with None => false | Some s => truthy_string s end.

(** [arr[i]]: [undefined] outside the array. *)
Definition get {A : Type} (arr : list A) (i : Z) : option A :=
  if i <? 0 then None else nth_error arr (Z.to_nat i).

(** [o || d] on an optional value. *)
Definition or_else {A : Type} (o : option A) (d : A) : A :=
  match o with Some a => a | None => d end.

(** [Array.prototype.join]. *)
Fixpoint join (sep : string) (l : list string) : string :=
  match l with
  | [] => ""
  | [s] => s
  | s :: rest => s ++ sep ++ join sep rest
  end.

(** [arr.find(p)]. *)
Definition find {A : Type} (p : A -> bool) (arr : list A) : option A :=
  List.find p arr.

(** [Array.prototype.sort] with a comparator: a stable sort. The element
    inserted stays in front of the elements it compares equal to, which are
    the ones that followed it in the array. *)
Section Sort.
Context {A : Type} (cmp : A -> A -> Z).

Fixpoint insert (a : A) (l : list A) : list A :=
  match l with
  | [] => [a]
  | b :: rest => if cmp a b <=? 0 then a :: b :: rest
                 else b :: insert a rest
  end.

Fixpoint sort (l : list A) : list A :=
  match l with
  | [] => []
  | a :: rest => insert a (sort rest)
  end.
End Sort.

(** White space and line terminators of ECMAScript, as UTF-8 byte
    sequences: what [String.prototype.trim] strips. *)
Definition ws1 (c : ascii) : bool :=
  let n := nat_of_ascii c in
  (Nat.eqb n 9 || Nat.eqb n 10 || Nat.eqb n 11 || Nat.eqb n 12
   || Nat.eqb n 13 || Nat.eqb n 32)%bool.

(** U+00A0. *)
Definition ws2 (c1 c2 : ascii) : bool :=
  (Nat.eqb (nat_of_ascii c1) 194 && Nat.eqb (nat_of_ascii c2) 160)%bool.

(** U+1680, U+2000..U+200A, U+2028, U+2029, U+202F, U+205F, U+3000,
    U+FEFF. *)
Definition ws3 (c1 c2 c3 : ascii) : bool :=
  let a := nat_of_ascii c1 in
  let b := nat_of_ascii c2 in
  let c := nat_of_ascii c3 in
  ((Nat.eqb a 225 && Nat.eqb b 154 && Nat.eqb c 128)
   || (Nat.eqb a 226 && Nat.eqb b 128
       && (Nat.leb 128 c && Nat.leb c 138 || Nat.eqb c 168 || Nat.eqb c 169
           || Nat.eqb c 175))
   || (Nat.eqb a 226 && Nat.eqb b 129 && Nat.eqb c 159)
   || (Nat.eqb a 227 && Nat.eqb b 128 && Nat.eqb c 128)
   || (Nat.eqb a 239 && Nat.eqb b 187 && Nat.eqb c 191))%bool.

Fixpoint trimStart (s : string) : string :=
  match s with
  | EmptyString => EmptyString
  | String c1 s1 =>
      if ws1 c1 then trimStart s1
      else match s1 with
           | String c2 s2 =>
               if ws2 c1 c2 then trimStart s2
               else match s2 with
                    | String c3 s3 =>
                        if ws3 c1 c2 c3 then trimStart s3 else s
                    | EmptyString => s
                    end
           | EmptyString => s
           end
  end.

Fixpoint rev_append (s acc : string) : string :=
  match s with
  | EmptyString => acc
  | String c s' => rev_append s' (String c acc)
  end.

Definition rev (s : string) : string := rev_append s EmptyString.

(** The same scan on the reversed string: the bytes of a character come
    last byte first. *)
Fixpoint trimStart_rev (s : string) : string :=
  match s with
  | EmptyString => EmptyString
  | String c1 s1 =>
      if ws1 c1 then trimStart_rev s1
      else match s1 with
           | String c2 s2 =>
               if ws2 c2 c1 then trimStart_rev s2
               else match s2 with
                    | String c3 s3 =>
                        if ws3 c3 c2 c1 then trimStart_rev s3 else s
                    | EmptyString => s
                    end
           | EmptyString => s
           end
  end.

Definition trimEnd (s : string) : string := rev (trimStart_rev (rev s)).

Definition trim (s : string) : string := trimEnd (trimStart s).

End JS.

(** ** Data model ([types.ts]) *)

Inductive NodeType := IMAGE_UPLOAD | GENERATE_IMAGE.

Record Position := mkPosition { x : Q; y : Q }.

Record Annotation := mkAnnotation { ann_id : Z; ann_x : Q; ann_y : Q }.

Record Layer := mkLayer {
  layer_id : string;
  layer_name : string;
  layer_prompt : string;
  isEnabled : bool
}.

Inductive Status := idle | loading | success | error.

Inductive AspectRatio := ar_1_1 | ar_16_9 | ar_9_16 | ar_3_4 | ar_4_3.

Inductive ImageResolution := res_1K | res_2K | res_4K.

Record NodeData := mkNodeData {
  title : string;
  displayId : Z;
  imageUrl : option string;
  annotations : option (list Annotation);
  layers : option (list Layer);
  prompt : option string;
  generatedImage : option string;
  generatedImages : option (list string);
  selectedImageIndex : option Z;
  status : option Status;
  model : option string;
  aspectRatio : option AspectRatio;
  imageResolution : option ImageResolution;
  numberOfImages : option Z
}.

Record Node := mkNode {
  id : string;
  type : NodeType;
  position : Position;
  data : NodeData;
  width : Q;
  height : Q
}.

Record Connection := mkConnection {
  conn_id : string;
  sourceId : string;
  targetId : string
}.

Definition NodeType_eqb (a b : NodeType) : bool :=
  match a, b with
  | IMAGE_UPLOAD, IMAGE_UPLOAD | GENERATE_IMAGE, GENERATE_IMAGE => true
  | _, _ => false
  end.


(** A rejected promise or a thrown exception carries a message. *)
Inductive Result (A : Type) :=
| Ok (a : A)
| Err (message : string).
Arguments Ok {A} a.
Arguments Err {A} message.

Definition bind {A B : Type} (r : Result A) (k : A -> Result B) : Result B :=
  match r with Ok a => k a | Err m => Err m end.

Notation "'let*' p ':=' r 'in' k" := (bind r (fun p => k))
  (at level 10, p pattern, r at level 100, k at level 200).

(** [`${n}`] for an integer. *)
Definition string_of_Z (n : Z) : string := NilZero.string_of_int (Z.to_int n).

(** ** The node component ([NodeComponent]) *)

Record DOMRect := mkDOMRect {
  rect_left : Q;
  rect_top : Q;
  rect_width : Q;
  rect_height : Q
}.

(** [{ ...n.data, ...patch }]: a patch is the function that overwrites the
    keys it lists. *)
Definition Patch := NodeData -> NodeData.

Module NodeComponent.

Definition set_annotations (anns : list Annotation) : Patch := fun d =>
  mkNodeData (title d) (displayId d) (imageUrl d) (Some anns) (layers d)
    (prompt d) (generatedImage d) (generatedImages d) (selectedImageIndex d)
    (status d) (model d) (aspectRatio d) (imageResolution d)
    (numberOfImages d).

Definition set_image (url : string) : Patch := fun d =>
  mkNodeData (title d) (displayId d) (Some url) (Some []) (layers d)
    (prompt d) (generatedImage d) (generatedImages d) (selectedImageIndex d)
    (status d) (model d) (aspectRatio d) (imageResolution d)
    (numberOfImages d).

Definition set_selection (index : Z) (img : option string) : Patch := fun d =>
  mkNodeData (title d) (displayId d) (imageUrl d) (annotations d) (layers d)
    (prompt d) img (generatedImages d) (Some index)
    (status d) (model d) (aspectRatio d) (imageResolution d)
    (numberOfImages d).

(** [Math.max(...ids)] on a non-empty array. *)
Definition Math_max (first : Z) (others : list Z) : Z :=
  fold_left Z.max others first.

(** The id given to the next annotation. *)
Definition newId (currentAnnotations : list Annotation) : Z :=
  match map ann_id currentAnnotations with
  | [] => 1
  | i :: rest => Math_max i rest + 1
  end.

(** [handleImageClick]: [None] is the early return. *)
Definition handleImageClick (isAnnotating : bool)
    (imageContainerRef : option DOMRect) (node : Node) (clientX clientY : Q)
    : option Patch :=
  match imageContainerRef with
  | Some rect =>
      if negb isAnnotating || negb (JS.truthy (imageUrl (data node)))
      then None
      else
        let px := (((clientX - rect_left rect) / rect_width rect) * 100)%Q in
        let py := (((clientY - rect_top rect) / rect_height rect) * 100)%Q in
        let currentAnnotations := JS.or_else (annotations (data node)) [] in
        Some (set_annotations
                (currentAnnotations
                   ++ [mkAnnotation (newId currentAnnotations) px py]))
  | None => None
  end.

Definition handleClearAnnotations : Patch := set_annotations [].

(** [handleFileChange], once the file is read: [result] is the data URL. *)
Definition handleFileChange (result : option string) : option Patch :=
  match result with
  | Some url => if JS.truthy_string url then Some (set_image url) else None
  | None => None
  end.

Definition handleSelectGeneratedImage (node : Node) (index : Z)
    : option Patch :=
  match generatedImages (data node) with
  | None => None
  | Some imgs =>
      if JS.truthy (JS.get imgs index)
      then Some (set_selection index (JS.get imgs index))
      else None
  end.

End NodeComponent.

(** ** The canvas application ([AppContent]) *)

Local Open Scope Q_scope.

Inductive DragMode := NODE | CANVAS | CONNECTION | IDLE.

Record DragState := mkDragState {
  isDragging : bool;
  mode : DragMode;
  startPos : Position;
  nodeStartPos : option Position;
  draggedNodeId : option string;
  connectionStartNodeId : option string;
  connectionCurrentPos : option Position
}.

(** The state that [AppContent] holds in its hooks, with the bounding
    rectangle of the canvas element ([None] while it is not mounted). *)
Record State := mkState {
  nodes : list Node;
  connections : list Connection;
  scale : Q;
  offset : Position;
  selectedNodeId : option string;
  selectedConnectionId : option string;
  dragState : DragState;
  canvasRef : option DOMRect
}.

Record MouseEvent := mkMouseEvent { clientX : Q; clientY : Q }.

Record WheelEvent := mkWheelEvent { deltaY : Q }.

Definition set_nodes (st : State) (ns : list Node) : State :=
  mkState ns (connections st) (scale st) (offset st) (selectedNodeId st)
    (selectedConnectionId st) (dragState st) (canvasRef st).

Definition set_scale (st : State) (k : Q) : State :=
  mkState (nodes st) (connections st) k (offset st) (selectedNodeId st)
    (selectedConnectionId st) (dragState st) (canvasRef st).

Definition set_offset (st : State) (o : Position) : State :=
  mkState (nodes st) (connections st) (scale st) o (selectedNodeId st)
    (selectedConnectionId st) (dragState st) (canvasRef st).

Definition set_dragState (st : State) (ds : DragState) : State :=
  mkState (nodes st) (connections st) (scale st) (offset st)
    (selectedNodeId st) (selectedConnectionId st) ds (canvasRef st).

Definition set_selection (st : State) (n c : option string) : State :=
  mkState (nodes st) (connections st) (scale st) (offset st) n c
    (dragState st) (canvasRef st).

Definition set_position (n : Node) (p : Position) : Node :=
  mkNode (id n) (type n) p (data n) (width n) (height n).

Definition set_data (n : Node) (d : NodeData) : Node :=
  mkNode (id n) (type n) (position n) d (width n) (height n).

(** [screenToWorld]. *)
Definition screenToWorld (st : State) (screenX screenY : Q) : Position :=
  match canvasRef st with
  | None => mkPosition 0 0
  | Some rect =>
      mkPosition ((screenX - rect_left rect - x (offset st)) / scale st)
                 ((screenY - rect_top rect - y (offset st)) / scale st)
  end.

(** The transform of the canvas content layer,
    [translate(offset.x px, offset.y px) scale(scale)] with its origin at the
    top left corner of the canvas element: where a world point is drawn on
    the screen. *)
Definition worldToScreen (st : State) (rect : DOMRect) (p : Position)
    : Position :=
  mkPosition (x p * scale st + x (offset st) + rect_left rect)
             (y p * scale st + y (offset st) + rect_top rect).

(** [updateNodeData]. *)
Definition updateNodeData (ns : list Node) (nodeId : string) (patch : Patch)
    : list Node :=
  map (fun n => if String.eqb (id n) nodeId
                then set_data n (patch (data n)) else n) ns.

(** [handleNodeMouseDown]. *)
Definition handleNodeMouseDown (st : State) (e : MouseEvent) (nodeId : string)
    : State :=
  match JS.find (fun n => String.eqb (id n) nodeId) (nodes st) with
  | None => st
  | Some node =>
      set_dragState
        (set_selection st (Some nodeId) None)
        (mkDragState true NODE (mkPosition (clientX e) (clientY e))
           (Some (mkPosition (x (position node)) (y (position node))))
           (Some nodeId) None None)
  end.

(** [handleMouseMove]; for a node or a connection drag, the state once the
    scheduled animation frame has run. *)
Definition handleMouseMove (st : State) (e : MouseEvent) : State :=
  let ds := dragState st in
  if negb (isDragging ds) then st
  else
    match mode ds with
    | CANVAS =>
        let dx := clientX e - x (startPos ds) in
        let dy := clientY e - y (startPos ds) in
        set_dragState
          (set_offset st (mkPosition (x (offset st) + dx) (y (offset st) + dy)))
          (mkDragState (isDragging ds) (mode ds)
             (mkPosition (clientX e) (clientY e))
             (nodeStartPos ds) (draggedNodeId ds) (connectionStartNodeId ds)
             (connectionCurrentPos ds))
    | NODE =>
        match draggedNodeId ds, nodeStartPos ds with
        | Some dragged, Some start =>
            if JS.truthy_string dragged then
              let dx := (clientX e - x (startPos ds)) / scale st in
              let dy := (clientY e - y (startPos ds)) / scale st in
              set_nodes st
                (map (fun n =>
                        if String.eqb (id n) dragged
                        then set_position n
                               (mkPosition (x start + dx) (y start + dy))
                        else n)
                     (nodes st))
            else st
        | _, _ => st
        end
    | CONNECTION =>
        set_dragState st
          (mkDragState (isDragging ds) (mode ds) (startPos ds)
             (nodeStartPos ds) (draggedNodeId ds) (connectionStartNodeId ds)
             (Some (screenToWorld st (clientX e) (clientY e))))
    | IDLE => st
    end.

(** [handleWheel]. *)
Definition handleWheel (st : State) (e : WheelEvent) : State :=
  let newScale :=
    Qmin (Qmax (scale st - deltaY e * (1 # 1000)) (1 # 10)) 3 in
  set_scale st newScale.

(** ** The generation service ([generateImageWithGemini]) *)

Local Open Scope Z_scope.

Record GenerateImageOptions := mkOptions {
  opt_prompt : string;
  opt_referenceImages : option (list string);
  opt_aspectRatio : option AspectRatio;
  opt_imageResolution : option ImageResolution;
  opt_numberOfImages : option Z
}.

Record SystemSettings := mkSettings {
  baseUrl : string;
  modelName : string
}.

(** What the handlers await: the signed-in user, the configured API key, the
    canvas that bakes the markers of a node into its image (it rejects when
    the image cannot be decoded), and the answer of the remote API to the
    [i]-th of the parallel requests of a call, already reduced to the image
    that [performSingleGeneration] extracts from it or to its error. *)
Record Env := mkEnv {
  user : option string;
  apiKey : option string;
  bakeAnnotationsToImage : string -> list Annotation -> Result string;
  performSingleGeneration :
    GenerateImageOptions -> string -> nat -> Result string
}.

(** [Promise.all]: fulfilled with all the values, in order, when every
    promise is fulfilled; rejected as soon as one is. The message kept here is
    the one of the first rejected promise of the array. *)
Fixpoint Promise_all {A : Type} (promises : list (Result A))
    : Result (list A) :=
  match promises with
  | [] => Ok []
  | Ok a :: rest =>
      match Promise_all rest with
      | Ok results => Ok (a :: results)
      | Err m => Err m
      end
  | Err m :: _ => Err m
  end.

(** [Array.from({ length }, f)]. *)
Definition Array_from {A : Type} (len : Z) (f : nat -> A) : list A :=
  map f (seq 0 (Z.to_nat len)).

(** [settings.modelName || 'gemini-2.5-flash-image-preview']. *)
Definition modelIdOf (settings : SystemSettings) : string :=
  if JS.truthy_string (modelName settings) then modelName settings
  else "gemini-2.5-flash-image-preview".

Definition generateImageWithGemini (env : Env) (options : GenerateImageOptions)
    (settings : SystemSettings) : Result (list string) :=
  if negb (JS.truthy (apiKey env)) then
    Err "API Key is missing. Please ensure you have configured an API key."
  else
    let numberOfImages := JS.or_else (opt_numberOfImages options) 1 in
    let modelId := modelIdOf settings in
    Promise_all
      (Array_from numberOfImages
         (fun i => performSingleGeneration env options modelId i)).

(** ** The prompt compiler and the orchestrator ([handleTriggerGeneration]) *)

Definition newline : string := String (ascii_of_nat 10) EmptyString.

Definition systemSettings : SystemSettings :=
  mkSettings "https://api.vectorengine.ai" "gemini-2.5-flash-image-preview".

Definition activeLayers (targetNode : Node) : list Layer :=
  filter (fun l => isEnabled l
                   && negb (String.eqb (JS.trim (layer_prompt l)) ""))
         (JS.or_else (layers (data targetNode)) []).

(** The compiled prompt; [None] when the handler returns without
    triggering. *)
Definition compilePrompt (targetNode : Node) : option string :=
  let active := activeLayers targetNode in
  if Nat.eqb (List.length active) 0 && negb (JS.truthy (prompt (data targetNode)))
  then None
  else if Nat.ltb 0 (List.length active)
       then Some (JS.join newline (map layer_prompt active))
       else Some (JS.or_else (prompt (data targetNode)) "").

Fixpoint defined {A : Type} (l : list (option A)) : list A :=
  match l with
  | [] => []
  | Some a :: rest => a :: defined rest
  | None :: rest => defined rest
  end.

(** The source nodes of the incoming connections, sorted by [displayId]. *)
Definition sourceNodes (ns : list Node) (conns : list Connection)
    (nodeId : string) : list Node :=
  let incomingConnections :=
    filter (fun c => String.eqb (targetId c) nodeId) conns in
  JS.sort (fun a b => displayId (data a) - displayId (data b))
    (defined
       (map (fun conn =>
               JS.find (fun n => String.eqb (id n) (sourceId conn)) ns)
            incomingConnections)).

(** The image a source node offers, before baking. *)
Definition imageData (node : Node) : option string :=
  match type node with
  | IMAGE_UPLOAD =>
      if JS.truthy (imageUrl (data node)) then imageUrl (data node) else None
  | GENERATE_IMAGE =>
      if JS.truthy (generatedImage (data node))
      then generatedImage (data node) else None
  end.

(** The text of a correspondence note. *)
Definition noteText (n : Z) (display : Z) (marked : bool) : string :=
  "第 " ++ string_of_Z n ++ " 张图片对应 [图" ++ string_of_Z display ++ "]"
  ++ (if marked then " (图片上带有红色数字标记)" else "").

Definition hasAnnotations (node : Node) : bool :=
  match annotations (data node) with
  | Some (_ :: _) => true
  | _ => false
  end.

(** The loop over the source nodes, from index [i], with the two arrays it
    pushes to. *)
Fixpoint collectReferences (env : Env) (sources : list Node) (i : Z)
    (referenceImages idMappingDescription : list string)
    : Result (list string * list string) :=
  match sources with
  | [] => Ok (referenceImages, idMappingDescription)
  | node :: rest =>
      match imageData node with
      | Some img =>
          if JS.truthy_string img then
            if hasAnnotations node then
              let* baked :=
                bakeAnnotationsToImage env img
                  (JS.or_else (annotations (data node)) []) in
              collectReferences env rest (i + 1)
                (referenceImages ++ [baked])
                (idMappingDescription
                   ++ [noteText (i + 1) (displayId (data node)) true])
            else
              collectReferences env rest (i + 1)
                (referenceImages ++ [img])
                (idMappingDescription
                   ++ [noteText (i + 1) (displayId (data node)) false])
          else collectReferences env rest (i + 1)
                 referenceImages idMappingDescription
      | None => collectReferences env rest (i + 1)
                  referenceImages idMappingDescription
      end
  end.

Definition finalPrompt (compiledPrompt : string)
    (idMappingDescription : list string) : string :=
  if Nat.ltb 0 (List.length idMappingDescription) then
    compiledPrompt ++ newline ++ newline ++ "(图片引用说明: "
    ++ JS.join ", " idMappingDescription
    ++ "。请根据此对应关系及图片上的数字标记处理提示词。)"
  else compiledPrompt.

(** [numberOfImages || 1]. *)
Definition requestedCount (targetNode : Node) : Z :=
  match numberOfImages (data targetNode) with
  | Some n => if n =? 0 then 1 else n
  | None => 1
  end.

(** The body of the [try] block up to the call of the service: the request
    that is sent, or the exception thrown before it. *)
Definition buildRequest (env : Env) (targetNode : Node)
    (compiledPrompt : string) (sources : list Node)
    : Result (GenerateImageOptions * SystemSettings) :=
  let* (referenceImages, idMappingDescription) :=
    collectReferences env sources 0 [] [] in
  match user env with
  | None => Err "用户未登录，无法生成图像。请先登录。"
  | Some _ =>
      Ok (mkOptions (finalPrompt compiledPrompt idMappingDescription)
            (if Nat.ltb 0 (List.length referenceImages)
             then Some referenceImages else None)
            (aspectRatio (data targetNode))
            (imageResolution (data targetNode))
            (Some (requestedCount targetNode)),
          mkSettings (baseUrl systemSettings)
            (if JS.truthy (model (data targetNode))
             then JS.or_else (model (data targetNode)) ""
             else modelName systemSettings))
  end.

Definition loadingPatch : Patch := fun d =>
  mkNodeData (title d) (displayId d) (imageUrl d) (annotations d) (layers d)
    (prompt d) None None (selectedImageIndex d)
    (Some loading) (model d) (aspectRatio d) (imageResolution d)
    (numberOfImages d).

Definition successPatch (resultImages : list string) : Patch := fun d =>
  mkNodeData (title d) (displayId d) (imageUrl d) (annotations d) (layers d)
    (prompt d) (JS.get resultImages 0) (Some resultImages) (Some 0)
    (Some success) (model d) (aspectRatio d) (imageResolution d)
    (numberOfImages d).

Definition errorPatch : Patch := fun d =>
  mkNodeData (title d) (displayId d) (imageUrl d) (annotations d) (layers d)
    (prompt d) (generatedImage d) (generatedImages d) (selectedImageIndex d)
    (Some error) (model d) (aspectRatio d) (imageResolution d)
    (numberOfImages d).

(** The update made when a call settles: the end of the [try] block or the
    [catch] block. *)
Definition settle (ns : list Node) (nodeId : string)
    (outcome : Result (list string)) : list Node :=
  match outcome with
  | Ok resultImages => updateNodeData ns nodeId (successPatch resultImages)
  | Err _ => updateNodeData ns nodeId errorPatch
  end.

(** What a call that passes validation awaits: the request is built and
    sent. *)
Definition outcome (env : Env) (targetNode : Node) (compiledPrompt : string)
    (sources : list Node) : Result (list string) :=
  let* (options, settings) :=
    buildRequest env targetNode compiledPrompt sources in
  generateImageWithGemini env options settings.

(** [handleTriggerGeneration], run to completion with no other update of the
    store in between: [ns] and [conns] are the nodes and connections of the
    render the handler closes over. The key selection that the handler first
    offers when the host page provides one ([window.aistudio]) touches no
    state and is left out. *)
Definition handleTriggerGeneration (env : Env) (ns : list Node)
    (conns : list Connection) (nodeId : string) : list Node :=
  match JS.find (fun n => String.eqb (id n) nodeId) ns with
  | None => ns
  | Some targetNode =>
      match compilePrompt targetNode with
      | None => ns
      | Some compiledPrompt =>
          let sources := sourceNodes ns conns nodeId in
          settle (updateNodeData ns nodeId loadingPatch) nodeId
            (outcome env targetNode compiledPrompt sources)
      end
  end.

(** The request that a call sends, when it sends one. *)
Definition requestOf (env : Env) (ns : list Node) (conns : list Connection)
    (nodeId : string) : option (GenerateImageOptions * SystemSettings) :=
  match JS.find (fun n => String.eqb (id n) nodeId) ns with
  | None => None
  | Some targetNode =>
      match compilePrompt targetNode with
      | None => None
      | Some compiledPrompt =>
          match buildRequest env targetNode compiledPrompt
                  (sourceNodes ns conns nodeId) with
          | Ok request => Some request
          | Err _ => None
          end
      end
  end.

(** *** Calls in flight

    The two updates of a call are separate steps on the store; updates of
    several calls interleave. A call is named by its number only to tell the
    calls of a schedule apart: the handler keeps no such number. *)
Inductive StoreEvent :=
| Started (call : nat) (nodeId : string)
| Settled (call : nat) (nodeId : string) (result : Result (list string)).

Definition applyEvent (ns : list Node) (e : StoreEvent) : list Node :=
  match e with
  | Started _ nodeId => updateNodeData ns nodeId loadingPatch
  | Settled _ nodeId result => settle ns nodeId result
  end.

Definition runEvents (ns : list Node) (schedule : list StoreEvent)
    : list Node :=
  fold_left applyEvent schedule ns.

(** [r] is what the node shows: the last update made was the one of a call
    that settled with [r]. *)
Definition reflects (r : Result (list string)) (d : NodeData) : Prop :=
  match r with
  | Ok resultImages =>
      status d = Some success
      /\ generatedImages d = Some resultImages
      /\ generatedImage d = JS.get resultImages 0
      /\ selectedImageIndex d = Some 0
  | Err _ => status d = Some error
  end.

(** *** The events of an image node

    What the user does to the node [nodeId], each event handled by the
    component rendered from the store as it is then. *)
Inductive NodeEvent :=
| ImageClick (isAnnotating : bool) (imageContainerRef : option DOMRect)
    (clientX clientY : Q)
| ClearAnnotations
| FileChange (result : option string)
| SelectGeneratedImage (index : Z).

Definition patchOf (node : Node) (e : NodeEvent) : option Patch :=
  match e with
  | ImageClick isAnnotating container cx cy =>
      NodeComponent.handleImageClick isAnnotating container node cx cy
  | ClearAnnotations => Some NodeComponent.handleClearAnnotations
  | FileChange result => NodeComponent.handleFileChange result
  | SelectGeneratedImage index =>
      NodeComponent.handleSelectGeneratedImage node index
  end.

Definition nodeStep (nodeId : string) (ns : list Node) (e : NodeEvent)
    : list Node :=
  match JS.find (fun n => String.eqb (id n) nodeId) ns with
  | None => ns
  | Some node =>
      match patchOf node e with
      | Some patch => updateNodeData ns (id node) patch
      | None => ns
      end
  end.




(** The active image is the selected one of the batch. *)
Definition coherent (d : NodeData) : Prop :=
  generatedImage d =
  match generatedImages d, selectedImageIndex d with
  | Some imgs, Some i => JS.get imgs i
  | _, _ => None
  end.

(** ** The specification's wording of the prompt compiler *)

Module Spec.

(** A layer counts when it is enabled and its prompt text is not empty. *)
Definition qualifies_as_worded (l : Layer) : bool :=
  isEnabled l && negb (String.eqb (layer_prompt l) "").

(** A layer counts when it is enabled and its prompt text is not empty
    once the white space around it is removed. *)
Definition qualifies (l : Layer) : bool :=
  isEnabled l && negb (String.eqb (JS.trim (layer_prompt l)) "").

(** The texts of the layers that count, in list order. *)
Fixpoint texts (counts : Layer -> bool) (ls : list Layer) : list string :=
  match ls with
  | [] => []
  | l :: rest =>
      if counts l then layer_prompt l :: texts counts rest
      else texts counts rest
  end.

(** The compiled prompt: the texts joined by newlines, else the legacy
    prompt, else nothing is triggered. *)
Definition compiled (counts : Layer -> bool) (d : NodeData)
    : option string :=
  match texts counts (JS.or_else (layers d) []) with
  | [] =>
      match prompt d with
      | Some p => if String.eqb p "" then None else Some p
      | None => None
      end
  | ts => Some (JS.join newline ts)
  end.

(** The image that a source node contributes to the request. *)
Definition referenced (env : Env) (node : Node) : option (Result string) :=
  match imageData node with
  | Some img =>
      if JS.truthy_string img then
        if hasAnnotations node
        then Some (bakeAnnotationsToImage env img
                     (JS.or_else (annotations (data node)) []))
        else Some (Ok img)
      else None
  | None => None
  end.

(** The source nodes that contribute an image. *)
Definition contributors (env : Env) (sources : list Node) : list Node :=
  filter (fun n => match referenced env n with
                   | Some _ => true | None => false end) sources.

End Spec.

(** The annotations on the node [nodeId] of the store. *)
Definition currentAnnotations (nodeId : string) (ns : list Node)
    : list Annotation :=
  match JS.find (fun n => String.eqb (id n) nodeId) ns with
  | Some node => JS.or_else (annotations (data node)) []
  | None => []
  end.

(** The node that [addNode] creates: [currentId] is the value of the node
    counter, [nodeWidth] the width constant of the node type, [pos] the
    position computed from the view. *)
Definition newNode (nodeId : string) (t : NodeType) (currentId : Z)
    (layerId : string) (pos : Position) (nodeWidth : Q) : Node :=
  mkNode nodeId t pos
    (mkNodeData
       (match t with IMAGE_UPLOAD => "输入图片" | GENERATE_IMAGE => "AI 生成器" end)
       currentId None (Some [])
       (Some (match t with
              | GENERATE_IMAGE => [mkLayer layerId "基础图层" "" true]
              | IMAGE_UPLOAD => []
              end))
       (Some "") None None None None
       (match t with
        | GENERATE_IMAGE => Some "gemini-2.5-flash-image-preview"
        | IMAGE_UPLOAD => None
        end)
       (Some ar_1_1) (Some res_1K) (Some 1))
    nodeWidth 200%Q.

Definition set_layers (ls : list Layer) : Patch := fun d =>
  mkNodeData (title d) (displayId d) (imageUrl d) (annotations d) (Some ls)
    (prompt d) (generatedImage d) (generatedImages d) (selectedImageIndex d)
    (status d) (model d) (aspectRatio d) (imageResolution d)
    (numberOfImages d).

Definition set_numberOfImages (num : Z) : Patch := fun d =>
  mkNodeData (title d) (displayId d) (imageUrl d) (annotations d) (layers d)
    (prompt d) (generatedImage d) (generatedImages d) (selectedImageIndex d)
    (status d) (model d) (aspectRatio d) (imageResolution d) (Some num).

(** ** Statements of the specification, as worded *)

Module Worded.

(** The schedules of two calls on one node, the first started before the
    second. *)
Definition schedules (nodeId : string) (r1 r2 : Result (list string))
    : list (list StoreEvent) :=
  [ [Started 1 nodeId; Settled 1 nodeId r1;
     Started 2 nodeId; Settled 2 nodeId r2];
    [Started 1 nodeId; Started 2 nodeId;
     Settled 1 nodeId r1; Settled 2 nodeId r2];
    [Started 1 nodeId; Started 2 nodeId;
     Settled 2 nodeId r2; Settled 1 nodeId r1] ].

(** Only the result of the call started later is shown at the end. *)
Definition later_call_wins : Prop :=
  forall (ns : list Node) (nodeId : string) (r1 r2 : Result (list string))
         (schedule : list StoreEvent) (n : Node),
    In schedule (schedules nodeId r1 r2) ->
    In n (runEvents ns schedule) ->
    id n = nodeId ->
    reflects r2 (data n).


(** The compiled prompt joins the layers that are enabled and whose text
    is not empty. *)
Definition compiles_nonempty_layers : Prop :=
  forall targetNode : Node,
    compilePrompt targetNode
    = Spec.compiled Spec.qualifies_as_worded (data targetNode).

End Worded.

(** ** Sample canvases *)

Module Sample.

Definition origin : Position := mkPosition 0 0.

Definition rect : DOMRect := mkDOMRect 0 56 1280 664.

Definition image1 : string := "data:image/png;base64,AAAA".
Definition image2 : string := "data:image/png;base64,BBBB".
Definition resultA : string := "data:image/png;base64,CCCC".
Definition resultB : string := "data:image/png;base64,DDDD".

Definition withData (n : Node) (patch : Patch) : Node :=
  set_data n (patch (data n)).

(** An image node that has no image yet. *)
Definition emptySource : Node :=
  newNode "node-1" IMAGE_UPLOAD 1 "" origin 280.

(** An image node with an uploaded image. *)
Definition source1 : Node :=
  withData emptySource (NodeComponent.set_image image1).

Definition source2 : Node :=
  withData (newNode "node-2" IMAGE_UPLOAD 2 "" (mkPosition 0 300) 280)
    (NodeComponent.set_image image2).

Definition source3 : Node :=
  withData (newNode "node-3" IMAGE_UPLOAD 3 "" (mkPosition 0 600) 280)
    (NodeComponent.set_image image1).

Definition generator : Node :=
  withData (newNode "node-9" GENERATE_IMAGE 9 "layer-1" (mkPosition 400 0) 380)
    (set_layers [mkLayer "layer-1" "基础图层" "enhance" true]).

Definition layersABC : list Layer :=
  [mkLayer "layer-1" "基础图层" "A" true;
   mkLayer "layer-2" "图层 2" "B" true;
   mkLayer "layer-3" "图层 3" "C" false].

Definition layersBlank : list Layer :=
  [mkLayer "layer-1" "基础图层" " " true;
   mkLayer "layer-2" "图层 2" "A" true].

Definition connect (cid : string) (s t : Node) : Connection :=
  mkConnection cid (id s) (id t).

(** A signed-in user with a key; the canvas bakes by tagging the image;
    every request answers with [resultA]. *)
Definition env : Env :=
  mkEnv (Some "user-1") (Some "sk-key")
    (fun img _ => Ok (img ++ "+markers"))
    (fun _ _ _ => Ok resultA).

(** The same, but the second of the parallel requests fails. *)
Definition envSecondFails : Env :=
  mkEnv (Some "user-1") (Some "sk-key")
    (fun img _ => Ok (img ++ "+markers"))
    (fun _ _ i => if Nat.eqb i 1 then Err "API Error 500: overloaded"
                  else Ok resultA).

Definition idleDrag : DragState :=
  mkDragState false IDLE origin None None None None.

Definition canvas (ns : list Node) (conns : list Connection) : State :=
  mkState ns conns 2%Q (mkPosition 30 (-20)) None None idleDrag (Some rect).

(** A generator fed by an image node without image (number 1) and by one
    with an image (number 2). *)
Definition skippingNodes : list Node := [emptySource; source2; generator].

Definition skippingConnections : list Connection :=
  [connect "c-1" emptySource generator; connect "c-2" source2 generator].

(** A generator fed by the image nodes 1, 2 and 3, connected in the order
    3, 1, 2. *)
Definition threeSources : list Node := [source1; source2; source3; generator].

Definition connections312 : list Connection :=
  [connect "c-3" source3 generator; connect "c-1" source1 generator;
   connect "c-2" source2 generator].

Definition connections132 : list Connection :=
  [connect "c-1" source1 generator; connect "c-3" source3 generator;
   connect "c-2" source2 generator].

(** The generator asked for two images. *)
Definition generatorOfTwo : Node :=
  withData generator (set_numberOfImages 2).

(** The generator with a first layer of white space only. *)
Definition blankGenerator : Node :=
  withData generator (set_layers layersBlank).

Definition abcGenerator : Node :=
  withData generator (set_layers layersABC).

(** The generator after a batch of two images. *)
Definition batchGenerator : Node :=
  withData generator (successPatch [resultA; resultB]).


End Sample.

(** ** The other handlers of the canvas *)

Local Open Scope Q_scope.

Definition set_connections (st : State) (cs : list Connection) : State :=
  mkState (nodes st) cs (scale st) (offset st) (selectedNodeId st)
    (selectedConnectionId st) (dragState st) (canvasRef st).

Definition set_selectedNodeId (st : State) (n : option string) : State :=
  set_selection st n (selectedConnectionId st).

Definition set_selectedConnectionId (st : State) (c : option string)
    : State :=
  set_selection st (selectedNodeId st) c.

(** The drag state that [handleMouseUp] and the initial render set. *)
Definition idleDragState : DragState :=
  mkDragState false IDLE (mkPosition 0 0) None None None None.

(** The state of the first render. *)
Definition initialState (rect : option DOMRect) : State :=
  mkState [] [] 1 (mkPosition 0 0) None None idleDragState rect.

(** [addNode]: [nodeCounter] is the value of the counter ref, returned
    incremented; [uuid] and [layerUuid] are the values drawn by
    [crypto.randomUUID]; the two widths are the constants of the node
    types. *)
Definition addNode (NODE_WIDTH_UPLOAD NODE_WIDTH_GEN : Q) (st : State)
    (nodeCounter : Z) (uuid layerUuid : string) (t : NodeType)
    : State * Z :=
  let centerX :=
    match canvasRef st with
    | Some rect => (rect_width rect / 2 - x (offset st)) / scale st
    | None => 100
    end in
  let centerY :=
    match canvasRef st with
    | Some rect => (rect_height rect / 2 - y (offset st)) / scale st
    | None => 100
    end in
  let nodeWidth :=
    match t with
    | IMAGE_UPLOAD => NODE_WIDTH_UPLOAD
    | GENERATE_IMAGE => NODE_WIDTH_GEN
    end in
  (set_nodes st
     (nodes st
      ++ [newNode uuid t nodeCounter layerUuid
            (mkPosition (centerX - nodeWidth / 2) (centerY - 150))
            nodeWidth]),
   (nodeCounter + 1)%Z).

(** [deleteNode]. *)
Definition deleteNode (st : State) (nodeId : string) : State :=
  set_connections
    (set_nodes st
       (filter (fun n => negb (String.eqb (id n) nodeId)) (nodes st)))
    (filter (fun c => negb (String.eqb (sourceId c) nodeId)
                      && negb (String.eqb (targetId c) nodeId))
            (connections st)).

(** [deleteConnection]. *)
Definition deleteConnection (st : State) (connectionId : string) : State :=
  set_connections st
    (filter (fun c => negb (String.eqb (conn_id c) connectionId))
            (connections st)).

Definition handleNodeSelect (st : State) (nodeId : string) : State :=
  set_selection st (Some nodeId) None.

Definition handleConnectionSelect (st : State) (connectionId : string)
    : State :=
  set_selection st None (Some connectionId).

(** The key-down listener: [tagName] is the tag of the event target. *)
Definition handleKeyDown (st : State) (key tagName : string) : State :=
  if String.eqb tagName "INPUT" || String.eqb tagName "TEXTAREA" then st
  else if String.eqb key "Delete" || String.eqb key "Backspace" then
    let st1 :=
      match selectedNodeId st with
      | Some nodeId =>
          if JS.truthy_string nodeId
          then set_selectedNodeId (deleteNode st nodeId) None
          else st
      | None => st
      end in
    match selectedConnectionId st with
    | Some connectionId =>
        if JS.truthy_string connectionId
        then set_selectedConnectionId (deleteConnection st1 connectionId) None
        else st1
    | None => st1
    end
  else st.

Definition handleZoomIn (st : State) : State :=
  set_scale st (Qmin (scale st + (1 # 10)) 3).

Definition handleZoomOut (st : State) : State :=
  set_scale st (Qmax (scale st - (1 # 10)) (1 # 10)).

Definition handleResetZoom (st : State) : State := set_scale st 1.

(** [handleMouseDown] on the canvas background. *)
Definition handleMouseDown (st : State) (button : Z) (e : MouseEvent)
    : State :=
  if (button =? 0)%Z then
    set_selection
      (set_dragState st
         (mkDragState true CANVAS (mkPosition (clientX e) (clientY e))
            None None None None))
      None None
  else st.

(** [handleStartConnection]; [isOutput] is [type === 'output']. *)
Definition handleStartConnection (st : State) (nodeId : string)
    (isOutput : bool) (e : MouseEvent) : State :=
  if isOutput then
    set_dragState st
      (mkDragState true CONNECTION (mkPosition (clientX e) (clientY e))
         None None (Some nodeId)
         (Some (screenToWorld st (clientX e) (clientY e))))
  else st.

(** The region of a node where a plug can be dropped: the node, the socket
    on its left, and at least 400 of height. *)
Definition inDropRegion (worldPos : Position) (n : Node) : bool :=
  Qle_bool (x (position n) - 40) (x worldPos)
  && Qle_bool (x worldPos) (x (position n) + width n)
  && Qle_bool (y (position n)) (y worldPos)
  && Qle_bool (y worldPos) (y (position n) + Qmax (height n) 400).

(** [handleMouseUp]; [uuid] is the id drawn for a new connection. *)
Definition handleMouseUp (st : State) (e : MouseEvent) (uuid : string)
    : State :=
  let connected :=
    match mode (dragState st), connectionStartNodeId (dragState st) with
    | CONNECTION, Some start =>
        if JS.truthy_string start then
          let worldPos := screenToWorld st (clientX e) (clientY e) in
          match JS.find (inDropRegion worldPos) (nodes st) with
          | Some targetNode =>
              if negb (String.eqb (id targetNode) start)
                 && NodeType_eqb (type targetNode) GENERATE_IMAGE
              then
                if existsb (fun c => String.eqb (sourceId c) start
                                     && String.eqb (targetId c)
                                          (id targetNode))
                           (connections st)
                then st
                else set_connections st
                       (connections st
                        ++ [mkConnection uuid start (id targetNode)])
              else st
          | None => st
          end
        else st
    | _, _ => st
    end in
  set_dragState connected idleDragState.

(** [getOutputCoords] and [getInputCoords]. *)
Definition getOutputCoords (st : State) (nodeId : string) : Position :=
  match JS.find (fun n => String.eqb (id n) nodeId) (nodes st) with
  | None => mkPosition 0 0
  | Some node =>
      mkPosition (x (position node) + width node + 8)
                 (y (position node) + 120)
  end.

Definition getInputCoords (st : State) (nodeId : string) : Position :=
  match JS.find (fun n => String.eqb (id n) nodeId) (nodes st) with
  | None => mkPosition 0 0
  | Some node =>
      mkPosition (x (position node) - 12) (y (position node) + 120)
  end.

(** *** The connection line ([ConnectionLine]) *)

Record Wire := mkWire {
  controlPoint1 : Position;
  controlPoint2 : Position;
  mid : Position
}.

(** The control points of the wire and the point of the curve at
    [t = 0.5]. *)
Definition connectionLine (start finish : Position) : Wire :=
  let dist := Qabs (x finish - x start) in
  let c1 := mkPosition (x start + dist * (1 # 2)) (y start) in
  let c2 := mkPosition (x finish - dist * (1 # 2)) (y finish) in
  let t := 1 # 2 in
  let mt := 1 - t in
  mkWire c1 c2
    (mkPosition
       (mt * mt * mt * x start + 3 * mt * mt * t * x c1
        + 3 * mt * t * t * x c2 + t * t * t * x finish)
       (mt * mt * mt * y start + 3 * mt * mt * t * y c1
        + 3 * mt * t * t * y c2 + t * t * t * y finish)).

Local Open Scope Z_scope.

(** *** Labels inserted into the prompt ([handleLabelClick],
    [handleAnnotationClick]) *)

(** The loop that looks for the last enabled layer, from index [i] down
    to 0. *)
Fixpoint findLastEnabled (ls : list Layer) (i : nat) : option nat :=
  if match nth_error ls i with Some l => isEnabled l | None => false end
  then Some i
  else match i with
       | O => None
       | S j => findLastEnabled ls j
       end.

(** [arr[i] = a] for an index of the array. *)
Definition assignAt {A : Type} (arr : list A) (i : nat) (a : A) : list A :=
  (firstn i arr ++ a :: skipn (S i) arr)%list.

(** The layers with the label appended to the prompt of the target layer:
    the last enabled layer, or the last layer when none is enabled. *)
Definition appendLabel (ls : list Layer) (labelText : string) : list Layer :=
  let targetLayerIndex :=
    JS.or_else (findLastEnabled ls (List.length ls - 1)%nat)
               (List.length ls - 1)%nat in
  match nth_error ls targetLayerIndex with
  | Some l =>
      assignAt ls targetLayerIndex
        (mkLayer (layer_id l) (layer_name l) (layer_prompt l ++ labelText)
           (isEnabled l))
  | None => ls
  end.

(** The part shared by the two handlers: [sourceNodeId] is the node clicked
    and [label] makes the text from that node. *)
Definition insertLabel (st : State) (sourceNodeId : string)
    (label : Node -> string) : State :=
  match selectedNodeId st with
  | Some selected =>
      if JS.truthy_string selected then
        match JS.find (fun n => String.eqb (id n) selected) (nodes st) with
        | Some selectedNode =>
            if NodeType_eqb (type selectedNode) GENERATE_IMAGE then
              match JS.find (fun n => String.eqb (id n) sourceNodeId)
                      (nodes st) with
              | Some sourceNode =>
                  let ls := JS.or_else (layers (data selectedNode)) [] in
                  if Nat.eqb (List.length ls) 0 then st
                  else set_nodes st
                         (updateNodeData (nodes st) selected
                            (set_layers (appendLabel ls (label sourceNode))))
              | None => st
              end
            else st
        | None => st
        end
      else st
  | None => st
  end.

Definition handleLabelClick (st : State) (clickedNodeId : string) : State :=
  insertLabel st clickedNodeId
    (fun clickedNode =>
       "[图" ++ string_of_Z (displayId (data clickedNode)) ++ "]").

Definition handleAnnotationClick (st : State) (nodeId : string)
    (annotationId : Z) : State :=
  insertLabel st nodeId
    (fun sourceNode =>
       "[图" ++ string_of_Z (displayId (data sourceNode)) ++ " 标"
       ++ string_of_Z annotationId ++ "]").

(** *** Layer management of the node component *)

(** [Partial<Layer>]. *)
Record LayerUpdates := mkLayerUpdates {
  upd_id : option string;
  upd_name : option string;
  upd_prompt : option string;
  upd_isEnabled : option bool
}.

(** [{ ...l, ...updates }]. *)
Definition applyUpdates (l : Layer) (updates : LayerUpdates) : Layer :=
  mkLayer (JS.or_else (upd_id updates) (layer_id l))
          (JS.or_else (upd_name updates) (layer_name l))
          (JS.or_else (upd_prompt updates) (layer_prompt l))
          (JS.or_else (upd_isEnabled updates) (isEnabled l)).

Definition addLayer (node : Node) (uuid : string) : Patch :=
  let currentLayers := JS.or_else (layers (data node)) [] in
  set_layers
    (currentLayers
     ++ [mkLayer uuid
           ("图层 " ++ string_of_Z (Z.of_nat (List.length currentLayers) + 1))
           "" true]).

Definition updateLayer (node : Node) (layerId : string)
    (updates : LayerUpdates) : Patch :=
  let currentLayers := JS.or_else (layers (data node)) [] in
  set_layers
    (map (fun l => if String.eqb (layer_id l) layerId
                   then applyUpdates l updates else l)
         currentLayers).

(** [deleteLayer]: [None] is the early return. *)
Definition deleteLayer (node : Node) (layerId : string) : option Patch :=
  let currentLayers := JS.or_else (layers (data node)) [] in
  if Nat.leb (List.length currentLayers) 1 then None
  else Some (set_layers
               (filter (fun l => negb (String.eqb (layer_id l) layerId))
                       currentLayers)).

Inductive LayerEvent :=
| AddLayer (uuid : string)
| UpdateLayer (layerId : string) (updates : LayerUpdates)
| DeleteLayer (layerId : string).

Definition layerPatchOf (node : Node) (e : LayerEvent) : option Patch :=
  match e with
  | AddLayer uuid => Some (addLayer node uuid)
  | UpdateLayer layerId updates => Some (updateLayer node layerId updates)
  | DeleteLayer layerId => deleteLayer node layerId
  end.

(** A layer event on the node [nodeId], handled by the component rendered
    from the store as it is then. *)
Definition layerStep (nodeId : string) (ns : list Node) (e : LayerEvent)
    : list Node :=
  match JS.find (fun n => String.eqb (id n) nodeId) ns with
  | None => ns
  | Some node =>
      match layerPatchOf node e with
      | Some patch => updateNodeData ns (id node) patch
      | None => ns
      end
  end.

(** The layers of the node [nodeId] of the store. *)
Definition currentLayers (nodeId : string) (ns : list Node) : list Layer :=
  match JS.find (fun n => String.eqb (id n) nodeId) ns with
  | Some node => JS.or_else (layers (data node)) []
  | None => []
  end.

(** *** The markers baked into an image ([bakeAnnotationsToImage]) *)

(** What is drawn for an annotation: a disc at [(marker_x, marker_y)], its
    outline, and the id of the annotation as text at the same point. *)
Record Marker := mkMarker {
  marker_x : Q;
  marker_y : Q;
  marker_radius : Q;
  marker_lineWidth : Q;
  marker_fontSize : Q;
  marker_text : string
}.

(** The markers drawn on the canvas, which has the size of the decoded
    image, in drawing order. *)
Definition bakedMarkers (imgWidth imgHeight : Q)
    (anns : list Annotation) : list Marker :=
  let scaleFactor := (Qmin imgWidth imgHeight / 500)%Q in
  map (fun ann =>
         mkMarker ((ann_x ann / 100) * imgWidth)%Q
                  ((ann_y ann / 100) * imgHeight)%Q
                  (15 * scaleFactor)%Q (2 * scaleFactor)%Q
                  (14 * scaleFactor)%Q
                  (string_of_Z (ann_id ann)))
      anns.

(** *** The download of an image ([handleDownloadImage]) *)

(** [s.replace(/[:.]/g, '-')]. *)
Fixpoint replaceColonsAndDots (s : string) : string :=
  match s with
  | EmptyString => EmptyString
  | String c rest =>
      String (if Ascii.eqb c ":" || Ascii.eqb c "." then "-"%char else c)
             (replaceColonsAndDots rest)
  end.

Definition modelShortName (m : option string) : string :=
  match m with
  | Some name =>
      if String.eqb name "gemini-2.5-flash-image-preview"
      then "gemini-2.5-flash"
      else if String.eqb name "gemini-3-pro-image-preview"
      then "gemini-3.0-pro"
      else if String.eqb name "gemini-2.0-flash-preview-image-generation"
      then "gemini-2.0-flash"
      else "gemini"
  | None => "gemini"
  end.

(** The name of the downloaded file; [isoString] is the result of
    [new Date().toISOString()]. *)
Definition downloadFilename (node : Node) (index : option Z)
    (isoString : string) : string :=
  (if JS.truthy_string (title (data node)) then title (data node)
   else "generated-image")
  ++ "-" ++ modelShortName (model (data node)) ++ "-"
  ++ match index with
     | Some i => "batch-" ++ string_of_Z (i + 1) ++ "-"
     | None => ""
     end
  ++ replaceColonsAndDots isoString ++ ".png".

(** The characters before the first comma, and what follows it if there is
    one. *)
Fixpoint splitAtComma (s : string) : string * option string :=
  match s with
  | EmptyString => (EmptyString, None)
  | String c rest =>
      if Ascii.eqb c ","
      then (EmptyString, Some rest)
      else let (before, after) := splitAtComma rest in
           (String c before, after)
  end.

(** [s.split(',')[1]]. *)
Definition secondField (s : string) : option string :=
  match snd (splitAtComma s) with
  | Some rest => Some (fst (splitAtComma rest))
  | None => None
  end.

(** The base64 text that is decoded for the download. *)
Definition base64Data (imageUrl : string) : string :=
  if String.prefix "data:" imageUrl then
    match secondField imageUrl with
    | Some field => if JS.truthy_string field then field else imageUrl
    | None => imageUrl
    end
  else imageUrl.

(** *** One request of the service ([performSingleGeneration]) *)

Inductive ContentPart :=
| ImageUrlPart (url : string)
| TextPart (text : string).

(** The [content] array of the user message: the reference images, as data
    URLs, then the prompt. *)
Definition messageContent (prompt0 : string)
    (referenceImages : option (list string)) : list ContentPart :=
  (match referenceImages with
   | Some imgs =>
       map (fun base64Data0 =>
              ImageUrlPart
                (if String.prefix "data:" base64Data0 then base64Data0
                 else "data:image/png;base64," ++ base64Data0))
           imgs
   | None => []
   end
   ++ [TextPart prompt0])%list.

Record RequestBody := mkRequestBody {
  body_model : string;
  body_content : list ContentPart;
  body_max_tokens : Z;
  body_temperature : Q
}.

Definition requestBody (options : GenerateImageOptions) (modelId : string)
    : RequestBody :=
  mkRequestBody modelId
    (messageContent (opt_prompt options) (opt_referenceImages options))
    1500 (7 # 10).

(** The characters of [s] before its first closing parenthesis, when it has
    one. *)
Fixpoint untilParen (s : string) : option string :=
  match s with
  | EmptyString => None
  | String c rest =>
      if Ascii.eqb c ")" then Some EmptyString
      else match untilParen rest with
           | Some body => Some (String c body)
           | None => None
           end
  end.

Fixpoint dropChars (n : nat) (s : string) : string :=
  match n, s with
  | S m, String _ rest => dropChars m rest
  | _, _ => s
  end.

(** The regular expression [!\[image\]\((data:image\/[^)]+)\)] tried at the
    start of [s]: its group. *)
Definition matchImageAt (s : string) : option string :=
  if String.prefix "![image](data:image/" s then
    match untilParen (dropChars 20 s) with
    | Some body =>
        if JS.truthy_string body then Some ("data:image/" ++ body) else None
    | None => None
    end
  else None.

(** [content.match(...)]: the group of the leftmost match. *)
Fixpoint matchImage (s : string) : option string :=
  match matchImageAt s with
  | Some m => Some m
  | None =>
      match s with
      | EmptyString => None
      | String _ rest => matchImage rest
      end
  end.

(** A property of a parsed value as the code looks at it: falsy (absent
    included), a non-empty string, or another truthy value, on which
    [startsWith] is not a function. *)
Inductive JSField :=
| Falsy
| TruthyString (s : string)
| TruthyOther.

(** A truthy parsed value, by its [url] and [image] properties. *)
Record Parsed := mkParsed { parsed_url : JSField; parsed_image : JSField }.

(** [choice.message.content] when it is truthy: a string or another
    value. *)
Inductive MessageContent :=
| StringContent (s : string)
| ObjectContent (o : Parsed).

(** A response of the API: [resp_choices] is the result of
    [response.json()], reduced to the content of each choice ([None] when
    the message or its content is missing or falsy). *)
Record Response := mkResponse {
  resp_ok : bool;
  resp_status : Z;
  resp_text : string;
  resp_choices : Result (list (option MessageContent))
}.

(** [field && field.startsWith('data:image')], then [return field]. *)
Definition imageField (f : JSField) : Result (option string) :=
  match f with
  | Falsy => Ok None
  | TruthyString s =>
      if String.prefix "data:image" s then Ok (Some s) else Ok None
  | TruthyOther => Err "parsedContent.url.startsWith is not a function"
  end.

Definition noImageData : Result string :=
  Err "No image data found in response".

Definition fromParsed (parsedContent : option Parsed) : Result string :=
  match parsedContent with
  | Some o =>
      let* viaUrl := imageField (parsed_url o) in
      match viaUrl with
      | Some img => Ok img
      | None =>
          let* viaImage := imageField (parsed_image o) in
          match viaImage with
          | Some img => Ok img
          | None => noImageData
          end
      end
  | None => noImageData
  end.

(** What [performSingleGeneration] makes of a response; [JSON_parse] is
    [JSON.parse] on the content, [None] when it throws or gives a falsy
    value. *)
Definition extractImage (JSON_parse : string -> option Parsed)
    (response : Response) : Result string :=
  if negb (resp_ok response) then
    Err ("API Error " ++ string_of_Z (resp_status response) ++ ": "
         ++ resp_text response)
  else
    let* choices := resp_choices response in
    match choices with
    | Some content :: _ =>
        match content with
        | StringContent s =>
            if JS.truthy_string s then
              match matchImage s with
              | Some img => Ok img
              | None =>
                  if String.prefix "data:image" s then Ok s
                  else fromParsed (JSON_parse s)
              end
            else noImageData
        | ObjectContent o => fromParsed (Some o)
        end
    | _ => noImageData
    end.

(** The environment of the handlers when the requests go through the
    service: [fetch] answers the [i]-th request of a call, or fails. *)
Definition serviceEnv (currentUser key : option string)
    (bake : string -> list Annotation -> Result string)
    (JSON_parse : string -> option Parsed)
    (fetch : RequestBody -> nat -> Result Response) : Env :=
  mkEnv currentUser key bake
    (fun options modelId i =>
       let* response := fetch (requestBody options modelId) i in
       extractImage JSON_parse response).

(** *** The canvas as a whole *)

Definition set_model (m : string) : Patch := fun d =>
  mkNodeData (title d) (displayId d) (imageUrl d) (annotations d) (layers d)
    (prompt d) (generatedImage d) (generatedImages d) (selectedImageIndex d)
    (status d) (Some m) (aspectRatio d) (imageResolution d)
    (numberOfImages d).

Definition set_aspectRatio (a : AspectRatio) : Patch := fun d =>
  mkNodeData (title d) (displayId d) (imageUrl d) (annotations d) (layers d)
    (prompt d) (generatedImage d) (generatedImages d) (selectedImageIndex d)
    (status d) (model d) (Some a) (imageResolution d)
    (numberOfImages d).

Definition set_imageResolution (r : ImageResolution) : Patch := fun d =>
  mkNodeData (title d) (displayId d) (imageUrl d) (annotations d) (layers d)
    (prompt d) (generatedImage d) (generatedImages d) (selectedImageIndex d)
    (status d) (model d) (aspectRatio d) (Some r)
    (numberOfImages d).

(** The changes that the selectors and the count buttons of a generator
    make. *)
Inductive ConfigChange :=
| ChangeModel (m : string)
| ChangeAspectRatio (a : AspectRatio)
| ChangeImageResolution (r : ImageResolution)
| ChangeNumberOfImages (num : Z).

Definition configPatch (c : ConfigChange) : Patch :=
  match c with
  | ChangeModel m => set_model m
  | ChangeAspectRatio a => set_aspectRatio a
  | ChangeImageResolution r => set_imageResolution r
  | ChangeNumberOfImages num => set_numberOfImages num
  end.

(** The hooks of [AppContent] with the node counter ref. *)
Record Canvas := mkCanvas { view : State; nodeCounter : Z }.

Definition initialCanvas (rect : option DOMRect) : Canvas :=
  mkCanvas (initialState rect) 1.

(** What the user and the calls in flight do to the canvas. *)
Inductive Action :=
| AddNode (uuid layerUuid : string) (t : NodeType)
| DeleteNode (nodeId : string)
| DeleteConnection (connectionId : string)
| NodeSelect (nodeId : string)
| ConnectionSelect (connectionId : string)
| KeyDown (key tagName : string)
| ZoomIn
| ZoomOut
| ResetZoom
| Wheel (e : WheelEvent)
| MouseDown (button : Z) (e : MouseEvent)
| NodeMouseDown (e : MouseEvent) (nodeId : string)
| StartConnection (nodeId : string) (isOutput : bool) (e : MouseEvent)
| MouseMove (e : MouseEvent)
| MouseUp (e : MouseEvent) (uuid : string)
| LabelClick (clickedNodeId : string)
| AnnotationClick (nodeId : string) (annotationId : Z)
| OnNode (nodeId : string) (e : NodeEvent)
| OnLayers (nodeId : string) (e : LayerEvent)
| Configure (nodeId : string) (c : ConfigChange)
| Generation (e : StoreEvent).

Definition onView (c : Canvas) (st : State) : Canvas :=
  mkCanvas st (nodeCounter c).

Definition act (NODE_WIDTH_UPLOAD NODE_WIDTH_GEN : Q) (c : Canvas)
    (a : Action) : Canvas :=
  let st := view c in
  match a with
  | AddNode uuid layerUuid t =>
      let (st', counter) :=
        addNode NODE_WIDTH_UPLOAD NODE_WIDTH_GEN st (nodeCounter c)
          uuid layerUuid t in
      mkCanvas st' counter
  | DeleteNode nodeId => onView c (deleteNode st nodeId)
  | DeleteConnection connectionId =>
      onView c (deleteConnection st connectionId)
  | NodeSelect nodeId => onView c (handleNodeSelect st nodeId)
  | ConnectionSelect connectionId =>
      onView c (handleConnectionSelect st connectionId)
  | KeyDown key tagName => onView c (handleKeyDown st key tagName)
  | ZoomIn => onView c (handleZoomIn st)
  | ZoomOut => onView c (handleZoomOut st)
  | ResetZoom => onView c (handleResetZoom st)
  | Wheel e => onView c (handleWheel st e)
  | MouseDown button e => onView c (handleMouseDown st button e)
  | NodeMouseDown e nodeId => onView c (handleNodeMouseDown st e nodeId)
  | StartConnection nodeId isOutput e =>
      onView c (handleStartConnection st nodeId isOutput e)
  | MouseMove e => onView c (handleMouseMove st e)
  | MouseUp e uuid => onView c (handleMouseUp st e uuid)
  | LabelClick clickedNodeId => onView c (handleLabelClick st clickedNodeId)
  | AnnotationClick nodeId annotationId =>
      onView c (handleAnnotationClick st nodeId annotationId)
  | OnNode nodeId e => onView c (set_nodes st (nodeStep nodeId (nodes st) e))
  | OnLayers nodeId e =>
      onView c (set_nodes st (layerStep nodeId (nodes st) e))
  | Configure nodeId change =>
      onView c (set_nodes st
                  (updateNodeData (nodes st) nodeId (configPatch change)))
  | Generation e => onView c (set_nodes st (applyEvent (nodes st) e))
  end.

Definition runActions (NODE_WIDTH_UPLOAD NODE_WIDTH_GEN : Q) (c : Canvas)
    (actions : list Action) : Canvas :=
  fold_left (act NODE_WIDTH_UPLOAD NODE_WIDTH_GEN) actions c.

(** The ends of a connection. *)
Definition ends (c : Connection) : string * string :=
  (sourceId c, targetId c).

(** The layer events of a node in which every added layer gets an id that
    no layer of the node has, and no update changes an id. *)
Fixpoint freshLayerIds (nodeId : string) (ns : list Node)
    (events : list LayerEvent) : Prop :=
  match events with
  | [] => True
  | e :: rest =>
      match e with
      | AddLayer uuid =>
          ~ In uuid (map layer_id (currentLayers nodeId ns))
      | UpdateLayer _ updates => upd_id updates = None
      | DeleteLayer _ => True
      end
      /\ freshLayerIds nodeId (layerStep nodeId ns e) rest
  end.

(** The mouse moves of a pan, one after the other. *)
Definition panMoves (st : State) (moves : list MouseEvent) : State :=
  fold_left handleMouseMove moves st.

(** *** What is kept *)

Definition scaleInRange (st : State) : Prop :=
  (1 # 10 <= scale st <= 3)%Q.

Definition oneSelection (st : State) : Prop :=
  selectedNodeId st = None \/ selectedConnectionId st = None.

(** The display numbers rise along the nodes, from 1 and below the
    counter. *)
Definition risingDisplayIds (c : Canvas) : Prop :=
  StronglySorted (fun a b => displayId (data a) < displayId (data b))
    (nodes (view c))
  /\ Forall (fun n => 1 <= displayId (data n) < nodeCounter c)
       (nodes (view c))
  /\ 1 <= nodeCounter c.

(** No two connections have the same ends, and none joins a node to
    itself. *)
Definition distinctEnds (cs : list Connection) : Prop :=
  NoDup (map ends cs) /\ Forall (fun c => sourceId c <> targetId c) cs.

Definition isAddNode (a : Action) : bool :=
  match a with AddNode _ _ _ => true | _ => false end.

(** A patch that leaves the display number alone. *)
Definition keepsDisplayId (patch : Patch) : Prop :=
  forall d, displayId (patch d) = displayId d.

(** The node [n] put at [p] when it has the id [nodeId]. *)
Definition placeNode (nodeId : string) (p : Position) (n : Node) : Node :=
  if String.eqb (id n) nodeId then set_position n p else n.

(** Where a node drag started at [p0] puts the node when the cursor is at
    [e]. *)
Definition draggedTo (st : State) (p0 : Position) (e : MouseEvent)
    : Position :=
  mkPosition
    (x p0 + (clientX e - x (startPos (dragState st))) / scale st)%Q
    (y p0 + (clientY e - y (startPos (dragState st))) / scale st)%Q.

(** The string [s] does not hold the character [ch]. *)
Fixpoint lacks (ch : ascii) (s : string) : Prop :=
  match s with
  | EmptyString => True
  | String c rest => c <> ch /\ lacks ch rest
  end.

(** A new canvas after the actions. *)
Definition canvasAfter (NODE_WIDTH_UPLOAD NODE_WIDTH_GEN : Q)
    (rect : option DOMRect) (actions : list Action) : Canvas :=
  runActions NODE_WIDTH_UPLOAD NODE_WIDTH_GEN (initialCanvas rect) actions.

(** ** More sample data *)

Module Sample2.

(** The sample canvas with image node 1 and the generator. *)
Definition twoNodes : State :=
  Sample.canvas [Sample.source1; Sample.generator] [].

(** A plug dragged from image node 1. *)
Definition plugDragged : State :=
  handleStartConnection twoNodes "node-1" true (mkMouseEvent 300 300).

(** The generator as [addNode] makes it: one layer, no prompt. *)
Definition freshGenerator : Node :=
  newNode "node-9" GENERATE_IMAGE 9 "layer-1" (mkPosition 400 0) 380.

Definition clickRect : DOMRect := mkDOMRect 10 10 200 100.

(** The patch of a click at (70, 50) on the image of node 1. *)
Definition clickPatch : Patch :=
  NodeComponent.set_annotations
    ([] ++ [mkAnnotation 1 (((70 - 10) / 200) * 100)%Q
              (((50 - 10) / 100) * 100)%Q]).

Definition linkContent : string :=
  "Here it is: ![image](data:image/png;base64,CCCC) enjoy".

(** An answer of the API that carries [Sample.resultA] as a marked link. *)
Definition goodResponse : Response :=
  mkResponse true 200 "" (Ok [Some (StringContent linkContent)]).

(** The service with a signed-in user, a key, and an API that always gives
    the good answer. *)
Definition serviceOk : Env :=
  serviceEnv (Some "user-1") (Some "sk-key")
    (fun img _ => Ok (img ++ "+markers"))
    (fun _ => None)
    (fun _ _ => Ok goodResponse).

Definition signedOut : Env :=
  mkEnv None (Some "sk-key")
    (fun img _ => Ok (img ++ "+markers"))
    (fun _ _ _ => Ok Sample.resultA).

Definition optionsOfTwo : GenerateImageOptions :=
  mkOptions "enhance" None (Some ar_1_1) (Some res_1K) (Some 2).

Definition nodesOfTwo : list Node :=
  [Sample.source1; Sample.generatorOfTwo].

Definition connectionsOfTwo : list Connection :=
  [Sample.connect "c-1" Sample.source1 Sample.generatorOfTwo].

(** The request that the trigger of the generator of two sends. *)
Definition sentOptions : GenerateImageOptions :=
  mkOptions
    (finalPrompt "enhance" [noteText 1 1 false])
    (Some [Sample.image1]) (Some ar_1_1) (Some res_1K) (Some 2).

Definition sentSettings : SystemSettings :=
  mkSettings "https://api.vectorengine.ai" "gemini-2.5-flash-image-preview".

End Sample2.

(** ** The batches on the canvas *)

(** [imgs] is the answer of the service to some request. *)
Definition served (imgs : list string) : Prop :=
  exists currentUser key bake JSON_parse fetch options settings,
    generateImageWithGemini
      (serviceEnv currentUser key bake JSON_parse fetch) options settings
    = Ok imgs.

(** The batch of a call that settles with success is what the service
    returned; [handleTriggerGeneration] stores nothing else. *)
Definition servedAction (a : Action) : Prop :=
  match a with
  | Generation (Settled _ _ (Ok resultImages)) => served resultImages
  | _ => True
  end.

(** Every image of the batch of a node is a data URL of an image. *)
Definition batchServed (d : NodeData) : Prop :=
  match generatedImages d with
  | Some imgs =>
      Forall (fun img => String.prefix "data:image" img = true) imgs
  | None => True
  end.

Definition batchesServed (st : State) : Prop :=
  Forall (fun n => batchServed (data n)) (nodes st).

Module Sample3.

(** A generator is added and a call for it settles with the two images the
    service returned. *)
Definition servedTrigger : list Action :=
  [AddNode "node-9" "layer-1" GENERATE_IMAGE;
   Generation (Started 1 "node-9");
   Generation (Settled 1 "node-9" (Ok [Sample.resultA; Sample.resultA]))].

(** The generator on the canvas after that. *)
Definition servedGenerator : Node :=
  nth 0 (nodes (view (canvasAfter 280 320 None servedTrigger)))
    Sample.generator.

End Sample3.


(** * Properties *)

(** ** Geometry *)

Section Geometry.

Local Open Scope Q_scope.

Lemma scale_nonzero (k : Q) : 1 # 10 <= k -> ~ k == 0.
Proof.
  intros Hk Hz. rewrite Hz in Hk. unfold Qle in Hk. simpl in Hk. lia.
Qed.

Lemma scale_positive (k : Q) : 1 # 10 <= k -> 0 < k.
Proof.
  intros Hk. apply Qlt_le_trans with (1 # 10); [reflexivity | exact Hk].
Qed.

Lemma Qdiv_cancel_num (a k k' : Q) :
  ~ a == 0 -> ~ k == 0 -> ~ k' == 0 -> a / k' == a / k -> k' == k.
Proof.
  intros Ha Hk Hk' H.
  assert (E : a * k == a * k').
  { transitivity (a / k' * k' * k); [field; exact Hk' |].
    rewrite H. field. exact Hk. }
  symmetry. apply Qmult_inj_l with a; assumption.
Qed.

Lemma clamp_bounds (v : Q) : 1 # 10 <= Qmin (Qmax v (1 # 10)) 3 <= 3.
Proof.
  split.
  - apply Q.min_glb; [apply Q.le_max_r | unfold Qle; simpl; lia].
  - apply Q.le_min_r.
Qed.

(** C7. [screenToWorld] undoes the rendering transform: for every world
    point, pan offset, canvas origin and scale in [0.1, 3.0], the screen
    point where the world point is drawn, [p * scale + offset + origin],
    is sent back to the world point (equality of rationals). *)
Theorem screenToWorld_inverts_rendering (st : State) (rect : DOMRect)
    (p : Position) :
  canvasRef st = Some rect ->
  1 # 10 <= scale st <= 3 ->
  x (screenToWorld st (x (worldToScreen st rect p))
                      (y (worldToScreen st rect p))) == x p
  /\ y (screenToWorld st (x (worldToScreen st rect p))
                         (y (worldToScreen st rect p))) == y p.
Proof.
  intros Hrect [Hlo _].
  pose proof (scale_nonzero _ Hlo) as Hnz.
  unfold screenToWorld, worldToScreen. rewrite Hrect. simpl.
  split; field; exact Hnz.
Qed.

(** C10. A wheel event changes the scale only: the new scale is the old one
    minus a thousandth of the wheel delta, clamped into [0.1, 3.0]; the pan
    offset, the nodes, the connections, the selection and the drag state
    are as they were. The zoom is not anchored at the cursor: when the scale
    changes, the world point under a cursor that is not on the origin of
    the content layer changes too. *)
Theorem handleWheel_changes_scale_only (st : State) (e : WheelEvent) :
  nodes (handleWheel st e) = nodes st
  /\ connections (handleWheel st e) = connections st
  /\ offset (handleWheel st e) = offset st
  /\ selectedNodeId (handleWheel st e) = selectedNodeId st
  /\ selectedConnectionId (handleWheel st e) = selectedConnectionId st
  /\ dragState (handleWheel st e) = dragState st
  /\ canvasRef (handleWheel st e) = canvasRef st
  /\ scale (handleWheel st e)
     = Qmin (Qmax (scale st - deltaY e * (1 # 1000)) (1 # 10)) 3
  /\ 1 # 10 <= scale (handleWheel st e) <= 3
  /\ (forall (rect : DOMRect) (cx cy : Q),
        canvasRef st = Some rect ->
        1 # 10 <= scale st ->
        ~ scale (handleWheel st e) == scale st ->
        ~ cx - rect_left rect - x (offset st) == 0 ->
        ~ x (screenToWorld (handleWheel st e) cx cy)
          == x (screenToWorld st cx cy)).
Proof.
  repeat (split; [reflexivity |]).
  split; [apply clamp_bounds |].
  intros rect cx cy Hrect Hk Hchange Hcursor Hsame.
  apply Hchange.
  unfold screenToWorld in Hsame. simpl in Hsame. rewrite Hrect in Hsame.
  simpl in Hsame.
  apply Qdiv_cancel_num with (cx - rect_left rect - x (offset st)).
  - exact Hcursor.
  - apply scale_nonzero; exact Hk.
  - apply scale_nonzero. apply clamp_bounds.
  - exact Hsame.
Qed.

Lemma nth_error_map_some {A B : Type} (f : A -> B) (l : list A) (k : nat)
    (a : A) :
  nth_error l k = Some a -> nth_error (map f l) k = Some (f a).
Proof.
  intros H. rewrite nth_error_map, H. reflexivity.
Qed.

(** C8. While a node is dragged (drag mode [NODE] with the dragged node's
    id and its start position [p0] recorded), a mouse move to the screen
    point [s1] puts every node with that id at [p0 + (s1 - s0) / k], where
    [s0] is the recorded start point and [k] the scale: the node has moved
    by the screen delta divided by the scale. The other nodes, and
    everything of the dragged node but its position, are untouched, and the
    pan offset plays no part. *)
Theorem drag_moves_node_by_scaled_delta (st : State) (e : MouseEvent)
    (dragged : string) (p0 : Position) :
  isDragging (dragState st) = true ->
  mode (dragState st) = NODE ->
  draggedNodeId (dragState st) = Some dragged ->
  dragged <> EmptyString ->
  nodeStartPos (dragState st) = Some p0 ->
  0 < scale st ->
  (forall (k : nat) (n : Node),
      nth_error (nodes st) k = Some n ->
      exists n',
        nth_error (nodes (handleMouseMove st e)) k = Some n'
        /\ (id n = dragged ->
            x (position n')
            = x p0 + (clientX e - x (startPos (dragState st))) / scale st
            /\ y (position n')
               = y p0 + (clientY e - y (startPos (dragState st))) / scale st
            /\ x (position n') - x p0
               == (clientX e - x (startPos (dragState st))) / scale st
            /\ y (position n') - y p0
               == (clientY e - y (startPos (dragState st))) / scale st
            /\ id n' = id n /\ type n' = type n /\ data n' = data n
            /\ width n' = width n /\ height n' = height n)
        /\ (id n <> dragged -> n' = n))
  /\ (forall o : Position,
        nodes (handleMouseMove (set_offset st o) e)
        = nodes (handleMouseMove st e))
  /\ offset (handleMouseMove st e) = offset st
  /\ scale (handleMouseMove st e) = scale st.
Proof.
  intros Hdrag Hmode Hid Hne Hstart Hk.
  assert (Htruthy : JS.truthy_string dragged = true).
  { destruct dragged; [contradiction Hne; reflexivity | reflexivity]. }
  unfold handleMouseMove. simpl.
  rewrite Hdrag, Hmode, Hid, Hstart, Htruthy. simpl.
  split; [| split; [| split]]; try reflexivity.
  intros k n Hn.
  eexists. split.
  - apply nth_error_map_some. exact Hn.
  - split.
    + intros Heq. apply String.eqb_eq in Heq. rewrite Heq. simpl.
      repeat split; try reflexivity; ring.
    + intros Hneq. apply String.eqb_neq in Hneq. rewrite Hneq. reflexivity.
Qed.

End Geometry.

(** ** The store *)

Section Store.

Lemma updateNodeData_nth (ns : list Node) (nodeId : string) (patch : Patch)
    (k : nat) (n : Node) :
  nth_error ns k = Some n ->
  nth_error (updateNodeData ns nodeId patch) k
  = Some (if String.eqb (id n) nodeId
          then set_data n (patch (data n)) else n).
Proof.
  intros H. unfold updateNodeData. rewrite nth_error_map, H. reflexivity.
Qed.

Lemma updateNodeData_in (ns : list Node) (nodeId : string) (patch : Patch)
    (n : Node) :
  In n (updateNodeData ns nodeId patch) ->
  id n = nodeId ->
  exists n0, In n0 ns /\ id n0 = nodeId
             /\ n = set_data n0 (patch (data n0)).
Proof.
  unfold updateNodeData. intros Hin Hid.
  apply in_map_iff in Hin. destruct Hin as [n0 [Heq Hin0]].
  destruct (String.eqb (id n0) nodeId) eqn:E.
  - exists n0. apply String.eqb_eq in E. auto.
  - subst n. apply String.eqb_neq in E. contradiction.
Qed.

Lemma updateNodeData_find (ns : list Node) (nodeId : string)
    (patch : Patch) :
  JS.find (fun n => String.eqb (id n) nodeId)
          (updateNodeData ns nodeId patch)
  = option_map (fun n => set_data n (patch (data n)))
      (JS.find (fun n => String.eqb (id n) nodeId) ns).
Proof.
  unfold JS.find, updateNodeData.
  induction ns as [| n rest IH]; simpl; [reflexivity |].
  destruct (String.eqb (id n) nodeId) eqn:E; simpl.
  - rewrite E. reflexivity.
  - rewrite E. exact IH.
Qed.

Lemma find_id (ns : list Node) (nodeId : string) (node : Node) :
  JS.find (fun n => String.eqb (id n) nodeId) ns = Some node ->
  id node = nodeId.
Proof.
  intros H. apply find_some in H. destruct H as [_ H].
  apply String.eqb_eq. exact H.
Qed.

Lemma runEvents_last (ns : list Node) (schedule : list StoreEvent)
    (e : StoreEvent) :
  runEvents ns (schedule ++ [e]) = applyEvent (runEvents ns schedule) e.
Proof.
  unfold runEvents. rewrite fold_left_app. reflexivity.
Qed.

Lemma settle_reflects (ns : list Node) (nodeId : string)
    (r : Result (list string)) (n : Node) :
  In n (settle ns nodeId r) -> id n = nodeId -> reflects r (data n).
Proof.
  intros Hin Hid. destruct r as [imgs | m]; simpl in Hin;
    apply updateNodeData_in in Hin; try exact Hid;
    destruct Hin as [n0 [_ [_ Heq]]]; subst n; simpl; auto.
Qed.

(** The call run alone is the schedule of its two updates. *)
Lemma handleTriggerGeneration_as_events (env : Env) (ns : list Node)
    (conns : list Connection) (nodeId : string) (targetNode : Node)
    (compiledPrompt : string) (call : nat) :
  JS.find (fun n => String.eqb (id n) nodeId) ns = Some targetNode ->
  compilePrompt targetNode = Some compiledPrompt ->
  handleTriggerGeneration env ns conns nodeId
  = runEvents ns
      [Started call nodeId;
       Settled call nodeId
         (outcome env targetNode compiledPrompt
            (sourceNodes ns conns nodeId))].
Proof.
  intros Hfind Hprompt. unfold handleTriggerGeneration.
  rewrite Hfind, Hprompt. reflexivity.
Qed.

(** After any schedule, the node shows the result of the call that settled
    last. *)
Lemma last_settled_reflects (ns : list Node) (schedule : list StoreEvent)
    (call : nat) (nodeId : string) (r : Result (list string)) (n : Node) :
  In n (runEvents ns (schedule ++ [Settled call nodeId r])) ->
  id n = nodeId ->
  reflects r (data n).
Proof.
  rewrite runEvents_last. simpl. apply settle_reflects.
Qed.

(** C2, as the code has it. The handler keeps no request identifier: the
    update of a call that settles is applied whatever was started since.
    After any schedule of updates, the node shows the result of the call
    that settled last. So of two calls on a node, the one started later
    prevails when its response is the last to arrive (the calls run one
    after the other, or overlap and answer in the order they were started);
    when the response of the earlier call arrives after the one of the later
    call, it is the result of the earlier call that the node shows. *)
Theorem last_settled_call_wins (ns : list Node) (nodeId : string) :
  (forall schedule call r n,
      In n (runEvents ns (schedule ++ [Settled call nodeId r])) ->
      id n = nodeId ->
      reflects r (data n))
  /\ (forall r1 r2 n,
        In n (runEvents ns
                [Started 1 nodeId; Settled 1 nodeId r1;
                 Started 2 nodeId; Settled 2 nodeId r2])
        \/ In n (runEvents ns
                   [Started 1 nodeId; Started 2 nodeId;
                    Settled 1 nodeId r1; Settled 2 nodeId r2]) ->
        id n = nodeId ->
        reflects r2 (data n))
  /\ (forall r1 r2 n,
        In n (runEvents ns
                [Started 1 nodeId; Started 2 nodeId;
                 Settled 2 nodeId r2; Settled 1 nodeId r1]) ->
        id n = nodeId ->
        reflects r1 (data n)).
Proof.
  split; [| split].
  - intros schedule call r n. apply last_settled_reflects.
  - intros r1 r2 n [Hin | Hin] Hid.
    + apply (last_settled_reflects ns
               [Started 1 nodeId; Settled 1 nodeId r1; Started 2 nodeId]
               2 nodeId r2 n Hin Hid).
    + apply (last_settled_reflects ns
               [Started 1 nodeId; Started 2 nodeId; Settled 1 nodeId r1]
               2 nodeId r2 n Hin Hid).
  - intros r1 r2 n Hin Hid.
    apply (last_settled_reflects ns
             [Started 1 nodeId; Started 2 nodeId; Settled 2 nodeId r2]
             1 nodeId r1 n Hin Hid).
Qed.

End Store.

(** ** The orchestrator *)

Section Orchestrator.

Lemma Promise_all_rejects {A : Type} (promises : list (Result A)) (i : nat)
    (m : string) :
  nth_error promises i = Some (Err m) ->
  exists m', Promise_all promises = Err m'.
Proof.
  revert i. induction promises as [| p rest IH]; intros i H.
  - destruct i; discriminate H.
  - destruct p as [a | m0]; simpl.
    + destruct i as [| i]; [discriminate H |].
      destruct (IH i H) as [m' Hm']. rewrite Hm'. eauto.
    + eauto.
Qed.

Lemma Promise_all_fulfils {A : Type} (promises : list (Result A))
    (results : list A) :
  Promise_all promises = Ok results ->
  promises = map Ok results.
Proof.
  revert results. induction promises as [| p rest IH]; intros results H.
  - inversion H. reflexivity.
  - destruct p as [a | m]; simpl in H; [| discriminate H].
    destruct (Promise_all rest) as [l | m]; [| discriminate H].
    inversion H. simpl. f_equal. apply IH. reflexivity.
Qed.

Lemma Array_from_nth {A : Type} (len : Z) (f : nat -> A) (i : nat) :
  (i < Z.to_nat len)%nat ->
  nth_error (Array_from len f) i = Some (f i).
Proof.
  intros H. unfold Array_from.
  rewrite nth_error_map, nth_error_seq.
  apply Nat.ltb_lt in H. rewrite H. reflexivity.
Qed.

Lemma buildRequest_options (env : Env) (targetNode : Node)
    (compiledPrompt : string) (sources : list Node)
    (options : GenerateImageOptions) (settings : SystemSettings) :
  buildRequest env targetNode compiledPrompt sources
  = Ok (options, settings) ->
  opt_numberOfImages options = Some (requestedCount targetNode)
  /\ opt_aspectRatio options = aspectRatio (data targetNode)
  /\ opt_imageResolution options = imageResolution (data targetNode).
Proof.
  unfold buildRequest, bind. intros H.
  destruct (collectReferences env sources 0 [] []) as [[refs notes] | m];
    [| discriminate H].
  destruct (user env); [| discriminate H].
  inversion H. simpl. auto.
Qed.

(** When one of the parallel requests of the call is rejected, the call
    ends in the [catch] block. *)
Lemma outcome_rejected (env : Env) (targetNode : Node)
    (compiledPrompt : string) (sources : list Node) (i : nat) :
  (i < Z.to_nat (requestedCount targetNode))%nat ->
  (forall options settings,
      buildRequest env targetNode compiledPrompt sources
      = Ok (options, settings) ->
      exists m,
        performSingleGeneration env options (modelIdOf settings) i
        = Err m) ->
  exists m, outcome env targetNode compiledPrompt sources = Err m.
Proof.
  intros Hi Hfail. unfold outcome, bind.
  destruct (buildRequest env targetNode compiledPrompt sources)
    as [[options settings] | m] eqn:Hreq; [| eauto].
  destruct (Hfail options settings eq_refl) as [m Hm].
  apply buildRequest_options in Hreq. destruct Hreq as [Hn _].
  unfold generateImageWithGemini.
  destruct (negb (JS.truthy (apiKey env))); [eauto |].
  rewrite Hn. simpl.
  apply Promise_all_rejects with (i := i) (m := m).
  rewrite Array_from_nth by exact Hi. rewrite Hm. reflexivity.
Qed.

(** C4. A trigger that passes validation and of whose parallel requests
    one (the [i]-th of the requested count, sent with the request that
    the call builds) is rejected fails as a whole: the target node ends
    with status
    [error] and with no result image (neither the list nor the active
    image), while its model, aspect ratio, resolution, requested count and
    layers, and everything else of it, are as before; the other nodes are
    untouched. *)
Theorem rejected_request_fails_whole_trigger (env : Env) (ns : list Node)
    (conns : list Connection) (nodeId : string) (targetNode : Node)
    (compiledPrompt : string) (i : nat) :
  JS.find (fun n => String.eqb (id n) nodeId) ns = Some targetNode ->
  compilePrompt targetNode = Some compiledPrompt ->
  (i < Z.to_nat (requestedCount targetNode))%nat ->
  (forall options settings,
      requestOf env ns conns nodeId = Some (options, settings) ->
      exists m,
        performSingleGeneration env options (modelIdOf settings) i
        = Err m) ->
  forall (k : nat) (n : Node),
    nth_error ns k = Some n ->
    exists n',
      nth_error (handleTriggerGeneration env ns conns nodeId) k = Some n'
      /\ (id n = nodeId ->
          status (data n') = Some error
          /\ generatedImages (data n') = None
          /\ generatedImage (data n') = None
          /\ model (data n') = model (data n)
          /\ aspectRatio (data n') = aspectRatio (data n)
          /\ imageResolution (data n') = imageResolution (data n)
          /\ numberOfImages (data n') = numberOfImages (data n)
          /\ layers (data n') = layers (data n)
          /\ prompt (data n') = prompt (data n)
          /\ title (data n') = title (data n)
          /\ displayId (data n') = displayId (data n)
          /\ imageUrl (data n') = imageUrl (data n)
          /\ annotations (data n') = annotations (data n)
          /\ id n' = id n /\ type n' = type n
          /\ position n' = position n
          /\ width n' = width n /\ height n' = height n)
      /\ (id n <> nodeId -> n' = n).
Proof.
  intros Hfind Hprompt Hi Hfail k n Hn.
  unfold handleTriggerGeneration. rewrite Hfind, Hprompt.
  assert (Hsent : forall options settings,
             buildRequest env targetNode compiledPrompt
               (sourceNodes ns conns nodeId) = Ok (options, settings) ->
             exists m,
               performSingleGeneration env options (modelIdOf settings) i
               = Err m).
  { intros options settings Hreq. apply Hfail.
    unfold requestOf. rewrite Hfind, Hprompt, Hreq. reflexivity. }
  destruct (outcome_rejected env targetNode compiledPrompt
              (sourceNodes ns conns nodeId) i Hi Hsent) as [m Hm].
  rewrite Hm. simpl.
  eexists. split.
  - apply updateNodeData_nth. apply updateNodeData_nth. exact Hn.
  - split.
    + intros Heq. apply String.eqb_eq in Heq. rewrite Heq. simpl.
      rewrite Heq. simpl. repeat split; reflexivity.
    + intros Hneq. apply String.eqb_neq in Hneq. rewrite Hneq, Hneq.
      reflexivity.
Qed.

End Orchestrator.

(** ** The node component *)

Section Component.

Import NodeComponent.







End Component.

(** ** The prompt compiler *)

Section Compiler.

Lemma texts_filter (counts : Layer -> bool) (ls : list Layer) :
  Spec.texts counts ls = map layer_prompt (filter counts ls).
Proof.
  induction ls as [| l rest IH]; simpl; [reflexivity |].
  destruct (counts l); simpl; rewrite IH; reflexivity.
Qed.

Lemma compilePrompt_compiled (targetNode : Node) :
  compilePrompt targetNode = Spec.compiled Spec.qualifies (data targetNode).
Proof.
  unfold compilePrompt, Spec.compiled, activeLayers.
  rewrite texts_filter.
  change (fun l : Layer =>
            isEnabled l
            && negb (String.eqb (JS.trim (layer_prompt l)) EmptyString))
    with Spec.qualifies.
  destruct (filter Spec.qualifies (JS.or_else (layers (data targetNode)) []))
    as [| l rest]; simpl.
  - destruct (prompt (data targetNode)) as [[| c p] |]; reflexivity.
  - reflexivity.
Qed.

(** C5, as the code has it. The compiled prompt is the join by newlines,
    in list order, of the prompt texts of the layers that are enabled and
    whose text is not empty once the white space around it is trimmed (the
    text joined is the untrimmed one); disabled layers, empty layers and
    layers of white space only are left out. When no layer counts, the
    legacy prompt is used, and when that is absent or empty nothing is
    triggered. With the layers A and B enabled and C disabled the prompt is
    A, a newline, B. Where no enabled layer holds white space only, this is
    the join of the enabled layers with a non-empty text. *)
Theorem compiled_prompt_joins_trimmed_nonempty_layers (targetNode : Node) :
  compilePrompt targetNode = Spec.compiled Spec.qualifies (data targetNode)
  /\ (forall n, layers (data n) = Some Sample.layersABC ->
                compilePrompt n = Some ("A" ++ newline ++ "B"))
  /\ ((forall l, In l (JS.or_else (layers (data targetNode)) []) ->
                 isEnabled l = true ->
                 JS.trim (layer_prompt l) = EmptyString ->
                 layer_prompt l = EmptyString) ->
      compilePrompt targetNode
      = Spec.compiled Spec.qualifies_as_worded (data targetNode)).
Proof.
  split; [apply compilePrompt_compiled |].
  split.
  - intros n Hn. rewrite compilePrompt_compiled. unfold Spec.compiled.
    rewrite Hn. reflexivity.
  - intros Hblank. rewrite compilePrompt_compiled. unfold Spec.compiled.
    replace (Spec.texts Spec.qualifies_as_worded
               (JS.or_else (layers (data targetNode)) []))
      with (Spec.texts Spec.qualifies
              (JS.or_else (layers (data targetNode)) []));
      [reflexivity |].
    induction (JS.or_else (layers (data targetNode)) []) as [| l rest IH];
      simpl; [reflexivity |].
    assert (Hl : Spec.qualifies l = Spec.qualifies_as_worded l).
    { unfold Spec.qualifies, Spec.qualifies_as_worded.
      destruct (isEnabled l) eqn:En; [| reflexivity]. simpl.
      destruct (String.eqb (JS.trim (layer_prompt l)) EmptyString) eqn:Et.
      - apply String.eqb_eq in Et.
        rewrite (Hblank l (or_introl eq_refl) En Et). reflexivity.
      - destruct (String.eqb (layer_prompt l) EmptyString) eqn:Ep;
          [| reflexivity].
        apply String.eqb_eq in Ep. rewrite Ep in Et. discriminate Et. }
    rewrite Hl, IH; [reflexivity |].
    intros l' Hin. apply Hblank. right. exact Hin.
Qed.

End Compiler.

(** ** Sorting and the order of the reference images *)

Section SortByKey.

Context {A : Type} (key : A -> Z).

Let cmp (a b : A) : Z := key a - key b.
Let ordered (a b : A) : Prop := key a <= key b.

Lemma insert_permutation (a : A) (l : list A) :
  Permutation (a :: l) (JS.insert cmp a l).
Proof.
  induction l as [| b rest IH]; simpl; [apply Permutation_refl |].
  destruct (cmp a b <=? 0); [apply Permutation_refl |].
  apply perm_trans with (b :: a :: rest); [apply perm_swap |].
  apply perm_skip. exact IH.
Qed.

Lemma sort_permutation (l : list A) : Permutation l (JS.sort cmp l).
Proof.
  induction l as [| a rest IH]; simpl; [apply perm_nil |].
  apply perm_trans with (a :: JS.sort cmp rest);
    [apply perm_skip; exact IH | apply insert_permutation].
Qed.

Lemma insert_sorted (a : A) (l : list A) :
  StronglySorted ordered l -> StronglySorted ordered (JS.insert cmp a l).
Proof.
  induction 1 as [| b rest Hrest IH Hb]; simpl.
  - constructor; constructor.
  - destruct (cmp a b <=? 0) eqn:E.
    + apply Z.leb_le in E. unfold cmp in E.
      constructor; [constructor; assumption |].
      constructor; [unfold ordered; lia |].
      eapply Forall_impl; [| exact Hb]. unfold ordered. intros c Hc. lia.
    + apply Z.leb_gt in E. unfold cmp in E.
      constructor; [exact IH |].
      apply (Permutation_Forall (insert_permutation a rest)).
      constructor; [unfold ordered; lia | exact Hb].
Qed.

Lemma sort_sorted (l : list A) : StronglySorted ordered (JS.sort cmp l).
Proof.
  induction l as [| a rest IH]; simpl; [constructor |].
  apply insert_sorted. exact IH.
Qed.

Lemma sorted_keys (l : list A) :
  StronglySorted ordered l -> StronglySorted Z.le (map key l).
Proof.
  induction 1 as [| a rest Hrest IH Ha]; simpl; constructor;
    [exact IH |].
  apply Forall_map. exact Ha.
Qed.

Lemma sorted_filter (f : A -> bool) (l : list A) :
  StronglySorted ordered l -> StronglySorted ordered (filter f l).
Proof.
  induction 1 as [| a rest Hrest IH Ha]; simpl; [constructor |].
  destruct (f a); [| exact IH].
  constructor; [exact IH |].
  apply Forall_forall. intros b Hb. apply filter_In in Hb.
  rewrite Forall_forall in Ha. apply Ha. apply Hb.
Qed.

(** Two sorted arrangements of the same elements are the same list when
    no two distinct elements share a key. *)
Lemma sorted_permutation_unique (l1 l2 : list A) :
  StronglySorted ordered l1 ->
  StronglySorted ordered l2 ->
  Permutation l1 l2 ->
  (forall a b, In a l1 -> In b l1 -> key a = key b -> a = b) ->
  l1 = l2.
Proof.
  intros H1. revert l2.
  induction H1 as [| a rest1 Hrest1 IH Ha]; intros l2 H2 Hperm Hinj.
  - apply Permutation_nil in Hperm. symmetry. exact Hperm.
  - destruct l2 as [| b rest2].
    + apply Permutation_sym, Permutation_nil in Hperm. discriminate Hperm.
    + inversion H2 as [| b' rest2' Hrest2 Hb]; subst.
      assert (Hab : a = b).
      { assert (Hina : In a (b :: rest2))
          by (apply (Permutation_in _ Hperm); left; reflexivity).
        assert (Hinb : In b (a :: rest1))
          by (apply (Permutation_in _ (Permutation_sym Hperm)); left;
              reflexivity).
        destruct Hina as [Hina | Hina]; [symmetry; exact Hina |].
        destruct Hinb as [Hinb | Hinb]; [exact Hinb |].
        rewrite Forall_forall in Ha, Hb.
        specialize (Ha _ Hinb). specialize (Hb _ Hina).
        unfold ordered in Ha, Hb.
        apply Hinj; [left; reflexivity | right; exact Hinb | lia]. }
      subst b. f_equal.
      apply IH; [exact Hrest2 | |].
      * apply Permutation_cons_inv with a. exact Hperm.
      * intros c d Hc Hd. apply Hinj; right; assumption.
Qed.

End SortByKey.

Section Sources.

Lemma filter_permutation {A : Type} (f : A -> bool) (l l' : list A) :
  Permutation l l' -> Permutation (filter f l) (filter f l').
Proof.
  induction 1 as [| a l l' H IH | a b l | l l' l'' H1 IH1 H2 IH2]; simpl.
  - apply perm_nil.
  - destruct (f a); [apply perm_skip |]; exact IH.
  - destruct (f a), (f b); try apply Permutation_refl. apply perm_swap.
  - apply perm_trans with (filter f l'); assumption.
Qed.

Lemma defined_permutation {A : Type} (l l' : list (option A)) :
  Permutation l l' -> Permutation (defined l) (defined l').
Proof.
  induction 1 as [| a l l' H IH | a b l | l l' l'' H1 IH1 H2 IH2]; simpl.
  - apply perm_nil.
  - destruct a; [apply perm_skip |]; exact IH.
  - destruct a, b; try apply Permutation_refl. apply perm_swap.
  - apply perm_trans with (defined l'); assumption.
Qed.

Lemma defined_in {A : Type} (l : list (option A)) (a : A) :
  In a (defined l) -> In (Some a) l.
Proof.
  induction l as [| o rest IH]; simpl; [intros [] |].
  destruct o as [b |]; simpl.
  - intros [H | H]; [left; f_equal; exact H | right; apply IH; exact H].
  - intros H. right. apply IH. exact H.
Qed.

Lemma sourceNodes_in (ns : list Node) (conns : list Connection)
    (nodeId : string) (n : Node) :
  In n (sourceNodes ns conns nodeId) -> In n ns.
Proof.
  unfold sourceNodes. intros H.
  apply (Permutation_in _ (Permutation_sym (sort_permutation _ _))) in H.
  apply defined_in in H. apply in_map_iff in H.
  destruct H as [conn [Hfind _]]. apply find_some in Hfind. apply Hfind.
Qed.

Lemma in_defined {A : Type} (l : list (option A)) (a : A) :
  In (Some a) l -> In a (defined l).
Proof.
  induction l as [| o rest IH]; simpl; [intros [] |].
  intros [H | H].
  - subst o. left. reflexivity.
  - destruct o; [right |]; apply IH; exact H.
Qed.

(** The source nodes are the nodes found for the incoming connections, one
    for each connection whose source is on the canvas. *)
Lemma sourceNodes_resolved (ns : list Node) (conns : list Connection)
    (nodeId : string) :
  Permutation
    (defined
       (map (fun c => JS.find (fun n => String.eqb (id n) (sourceId c)) ns)
          (filter (fun c => String.eqb (targetId c) nodeId) conns)))
    (sourceNodes ns conns nodeId).
Proof.
  unfold sourceNodes. apply sort_permutation.
Qed.

Lemma contributors_cons (env : Env) (node : Node) (rest : list Node) :
  Spec.contributors env (node :: rest)
  = match Spec.referenced env node with
    | Some _ => node :: Spec.contributors env rest
    | None => Spec.contributors env rest
    end.
Proof.
  unfold Spec.contributors. simpl.
  destruct (Spec.referenced env node); reflexivity.
Qed.

(** One turn of the loop: a source node that contributes pushes its image
    and its note, numbered by the index of the node among the sources. *)
Lemma collectReferences_step (env : Env) (node : Node) (rest : list Node)
    (i : Z) (refs notes : list string) :
  collectReferences env (node :: rest) i refs notes
  = match Spec.referenced env node with
    | Some r =>
        let* img := r in
        collectReferences env rest (i + 1) (refs ++ [img])
          (notes ++ [noteText (i + 1) (displayId (data node))
                       (hasAnnotations node)])
    | None => collectReferences env rest (i + 1) refs notes
    end.
Proof.
  simpl. unfold Spec.referenced.
  destruct (imageData node) as [img |]; [| reflexivity].
  destruct (JS.truthy_string img); [| reflexivity].
  destruct (hasAnnotations node); reflexivity.
Qed.

(** The images pushed by the loop are those of the contributing source
    nodes, in the order of the source nodes. *)
Lemma collectReferences_contributors (env : Env) (sources : list Node) :
  forall i refs notes refs' notes',
    collectReferences env sources i refs notes = Ok (refs', notes') ->
    exists imgs,
      refs' = (refs ++ imgs)%list
      /\ Forall2 (fun n img => Spec.referenced env n = Some (Ok img))
           (Spec.contributors env sources) imgs.
Proof.
  induction sources as [| node rest IH]; intros i refs notes refs' notes' H.
  - inversion H. exists []. rewrite app_nil_r. split; constructor.
  - rewrite collectReferences_step in H. rewrite contributors_cons.
    destruct (Spec.referenced env node) as [[img | m] |] eqn:Href;
      simpl in H; [| discriminate H | apply (IH _ _ _ _ _ H)].
    destruct (IH _ _ _ _ _ H) as [imgs [Hrefs Himgs]].
    exists (img :: imgs). split.
    + rewrite Hrefs, <- app_assoc. reflexivity.
    + constructor; [exact Href | exact Himgs].
Qed.

Lemma buildRequest_referenceImages (env : Env) (targetNode : Node)
    (compiledPrompt : string) (sources : list Node)
    (options : GenerateImageOptions) (settings : SystemSettings) :
  buildRequest env targetNode compiledPrompt sources
  = Ok (options, settings) ->
  Forall2 (fun n img => Spec.referenced env n = Some (Ok img))
    (Spec.contributors env sources)
    (JS.or_else (opt_referenceImages options) []).
Proof.
  unfold buildRequest, bind. intros H.
  destruct (collectReferences env sources 0 [] []) as [[refs notes] | m]
    eqn:Hcollect; [| discriminate H].
  destruct (user env); [| discriminate H].
  inversion H. simpl.
  destruct (collectReferences_contributors _ _ _ _ _ _ _ Hcollect)
    as [imgs [Hrefs Himgs]].
  simpl in Hrefs. subst refs.
  destruct imgs; simpl; exact Himgs.
Qed.

(** C6. The source nodes of a generator are exactly the nodes found for the
    sources of its incoming connections, one for each such connection whose
    source is on the canvas, and they are in ascending order of
    [displayId]. So are the nodes whose images make up the list of
    reference images of the request, image by image. The order in which the
    connections were created plays no part: with display numbers that tell
    the nodes apart, any other order of the same connections resolves to the
    same list. *)
Theorem sources_sorted_by_displayId (ns : list Node)
    (conns : list Connection) (nodeId : string) :
  (forall n,
      In n (sourceNodes ns conns nodeId)
      <-> exists c,
            In c conns /\ targetId c = nodeId
            /\ JS.find (fun m => String.eqb (id m) (sourceId c)) ns
               = Some n)
  /\ Permutation
       (defined
          (map (fun c =>
                  JS.find (fun m => String.eqb (id m) (sourceId c)) ns)
             (filter (fun c => String.eqb (targetId c) nodeId) conns)))
       (sourceNodes ns conns nodeId)
  /\ StronglySorted Z.le
       (map (fun n => displayId (data n)) (sourceNodes ns conns nodeId))
  /\ (forall env targetNode compiledPrompt options settings,
        buildRequest env targetNode compiledPrompt
          (sourceNodes ns conns nodeId) = Ok (options, settings) ->
        StronglySorted Z.le
          (map (fun n => displayId (data n))
             (Spec.contributors env (sourceNodes ns conns nodeId)))
        /\ Forall2 (fun n img => Spec.referenced env n = Some (Ok img))
             (Spec.contributors env (sourceNodes ns conns nodeId))
             (JS.or_else (opt_referenceImages options) []))
  /\ (forall conns',
        Permutation conns conns' ->
        (forall a b, In a ns -> In b ns ->
                     displayId (data a) = displayId (data b) -> a = b) ->
        sourceNodes ns conns' nodeId = sourceNodes ns conns nodeId).
Proof.
  split; [| split; [| split; [| split]]].
  - intros n. split.
    + intros H.
      apply (Permutation_in _
               (Permutation_sym (sourceNodes_resolved ns conns nodeId)))
        in H.
      apply defined_in in H. apply in_map_iff in H.
      destruct H as [c [Hfind Hc]]. apply filter_In in Hc.
      destruct Hc as [Hc Htarget]. apply String.eqb_eq in Htarget.
      exists c. auto.
    + intros [c [Hc [Htarget Hfind]]].
      apply (Permutation_in _ (sourceNodes_resolved ns conns nodeId)).
      apply in_defined. apply in_map_iff. exists c. split; [exact Hfind |].
      apply filter_In. split; [exact Hc |].
      apply String.eqb_eq. exact Htarget.
  - apply sourceNodes_resolved.
  - apply sorted_keys. apply sort_sorted.
  - intros env targetNode compiledPrompt options settings H. split.
    + apply sorted_keys. apply sorted_filter. apply sort_sorted.
    + apply (buildRequest_referenceImages _ _ _ _ _ _ H).
  - intros conns' Hperm Hinj. symmetry.
    apply (sorted_permutation_unique (fun n => displayId (data n)));
      try apply sort_sorted.
    + unfold sourceNodes.
      eapply perm_trans;
        [apply Permutation_sym, sort_permutation |].
      eapply perm_trans; [| apply sort_permutation].
      apply defined_permutation, Permutation_map, filter_permutation.
      exact Hperm.
    + intros a b Ha Hb. apply Hinj; eapply sourceNodes_in; eassumption.
Qed.

End Sources.

(** ** The correspondence notes *)

Section Notes.

(** When every source node contributes an image, the note of the [k]-th
    source node names the position [k + 1] and its image is the [k]-th of
    the images pushed: notes and images agree. *)
Lemma notes_agree_when_no_source_is_skipped (env : Env)
    (sources : list Node) :
  Forall (fun n => Spec.referenced env n <> None) sources ->
  forall i refs notes refs' notes',
    collectReferences env sources i refs notes = Ok (refs', notes') ->
    exists imgs texts,
      refs' = (refs ++ imgs)%list
      /\ notes' = (notes ++ texts)%list
      /\ forall (k : nat) (n : Node),
           nth_error sources k = Some n ->
           nth_error texts k
           = Some (noteText (i + Z.of_nat k + 1) (displayId (data n))
                     (hasAnnotations n))
           /\ exists img,
                nth_error imgs k = Some img
                /\ Spec.referenced env n = Some (Ok img).
Proof.
  induction 1 as [| node rest Hnode Hrest IH];
    intros i refs notes refs' notes' H.
  - inversion H. exists [], []. rewrite !app_nil_r.
    repeat split; try reflexivity; destruct k; discriminate.
  - rewrite collectReferences_step in H.
    destruct (Spec.referenced env node) as [[img | m] |] eqn:Href;
      simpl in H; [| discriminate H | contradiction Hnode; reflexivity].
    destruct (IH _ _ _ _ _ H) as [imgs [texts [Hrefs [Hnotes Hk]]]].
    exists (img :: imgs),
      (noteText (i + 1) (displayId (data node)) (hasAnnotations node)
       :: texts).
    split; [rewrite Hrefs, <- app_assoc; reflexivity |].
    split; [rewrite Hnotes, <- app_assoc; reflexivity |].
    intros [| k] n Hn; simpl in Hn.
    + inversion Hn; subst n. simpl. split; [| eauto].
      do 2 f_equal. simpl. lia.
    + destruct (Hk k n Hn) as [Htext Himg]. simpl. split; [| exact Himg].
      rewrite Htext. do 2 f_equal. lia.
Qed.

(** C1, where the code departs from it. A generator is fed by image node 1,
    which has no image, and by image node 2, which has one. The request
    carries one reference image, the image of node 2, while the note
    appended to the prompt calls it the second image: the note is numbered
    by the index of the node among the source nodes, not by the position
    of its image in the list, so there is no image at the position the
    note names. *)
Theorem note_numbered_by_source_index_not_image_position :
  exists options settings,
    requestOf Sample.env Sample.skippingNodes Sample.skippingConnections
      "node-9" = Some (options, settings)
    /\ opt_referenceImages options = Some [Sample.image2]
    /\ opt_prompt options
       = "enhance" ++ newline ++ newline ++ "(图片引用说明: "
         ++ noteText 2 2 false
         ++ "。请根据此对应关系及图片上的数字标记处理提示词。)"
    /\ noteText 2 2 false = "第 2 张图片对应 [图2]"
    /\ JS.get [Sample.image2] (2 - 1) = None
    /\ JS.get [Sample.image2] (1 - 1) = Some Sample.image2.
Proof.
  eexists. eexists. split; [vm_compute; reflexivity |].
  repeat split; reflexivity.
Qed.

End Notes.

(** ** The properties on the sample canvases *)

Section Instances.

Local Open Scope Q_scope.

(** The world point (100, 50), drawn at scale 2 with offset (30, -20) on
    the sample canvas, is read back from the screen. *)
Lemma screenToWorld_inverts_rendering_witness :
  x (screenToWorld (Sample.canvas [] [])
       (x (worldToScreen (Sample.canvas [] []) Sample.rect
             (mkPosition 100 50)))
       (y (worldToScreen (Sample.canvas [] []) Sample.rect
             (mkPosition 100 50)))) == 100
  /\ y (screenToWorld (Sample.canvas [] [])
          (x (worldToScreen (Sample.canvas [] []) Sample.rect
                (mkPosition 100 50)))
          (y (worldToScreen (Sample.canvas [] []) Sample.rect
                (mkPosition 100 50)))) == 50.
Proof.
  apply (screenToWorld_inverts_rendering (Sample.canvas [] []) Sample.rect
           (mkPosition 100 50)).
  - reflexivity.
  - split; unfold Qle; simpl; lia.
Defined.

(** A wheel delta of 500 at scale 2 gives scale 3/2, and the world point
    under the cursor at (130, 100) moves. *)
Lemma handleWheel_changes_scale_only_witness :
  ~ x (screenToWorld (handleWheel (Sample.canvas [] []) (mkWheelEvent 500))
         130 100)
    == x (screenToWorld (Sample.canvas [] []) 130 100).
Proof.
  assert (H := handleWheel_changes_scale_only (Sample.canvas [] [])
                 (mkWheelEvent 500)).
  repeat (destruct H as [_ H]).
  apply (H Sample.rect 130 100).
  - reflexivity.
  - unfold Qle; simpl; lia.
  - intros Hc. vm_compute in Hc. discriminate Hc.
  - intros Hc. vm_compute in Hc. discriminate Hc.
Defined.

(** The generator at (400, 0), grabbed at (100, 100) and moved to
    (140, 160) at scale 2, ends 20 to the right and 30 below. *)
Lemma drag_moves_node_by_scaled_delta_witness :
  exists n',
    nth_error
      (nodes (handleMouseMove
                (handleNodeMouseDown
                   (Sample.canvas [Sample.source1; Sample.generator] [])
                   (mkMouseEvent 100 100) "node-9")
                (mkMouseEvent 140 160))) 1 = Some n'
    /\ x (position n') - 400 == 20
    /\ y (position n') - 0 == 30.
Proof.
  destruct (drag_moves_node_by_scaled_delta
              (handleNodeMouseDown
                 (Sample.canvas [Sample.source1; Sample.generator] [])
                 (mkMouseEvent 100 100) "node-9")
              (mkMouseEvent 140 160) "node-9" (mkPosition 400 0))
    as [Hmoved _].
  - reflexivity.
  - reflexivity.
  - reflexivity.
  - discriminate.
  - reflexivity.
  - reflexivity.
  - destruct (Hmoved 1%nat Sample.generator eq_refl) as [n' [Hn' [Hpos _]]].
    destruct (Hpos eq_refl) as [_ [_ [Hx [Hy _]]]].
    exists n'. split; [exact Hn' |].
    split; [rewrite Hx | rewrite Hy]; reflexivity.
Defined.

Local Open Scope Z_scope.

(** Two calls on the generator: the first answers [resultA] after the
    second has answered [resultB]; the node shows [resultA]. *)
Lemma last_settled_call_wins_witness :
  reflects (Ok [Sample.resultA])
    (data (hd Sample.generator
             (runEvents [Sample.generator]
                ([Started 1 "node-9"; Started 2 "node-9";
                  Settled 2 "node-9" (Ok [Sample.resultB])]
                 ++ [Settled 1 "node-9" (Ok [Sample.resultA])])))).
Proof.
  destruct (last_settled_call_wins [Sample.generator] "node-9")
    as [Hlast _].
  apply (Hlast [Started 1 "node-9"; Started 2 "node-9";
                Settled 2 "node-9" (Ok [Sample.resultB])] 1%nat).
  - simpl. left. reflexivity.
  - reflexivity.
Defined.

(** C2 as worded fails: in that schedule the result of the call started
    later is not the one shown. *)
Lemma stale_response_overwrites_newer_call : ~ Worded.later_call_wins.
Proof.
  intros H.
  specialize (H [Sample.generator] "node-9"
                (Ok [Sample.resultA]) (Ok [Sample.resultB])
                [Started 1 "node-9"; Started 2 "node-9";
                 Settled 2 "node-9" (Ok [Sample.resultB]);
                 Settled 1 "node-9" (Ok [Sample.resultA])]
                (Sample.withData Sample.generator
                   (successPatch [Sample.resultA]))).
  assert (Hlater : reflects (Ok [Sample.resultB])
                     (data (Sample.withData Sample.generator
                              (successPatch [Sample.resultA])))).
  { apply H.
    - simpl. right. right. left. reflexivity.
    - simpl. left. reflexivity.
    - reflexivity. }
  destruct Hlater as [_ [Himgs _]]. discriminate Himgs.
Qed.



(** Two images asked for, the second request rejected: the generator ends
    in error with no image. *)
Lemma rejected_request_fails_whole_trigger_witness :
  exists n',
    nth_error
      (handleTriggerGeneration Sample.envSecondFails
         [Sample.source1; Sample.generatorOfTwo]
         [Sample.connect "c-1" Sample.source1 Sample.generatorOfTwo]
         "node-9") 1 = Some n'
    /\ status (data n') = Some error
    /\ generatedImages (data n') = None
    /\ generatedImage (data n') = None
    /\ numberOfImages (data n') = Some 2.
Proof.
  destruct (rejected_request_fails_whole_trigger Sample.envSecondFails
              [Sample.source1; Sample.generatorOfTwo]
              [Sample.connect "c-1" Sample.source1 Sample.generatorOfTwo]
              "node-9" Sample.generatorOfTwo "enhance" 1%nat
              eq_refl eq_refl)
    with (k := 1%nat) (n := Sample.generatorOfTwo)
    as [n' [Hn' [Hfail _]]].
  - simpl. lia.
  - intros options settings _. eexists. reflexivity.
  - reflexivity.
  - destruct (Hfail eq_refl)
      as [Hstatus [Himgs [Himg [_ [_ [_ [Hcount _]]]]]]].
    exists n'. rewrite Hcount. auto.
Defined.

(** The layers A, B (enabled) and C (disabled): no layer of white space
    only, the compiled prompt is the one worded. *)
Lemma compiled_prompt_joins_trimmed_nonempty_layers_witness :
  compilePrompt Sample.abcGenerator
  = Spec.compiled Spec.qualifies_as_worded (data Sample.abcGenerator).
Proof.
  destruct (compiled_prompt_joins_trimmed_nonempty_layers
              Sample.abcGenerator) as [_ [_ H]].
  apply H. intros l Hin Henabled Htrim. simpl in Hin.
  destruct Hin as [Hl | [Hl | [Hl | []]]]; subst l;
    vm_compute in Htrim; discriminate Htrim.
Defined.

(** C5 as worded fails: an enabled layer holding one space is left out of
    the compiled prompt. *)
Lemma blank_layer_is_left_out : ~ Worded.compiles_nonempty_layers.
Proof.
  intros H. specialize (H Sample.blankGenerator).
  vm_compute in H. discriminate H.
Qed.

(** The connections created in the order 3, 1, 2 or 1, 3, 2 resolve to
    the same source nodes, and the first of the image nodes is among
    them. *)
Lemma sources_sorted_by_displayId_witness :
  sourceNodes Sample.threeSources Sample.connections132 "node-9"
  = sourceNodes Sample.threeSources Sample.connections312 "node-9"
  /\ In Sample.source1
       (sourceNodes Sample.threeSources Sample.connections312 "node-9").
Proof.
  destruct (sources_sorted_by_displayId Sample.threeSources
              Sample.connections312 "node-9") as [Hin [_ [_ [_ H]]]].
  split.
  - apply H.
    + apply perm_swap.
    + intros a b Ha Hb. simpl in Ha, Hb.
      destruct Ha as [Ha | [Ha | [Ha | [Ha | []]]]];
        destruct Hb as [Hb | [Hb | [Hb | [Hb | []]]]];
        subst a b; intros E; try reflexivity; vm_compute in E;
        discriminate E.
  - apply Hin.
    exists (Sample.connect "c-1" Sample.source1 Sample.generator).
    split; [right; left; reflexivity |].
    split; reflexivity.
Defined.

End Instances.

(** * Further properties of the code *)

(** ** What the canvas keeps, whatever is done to it *)

Ltac break_match :=
  match goal with
  | |- context [match ?scrutinee with _ => _ end] => destruct scrutinee eqn:?
  end.

Section CanvasInvariants.

Local Open Scope Q_scope.

Variables NODE_WIDTH_UPLOAD NODE_WIDTH_GEN : Q.

Let step := act NODE_WIDTH_UPLOAD NODE_WIDTH_GEN.

Lemma act_keeps_scale (c : Canvas) (a : Action) :
  match a with
  | ZoomIn | ZoomOut | ResetZoom | Wheel _ => True
  | _ => scale (view (step c a)) = scale (view c)
  end.
Proof.
  destruct a; try exact I; subst step; simpl;
    unfold deleteNode, deleteConnection, handleKeyDown, handleMouseDown,
      handleNodeMouseDown, handleStartConnection, handleMouseMove,
      handleMouseUp, handleLabelClick, handleAnnotationClick, insertLabel;
    repeat break_match; reflexivity.
Qed.

Lemma act_scaleInRange (c : Canvas) (a : Action) :
  scaleInRange (view c) -> scaleInRange (view (step c a)).
Proof.
  unfold scaleInRange. intros [Hlo Hhi].
  pose proof (act_keeps_scale c a) as Hkeep.
  destruct a; try (rewrite Hkeep; split; assumption); subst step; simpl.
  - split; [| apply Q.le_min_r].
    apply Q.min_glb; [| unfold Qle; simpl; lia].
    apply Qle_trans with (scale (view c)); [exact Hlo |].
    rewrite <- (Qplus_0_r (scale (view c))) at 1.
    apply Qplus_le_r. unfold Qle; simpl; lia.
  - split; [apply Q.le_max_r |].
    apply Q.max_lub; [| unfold Qle; simpl; lia].
    apply Qle_trans with (scale (view c)); [| exact Hhi].
    rewrite <- (Qplus_0_r (scale (view c))) at 2.
    apply Qplus_le_r. unfold Qle; simpl; lia.
  - split; unfold Qle; simpl; lia.
  - apply clamp_bounds.
Qed.

(** Whatever the user does (zoom buttons, wheel, or anything else), the
    scale of the view stays within [0.1, 3]. *)
Theorem scale_stays_in_range (rect : option DOMRect)
    (actions : list Action) :
  1 # 10
  <= scale (view (canvasAfter NODE_WIDTH_UPLOAD NODE_WIDTH_GEN rect actions))
  <= 3.
Proof.
  unfold canvasAfter.
  assert (Hinit : scaleInRange (view (initialCanvas rect)))
    by (split; unfold Qle; simpl; lia).
  revert Hinit. generalize (initialCanvas rect). unfold runActions.
  induction actions as [| a rest IH]; intros c Hc; simpl; [exact Hc |].
  apply IH. apply act_scaleInRange. exact Hc.
Qed.

Lemma act_oneSelection (c : Canvas) (a : Action) :
  oneSelection (view c) -> oneSelection (view (step c a)).
Proof.
  unfold oneSelection. intros H.
  destruct a; subst step; simpl;
    unfold deleteNode, deleteConnection, handleKeyDown, handleMouseDown,
      handleNodeMouseDown, handleStartConnection, handleMouseMove,
      handleMouseUp, handleLabelClick, handleAnnotationClick, insertLabel,
      set_selectedNodeId, set_selectedConnectionId;
    repeat break_match; simpl; auto;
    destruct H as [H | H]; try (left; exact H); try (right; exact H);
    congruence.
Qed.

(** A node and a connection are never selected together: every handler that
    selects one deselects the other. *)
Theorem never_node_and_connection_selected (rect : option DOMRect)
    (actions : list Action) :
  selectedNodeId
    (view (canvasAfter NODE_WIDTH_UPLOAD NODE_WIDTH_GEN rect actions)) = None
  \/ selectedConnectionId
       (view (canvasAfter NODE_WIDTH_UPLOAD NODE_WIDTH_GEN rect actions))
     = None.
Proof.
  unfold canvasAfter.
  assert (Hinit : oneSelection (view (initialCanvas rect)))
    by (left; reflexivity).
  revert Hinit. generalize (initialCanvas rect). unfold runActions.
  induction actions as [| a rest IH]; intros c Hc; simpl; [exact Hc |].
  apply IH. apply act_oneSelection. exact Hc.
Qed.

Local Open Scope Z_scope.

Lemma StronglySorted_filter {A : Type} (R : A -> A -> Prop)
    (f : A -> bool) (l : list A) :
  StronglySorted R l -> StronglySorted R (filter f l).
Proof.
  induction 1 as [| a rest Hrest IH Ha]; simpl; [constructor |].
  destruct (f a); [| exact IH].
  constructor; [exact IH |].
  apply Forall_forall. intros b Hb. apply filter_In in Hb.
  rewrite Forall_forall in Ha. apply Ha. apply Hb.
Qed.

Lemma StronglySorted_map {A : Type} (R : A -> A -> Prop) (f : A -> A)
    (l : list A) :
  (forall a b, R a b -> R (f a) (f b)) ->
  StronglySorted R l -> StronglySorted R (map f l).
Proof.
  intros Hf. induction 1 as [| a rest Hrest IH Ha]; simpl; constructor;
    [exact IH |].
  apply Forall_map. eapply Forall_impl; [| exact Ha]. intros b. apply Hf.
Qed.

Lemma StronglySorted_snoc {A : Type} (R : A -> A -> Prop) (l : list A)
    (a : A) :
  StronglySorted R l -> Forall (fun b => R b a) l ->
  StronglySorted R (l ++ [a]).
Proof.
  induction 1 as [| b rest Hrest IH Hb]; intros Hall; simpl.
  - constructor; constructor.
  - inversion Hall as [| b' rest' Hba Hrest']; subst.
    constructor; [apply IH; exact Hrest' |].
    apply Forall_app. split; [exact Hb | constructor; [exact Hba |
                                                        constructor]].
Qed.

Lemma Forall_filter {A : Type} (P : A -> Prop) (f : A -> bool)
    (l : list A) :
  Forall P l -> Forall P (filter f l).
Proof.
  intros H. apply Forall_forall. intros a Ha. apply filter_In in Ha.
  rewrite Forall_forall in H. apply H. apply Ha.
Qed.

(** The display numbers are kept when the nodes are mapped by a function
    that leaves them alone. *)
Lemma rising_map (c : Canvas) (f : Node -> Node) (st : State) :
  (forall n, displayId (data (f n)) = displayId (data n)) ->
  nodes st = map f (nodes (view c)) ->
  risingDisplayIds c -> risingDisplayIds (onView c st).
Proof.
  intros Hf Hnodes [Hsorted [Hbelow Hone]]. unfold risingDisplayIds. simpl.
  rewrite Hnodes. split; [| split; [| exact Hone]].
  - apply StronglySorted_map; [| exact Hsorted].
    intros a b. rewrite !Hf. auto.
  - apply Forall_map. eapply Forall_impl; [| exact Hbelow].
    intros n. rewrite Hf. auto.
Qed.

Lemma rising_filter (c : Canvas) (f : Node -> bool) (st : State) :
  nodes st = filter f (nodes (view c)) ->
  risingDisplayIds c -> risingDisplayIds (onView c st).
Proof.
  intros Hnodes [Hsorted [Hbelow Hone]]. unfold risingDisplayIds. simpl.
  rewrite Hnodes. split; [| split; [| exact Hone]].
  - apply StronglySorted_filter. exact Hsorted.
  - apply Forall_filter. exact Hbelow.
Qed.

Lemma rising_same (c : Canvas) (st : State) :
  nodes st = nodes (view c) ->
  risingDisplayIds c -> risingDisplayIds (onView c st).
Proof.
  intros Hnodes H. apply (rising_map c (fun n => n)); [reflexivity | | exact H].
  rewrite map_id. exact Hnodes.
Qed.

Lemma rising_update (c : Canvas) (nodeId : string) (patch : Patch) :
  keepsDisplayId patch ->
  risingDisplayIds c ->
  risingDisplayIds
    (onView c (set_nodes (view c)
                 (updateNodeData (nodes (view c)) nodeId patch))).
Proof.
  intros Hpatch.
  apply (rising_map c
           (fun n => if String.eqb (id n) nodeId
                     then set_data n (patch (data n)) else n));
    [| reflexivity].
  intros n. destruct (String.eqb (id n) nodeId); [apply Hpatch | reflexivity].
Qed.

Lemma patchOf_keepsDisplayId (node : Node) (e : NodeEvent) (patch : Patch) :
  patchOf node e = Some patch -> keepsDisplayId patch.
Proof.
  destruct e; simpl;
    unfold NodeComponent.handleImageClick, NodeComponent.handleFileChange,
      NodeComponent.handleSelectGeneratedImage;
    repeat break_match; intros H; inversion H; intros ?; reflexivity.
Qed.

Lemma layerPatchOf_keepsDisplayId (node : Node) (e : LayerEvent)
    (patch : Patch) :
  layerPatchOf node e = Some patch -> keepsDisplayId patch.
Proof.
  destruct e; simpl; unfold deleteLayer; repeat break_match;
    intros H; inversion H; intros ?; reflexivity.
Qed.

Lemma insertLabel_rising (c : Canvas) (sourceNodeId : string)
    (label : Node -> string) :
  risingDisplayIds c ->
  risingDisplayIds (onView c (insertLabel (view c) sourceNodeId label)).
Proof.
  intros H. unfold insertLabel.
  repeat break_match; try (apply rising_same; [reflexivity | exact H]).
  apply rising_update; [intros ?; reflexivity | exact H].
Qed.

Lemma act_risingDisplayIds (c : Canvas) (a : Action) :
  risingDisplayIds c -> risingDisplayIds (step c a).
Proof.
  intros H.
  destruct a; subst step; simpl;
    try (apply rising_same; [| exact H];
         unfold deleteConnection, handleKeyDown, handleMouseDown,
           handleNodeMouseDown, handleStartConnection, handleMouseUp;
         repeat break_match; reflexivity).
  - destruct H as [Hsorted [Hbelow Hone]]. unfold risingDisplayIds. simpl.
    split; [| split; [| lia]].
    + apply StronglySorted_snoc; [exact Hsorted |].
      eapply Forall_impl; [| exact Hbelow]. simpl. intros n Hn. lia.
    + apply Forall_app. split.
      * eapply Forall_impl; [| exact Hbelow]. simpl. intros n Hn. lia.
      * constructor; [simpl; lia | constructor].
  - apply (rising_filter c (fun n => negb (String.eqb (id n) nodeId)));
      [reflexivity | exact H].
  - unfold handleKeyDown, set_selectedNodeId, set_selectedConnectionId.
    repeat break_match;
      try (apply rising_same; [reflexivity | exact H]);
      match goal with
      | Hsel : selectedNodeId (view c) = Some ?s |- _ =>
          apply (rising_filter c (fun n => negb (String.eqb (id n) s)));
            [reflexivity | exact H]
      end.
  - unfold handleMouseMove. repeat break_match;
      try (apply rising_same; [reflexivity | exact H]).
    match goal with
    | |- risingDisplayIds (onView c (set_nodes _ (map ?f _))) =>
        apply (rising_map c f); [| reflexivity | exact H]
    end.
    intros n. break_match; reflexivity.
  - apply insertLabel_rising. exact H.
  - apply insertLabel_rising. exact H.
  - unfold nodeStep. repeat break_match;
      try (apply rising_same; [reflexivity | exact H]).
    apply rising_update; [| exact H].
    eapply patchOf_keepsDisplayId. eassumption.
  - unfold layerStep. repeat break_match;
      try (apply rising_same; [reflexivity | exact H]).
    apply rising_update; [| exact H].
    eapply layerPatchOf_keepsDisplayId. eassumption.
  - apply rising_update; [| exact H].
    destruct c0; intros ?; reflexivity.
  - destruct e as [call nodeId | call nodeId [imgs | m]]; simpl;
      (apply rising_update; [intros ?; reflexivity | exact H]).
Qed.

Lemma act_nodeCounter (c : Canvas) (a : Action) :
  nodeCounter (step c a)
  = nodeCounter c + (if isAddNode a then 1 else 0).
Proof.
  destruct a; subst step; simpl; lia.
Qed.

(** Display numbers are never given twice. After any actions on a new
    canvas the nodes carry display numbers that rise strictly in the order
    of the nodes, so are pairwise distinct, and that lie from 1 up to, but
    below, the counter; the counter is one more than the number of nodes
    ever added, whatever was deleted since. *)
Theorem displayIds_rise_and_are_never_reused (rect : option DOMRect)
    (actions : list Action) :
  StronglySorted Z.lt
    (map (fun n => displayId (data n))
       (nodes (view (canvasAfter NODE_WIDTH_UPLOAD NODE_WIDTH_GEN rect
                       actions))))
  /\ NoDup
       (map (fun n => displayId (data n))
          (nodes (view (canvasAfter NODE_WIDTH_UPLOAD NODE_WIDTH_GEN rect
                          actions))))
  /\ Forall
       (fun n =>
          1 <= displayId (data n)
          < nodeCounter (canvasAfter NODE_WIDTH_UPLOAD NODE_WIDTH_GEN rect
                           actions))
       (nodes (view (canvasAfter NODE_WIDTH_UPLOAD NODE_WIDTH_GEN rect
                       actions)))
  /\ nodeCounter (canvasAfter NODE_WIDTH_UPLOAD NODE_WIDTH_GEN rect actions)
     = 1 + Z.of_nat (List.length (filter isAddNode actions)).
Proof.
  change (canvasAfter NODE_WIDTH_UPLOAD NODE_WIDTH_GEN rect actions)
    with (fold_left step actions (initialCanvas rect)).
  assert (Hgen : forall c,
             risingDisplayIds c ->
             risingDisplayIds (fold_left step actions c)
             /\ nodeCounter (fold_left step actions c)
                = nodeCounter c
                  + Z.of_nat (List.length (filter isAddNode actions))).
  { induction actions as [| a rest IH]; intros c Hc; simpl.
    - split; [exact Hc | lia].
    - destruct (IH (step c a) (act_risingDisplayIds c a Hc)) as [Hr Hn].
      split; [exact Hr |]. rewrite Hn, act_nodeCounter.
      destruct (isAddNode a); simpl List.length; lia. }
  destruct (Hgen (initialCanvas rect)) as [[Hsorted [Hbelow _]] Hcount].
  { repeat split; simpl; try constructor; lia. }
  assert (Hkeys : StronglySorted Z.lt
                    (map (fun n => displayId (data n))
                       (nodes (view (fold_left step actions
                                       (initialCanvas rect)))))).
  { clear - Hsorted.
    induction Hsorted as [| n rest Hrest IH Hn]; simpl; constructor;
      [exact IH | apply Forall_map; exact Hn]. }
  split; [exact Hkeys |]. split; [| split; [exact Hbelow | exact Hcount]].
  clear - Hkeys.
  induction Hkeys as [| k rest Hrest IH Hk]; constructor; [| exact IH].
  intros Hin. rewrite Forall_forall in Hk. specialize (Hk _ Hin). lia.
Qed.

(** Keys that are distinct stay distinct among the items kept. *)
Lemma NoDup_map_filter {Item Key : Type} (key : Item -> Key)
    (keep : Item -> bool) (items : list Item)
    (Hdistinct : NoDup (map key items)) :
  NoDup (map key (filter keep items)).
Proof.
  induction items as [| item rest IH]; simpl in *; [exact Hdistinct |].
  inversion Hdistinct as [| k ks Hfresh Hrest]; subst.
  destruct (keep item); simpl; [| exact (IH Hrest)].
  constructor; [| exact (IH Hrest)].
  intros Hin. apply Hfresh. apply in_map_iff in Hin.
  destruct Hin as [other [Hkey Hother]]. apply filter_In in Hother.
  apply in_map_iff. exists other. split; [exact Hkey | apply Hother].
Qed.

Lemma distinctEnds_filter (p : Connection -> bool) (cs : list Connection) :
  distinctEnds cs -> distinctEnds (filter p cs).
Proof.
  intros [Hnodup Hself]. split;
    [apply NoDup_map_filter; exact Hnodup | apply Forall_filter; exact Hself].
Qed.

Lemma distinctEnds_snoc (cs : list Connection) (uuid start target : string) :
  distinctEnds cs ->
  String.eqb target start = false ->
  existsb (fun c => String.eqb (sourceId c) start
                    && String.eqb (targetId c) target) cs = false ->
  distinctEnds (cs ++ [mkConnection uuid start target]).
Proof.
  intros [Hnodup Hself] Hneq Hnew. split.
  - rewrite map_app. simpl.
    apply NoDup_app; [exact Hnodup | repeat constructor; intros [] |].
    intros e Hin [He | []]. subst e.
    apply in_map_iff in Hin. destruct Hin as [c [Hends Hin]].
    assert (Hex : existsb (fun c => String.eqb (sourceId c) start
                                    && String.eqb (targetId c) target) cs
                  = true).
    { apply existsb_exists. exists c. split; [exact Hin |].
      unfold ends in Hends. inversion Hends. simpl.
      rewrite !String.eqb_refl. reflexivity. }
    rewrite Hnew in Hex. discriminate Hex.
  - apply Forall_app. split; [exact Hself |].
    constructor; [| constructor]. simpl. intros Heq.
    apply String.eqb_neq in Hneq. apply Hneq. symmetry. exact Heq.
Qed.

Lemma act_distinctEnds (c : Canvas) (a : Action) :
  distinctEnds (connections (view c)) ->
  distinctEnds (connections (view (step c a))).
Proof.
  intros H.
  destruct a; subst step; simpl;
    try (unfold handleMouseDown, handleNodeMouseDown, handleStartConnection,
           handleMouseMove, handleLabelClick, handleAnnotationClick,
           insertLabel;
         repeat break_match; exact H).
  - apply distinctEnds_filter. exact H.
  - apply distinctEnds_filter. exact H.
  - unfold handleKeyDown, set_selectedNodeId, set_selectedConnectionId.
    repeat break_match; simpl; try exact H;
      repeat apply distinctEnds_filter; exact H.
  - unfold handleMouseUp. repeat break_match; simpl; try exact H.
    match goal with
    | Hc : (negb (String.eqb _ _) && _)%bool = true |- _ =>
        apply andb_prop in Hc; destruct Hc as [Hc _];
        apply negb_true_iff in Hc
    end.
    apply distinctEnds_snoc; assumption.
Qed.

(** Connections stay simple. After any actions on a new canvas no two
    connections join the same source to the same target, and no connection
    joins a node to itself: a drop that would make either is ignored. *)
Theorem connections_never_duplicate_or_loop (rect : option DOMRect)
    (actions : list Action) :
  NoDup
    (map ends
       (connections
          (view (canvasAfter NODE_WIDTH_UPLOAD NODE_WIDTH_GEN rect actions))))
  /\ Forall (fun c => sourceId c <> targetId c)
       (connections
          (view (canvasAfter NODE_WIDTH_UPLOAD NODE_WIDTH_GEN rect actions))).
Proof.
  change (canvasAfter NODE_WIDTH_UPLOAD NODE_WIDTH_GEN rect actions)
    with (fold_left step actions (initialCanvas rect)).
  assert (Hinit : distinctEnds (connections (view (initialCanvas rect))))
    by (split; constructor).
  revert Hinit. generalize (initialCanvas rect).
  induction actions as [| a rest IH]; intros c Hc; simpl; [exact Hc |].
  apply IH. apply act_distinctEnds. exact Hc.
Qed.

End CanvasInvariants.

(** ** Dragging *)

Section Dragging.

Local Open Scope Q_scope.

Lemma pan_step (st : State) (e : MouseEvent) :
  isDragging (dragState st) = true ->
  mode (dragState st) = CANVAS ->
  isDragging (dragState (handleMouseMove st e)) = true
  /\ mode (dragState (handleMouseMove st e)) = CANVAS
  /\ startPos (dragState (handleMouseMove st e))
     = mkPosition (clientX e) (clientY e)
  /\ x (offset (handleMouseMove st e))
     = x (offset st) + (clientX e - x (startPos (dragState st)))
  /\ y (offset (handleMouseMove st e))
     = y (offset st) + (clientY e - y (startPos (dragState st)))
  /\ nodes (handleMouseMove st e) = nodes st
  /\ connections (handleMouseMove st e) = connections st
  /\ scale (handleMouseMove st e) = scale st.
Proof.
  intros Hdrag Hmode. unfold handleMouseMove. cbv zeta.
  rewrite Hdrag, Hmode. simpl. repeat split; reflexivity.
Qed.

Lemma pan_moves (moves : list MouseEvent) :
  forall st,
    isDragging (dragState st) = true ->
    mode (dragState st) = CANVAS ->
    x (offset (panMoves st moves))
    - x (startPos (dragState (panMoves st moves)))
    == x (offset st) - x (startPos (dragState st))
    /\ y (offset (panMoves st moves))
       - y (startPos (dragState (panMoves st moves)))
       == y (offset st) - y (startPos (dragState st))
    /\ startPos (dragState (panMoves st moves))
       = match moves with
         | [] => startPos (dragState st)
         | _ => mkPosition (clientX (last moves (mkMouseEvent 0 0)))
                           (clientY (last moves (mkMouseEvent 0 0)))
         end
    /\ nodes (panMoves st moves) = nodes st
    /\ connections (panMoves st moves) = connections st
    /\ scale (panMoves st moves) = scale st.
Proof.
  unfold panMoves.
  induction moves as [| e rest IH]; intros st Hdrag Hmode.
  - simpl. repeat split; reflexivity.
  - destruct (pan_step st e Hdrag Hmode)
      as [Hdrag' [Hmode' [Hstart [Hx [Hy [Hnodes [Hconns Hscale]]]]]]].
    destruct (IH (handleMouseMove st e) Hdrag' Hmode')
      as [IHx [IHy [IHstart [IHnodes [IHconns IHscale]]]]].
    simpl fold_left.
    split; [rewrite IHx, Hx, Hstart; simpl; ring |].
    split; [rewrite IHy, Hy, Hstart; simpl; ring |].
    split.
    + rewrite IHstart. destruct rest as [| e' rest']; [exact Hstart |].
      reflexivity.
    + rewrite IHnodes, IHconns, IHscale, Hnodes, Hconns, Hscale.
      repeat split; reflexivity.
Qed.

(** Panning follows the cursor without drift. After a press on the canvas
    background at [e0] and any mouse moves, the pan offset has changed by
    exactly the vector from [e0] to the last cursor position, whatever path
    the cursor took; the nodes, the connections and the scale are
    untouched. *)
Theorem pan_offset_is_path_independent (st : State) (e0 : MouseEvent)
    (moves : list MouseEvent) :
  x (offset (panMoves (handleMouseDown st 0 e0) moves))
  == x (offset st) + (clientX (last moves e0) - clientX e0)
  /\ y (offset (panMoves (handleMouseDown st 0 e0) moves))
     == y (offset st) + (clientY (last moves e0) - clientY e0)
  /\ nodes (panMoves (handleMouseDown st 0 e0) moves) = nodes st
  /\ connections (panMoves (handleMouseDown st 0 e0) moves) = connections st
  /\ scale (panMoves (handleMouseDown st 0 e0) moves) = scale st.
Proof.
  destruct (pan_moves moves (handleMouseDown st 0 e0) eq_refl eq_refl)
    as [Hx [Hy [Hstart [Hnodes [Hconns Hscale]]]]].
  simpl in Hx, Hy.
  assert (Hlast : startPos (dragState
                              (panMoves (handleMouseDown st 0 e0) moves))
                  = mkPosition (clientX (last moves e0))
                               (clientY (last moves e0))).
  { rewrite Hstart. destruct moves as [| e rest]; [reflexivity |].
    assert (Hd : forall d d', last (e :: rest) d = last (e :: rest) d').
    { clear. revert e. induction rest as [| e' rest IH]; intros e d d';
        [reflexivity |]. apply (IH e'). }
    rewrite (Hd e0 (mkMouseEvent 0 0)). reflexivity. }
  rewrite Hlast in Hx, Hy. simpl in Hx, Hy.
  split; [| split; [| split; [exact Hnodes | split; [exact Hconns |
                                                     exact Hscale]]]].
  - rewrite <- (Qplus_inj_r _ _ (- clientX (last moves e0))).
    rewrite Hx. ring.
  - rewrite <- (Qplus_inj_r _ _ (- clientY (last moves e0))).
    rewrite Hy. ring.
Qed.

Lemma node_drag_step (st : State) (e : MouseEvent) (dragged : string)
    (p0 : Position) :
  isDragging (dragState st) = true ->
  mode (dragState st) = NODE ->
  draggedNodeId (dragState st) = Some dragged ->
  JS.truthy_string dragged = true ->
  nodeStartPos (dragState st) = Some p0 ->
  handleMouseMove st e
  = set_nodes st (map (placeNode dragged (draggedTo st p0 e)) (nodes st)).
Proof.
  intros Hdrag Hmode Hid Htruthy Hstart. unfold handleMouseMove. cbv zeta.
  rewrite Hdrag, Hmode, Hid, Hstart, Htruthy. reflexivity.
Qed.

Lemma placeNode_twice (nodeId : string) (p q : Position) (n : Node) :
  placeNode nodeId q (placeNode nodeId p n) = placeNode nodeId q n.
Proof.
  unfold placeNode. destruct (String.eqb (id n) nodeId) eqn:E; simpl;
    rewrite E; reflexivity.
Qed.

Lemma node_drag_moves (dragged : string) (p0 : Position) (e1 : MouseEvent)
    (moves : list MouseEvent) :
  forall st,
    isDragging (dragState st) = true ->
    mode (dragState st) = NODE ->
    draggedNodeId (dragState st) = Some dragged ->
    JS.truthy_string dragged = true ->
    nodeStartPos (dragState st) = Some p0 ->
    fold_left handleMouseMove (moves ++ [e1]) st
    = set_nodes st (map (placeNode dragged (draggedTo st p0 e1)) (nodes st)).
Proof.
  induction moves as [| m rest IH];
    intros st Hdrag Hmode Hid Htruthy Hstart; simpl.
  - apply node_drag_step; assumption.
  - rewrite (node_drag_step st m dragged p0) by assumption.
    rewrite IH by assumption. unfold set_nodes. simpl.
    rewrite map_map. f_equal. apply map_ext. intros n.
    apply placeNode_twice.
Qed.

(** A node drag depends on the last cursor position only. After a press on
    a node at [e0] and mouse moves ending at [e1], every node with the
    pressed id is at its position at the press plus the vector from [e0] to
    [e1] divided by the scale, whatever the moves in between, and all the
    other nodes are where they were; the node pressed is the selected one,
    no connection is selected, and the pan offset and the scale are as
    before. *)
Theorem node_drag_is_path_independent (st : State) (e0 e1 : MouseEvent)
    (nodeId : string) (node : Node) (moves : list MouseEvent) :
  JS.find (fun n => String.eqb (id n) nodeId) (nodes st) = Some node ->
  nodeId <> EmptyString ->
  nodes (fold_left handleMouseMove (moves ++ [e1])
           (handleNodeMouseDown st e0 nodeId))
  = map (placeNode nodeId
           (mkPosition
              (x (position node) + (clientX e1 - clientX e0) / scale st)
              (y (position node) + (clientY e1 - clientY e0) / scale st)))
        (nodes st)
  /\ selectedNodeId (fold_left handleMouseMove (moves ++ [e1])
                       (handleNodeMouseDown st e0 nodeId)) = Some nodeId
  /\ selectedConnectionId (fold_left handleMouseMove (moves ++ [e1])
                             (handleNodeMouseDown st e0 nodeId)) = None
  /\ offset (fold_left handleMouseMove (moves ++ [e1])
               (handleNodeMouseDown st e0 nodeId)) = offset st
  /\ scale (fold_left handleMouseMove (moves ++ [e1])
              (handleNodeMouseDown st e0 nodeId)) = scale st
  /\ connections (fold_left handleMouseMove (moves ++ [e1])
                    (handleNodeMouseDown st e0 nodeId)) = connections st.
Proof.
  intros Hfind Hne.
  assert (Htruthy : JS.truthy_string nodeId = true).
  { destruct nodeId; [contradiction Hne; reflexivity | reflexivity]. }
  assert (Hdown : handleNodeMouseDown st e0 nodeId
                  = set_dragState (set_selection st (Some nodeId) None)
                      (mkDragState true NODE
                         (mkPosition (clientX e0) (clientY e0))
                         (Some (mkPosition (x (position node))
                                           (y (position node))))
                         (Some nodeId) None None)).
  { unfold handleNodeMouseDown. rewrite Hfind. reflexivity. }
  rewrite Hdown.
  rewrite (node_drag_moves nodeId
             (mkPosition (x (position node)) (y (position node))) e1 moves)
    by (reflexivity || exact Htruthy).
  repeat split; reflexivity.
Qed.

End Dragging.

(** ** Connections *)

Section Connecting.

Local Open Scope Q_scope.

(** A release of the mouse ends every drag and connects at most once. After
    [handleMouseUp] the drag state is the idle one, so that further mouse
    moves change nothing, and nodes, view and selection are as before. The
    connections are as before too, unless a connection drag from [start] is
    released over a first node under the cursor that is a generator other
    than [start] to which [start] is not yet connected: then exactly the
    connection from [start] to that node is appended. *)
Theorem mouse_up_ends_drag_and_connects_at_most_once (st : State)
    (e : MouseEvent) (uuid : string) :
  dragState (handleMouseUp st e uuid) = idleDragState
  /\ nodes (handleMouseUp st e uuid) = nodes st
  /\ scale (handleMouseUp st e uuid) = scale st
  /\ offset (handleMouseUp st e uuid) = offset st
  /\ selectedNodeId (handleMouseUp st e uuid) = selectedNodeId st
  /\ selectedConnectionId (handleMouseUp st e uuid) = selectedConnectionId st
  /\ (forall e', handleMouseMove (handleMouseUp st e uuid) e'
                 = handleMouseUp st e uuid)
  /\ (connections (handleMouseUp st e uuid) = connections st
      \/ exists start target,
           mode (dragState st) = CONNECTION
           /\ connectionStartNodeId (dragState st) = Some start
           /\ JS.find (inDropRegion
                         (screenToWorld st (clientX e) (clientY e)))
                (nodes st) = Some target
           /\ type target = GENERATE_IMAGE
           /\ id target <> start
           /\ (forall c, In c (connections st) ->
                         ~ (sourceId c = start /\ targetId c = id target))
           /\ connections (handleMouseUp st e uuid)
              = (connections st ++ [mkConnection uuid start (id target)])%list)
  /\ (forall start target,
        mode (dragState st) = CONNECTION ->
        connectionStartNodeId (dragState st) = Some start ->
        start <> EmptyString ->
        JS.find (inDropRegion (screenToWorld st (clientX e) (clientY e)))
          (nodes st) = Some target ->
        type target = GENERATE_IMAGE ->
        id target <> start ->
        (forall c, In c (connections st) ->
                   ~ (sourceId c = start /\ targetId c = id target)) ->
        connections (handleMouseUp st e uuid)
        = (connections st ++ [mkConnection uuid start (id target)])%list).
Proof.
  assert (Hframe : dragState (handleMouseUp st e uuid) = idleDragState
                   /\ nodes (handleMouseUp st e uuid) = nodes st
                   /\ scale (handleMouseUp st e uuid) = scale st
                   /\ offset (handleMouseUp st e uuid) = offset st
                   /\ selectedNodeId (handleMouseUp st e uuid)
                      = selectedNodeId st
                   /\ selectedConnectionId (handleMouseUp st e uuid)
                      = selectedConnectionId st).
  { unfold handleMouseUp. repeat break_match; repeat split; reflexivity. }
  destruct Hframe as [Hds [Hnodes [Hscale [Hoffset [Hsel Hconn]]]]].
  repeat (split; [assumption |]).
  split; [| split].
  - intros e'. unfold handleMouseMove. cbv zeta. rewrite Hds. reflexivity.
  - unfold handleMouseUp.
    destruct (mode (dragState st)) eqn:Hmode; try (left; reflexivity).
    destruct (connectionStartNodeId (dragState st)) as [start |] eqn:Hstart;
      [| left; reflexivity].
    destruct (JS.truthy_string start); [| left; reflexivity].
    destruct (JS.find (inDropRegion
                         (screenToWorld st (clientX e) (clientY e)))
                (nodes st)) as [target |] eqn:Hfind; [| left; reflexivity].
    destruct (negb (String.eqb (id target) start)
              && NodeType_eqb (type target) GENERATE_IMAGE)%bool eqn:Hok;
      [| left; reflexivity].
    destruct (existsb (fun c => String.eqb (sourceId c) start
                                && String.eqb (targetId c) (id target))%bool
                (connections st)) eqn:Hex; [left; reflexivity |].
    right. exists start, target.
    apply andb_prop in Hok. destruct Hok as [Hneq Htype].
    apply negb_true_iff, String.eqb_neq in Hneq.
    repeat split; try reflexivity; try assumption.
    + destruct (type target); [discriminate Htype | reflexivity].
    + intros c Hin [Hs Ht].
      assert (Hex' : existsb
                       (fun c => String.eqb (sourceId c) start
                                 && String.eqb (targetId c) (id target))%bool
                       (connections st) = true).
      { apply existsb_exists. exists c. split; [exact Hin |].
        rewrite Hs, Ht, !String.eqb_refl. reflexivity. }
      rewrite Hex in Hex'. discriminate Hex'.
  - intros start target Hmode Hstart Htruthy Hfind Htype Hneq Hnew.
    unfold handleMouseUp. rewrite Hmode, Hstart, Hfind, Htype.
    destruct start as [| ch start']; [contradiction Htruthy; reflexivity |].
    simpl JS.truthy_string. cbv iota.
    apply String.eqb_neq in Hneq. rewrite Hneq. simpl negb. simpl andb.
    destruct (existsb _ (connections st)) eqn:Hex; [| reflexivity].
    apply existsb_exists in Hex. destruct Hex as [c [Hin Hc]].
    apply andb_prop in Hc. destruct Hc as [Hs Ht].
    apply String.eqb_eq in Hs, Ht.
    exfalso. apply (Hnew c Hin). split; assumption.
Qed.

(** The input socket of a node, where its wires end, lies in the region
    where a plug can be dropped on the node, and the output anchor of a node,
    where its wires start, lies outside the region of the node itself. *)
Theorem input_socket_is_in_drop_region (st : State) (nodeId : string)
    (node : Node) :
  JS.find (fun n => String.eqb (id n) nodeId) (nodes st) = Some node ->
  0 <= width node ->
  inDropRegion (getInputCoords st nodeId) node = true
  /\ inDropRegion (getOutputCoords st nodeId) node = false.
Proof.
  intros Hfind Hwidth. unfold getInputCoords, getOutputCoords, inDropRegion.
  rewrite Hfind. simpl.
  pose proof (Q.le_max_r (height node) 400) as Hmax.
  split.
  - repeat (apply andb_true_intro; split); apply Qle_bool_iff; lra.
  - assert (Hout : Qle_bool (x (position node) + width node + 8)
                     (x (position node) + width node) = false).
    { destruct (Qle_bool (x (position node) + width node + 8)
                  (x (position node) + width node)) eqn:E; [| reflexivity].
      apply Qle_bool_iff in E. lra. }
    rewrite Hout. rewrite andb_false_r. reflexivity.
Qed.

(** The wire between two anchors. The point computed for the delete button,
    the point of the curve at one half, is the midpoint of the two anchors,
    in whatever direction the wire runs; the first control point is level
    with the start and not left of it, the second is level with the end and
    not right of it. *)
Theorem connection_line_midpoint (start finish : Position) :
  x (mid (connectionLine start finish)) == (x start + x finish) / 2
  /\ y (mid (connectionLine start finish)) == (y start + y finish) / 2
  /\ x start <= x (controlPoint1 (connectionLine start finish))
  /\ x (controlPoint2 (connectionLine start finish)) <= x finish
  /\ y (controlPoint1 (connectionLine start finish)) = y start
  /\ y (controlPoint2 (connectionLine start finish)) = y finish.
Proof.
  pose proof (Qabs_nonneg (x finish - x start)) as Hdist.
  unfold connectionLine. cbv zeta.
  set (dist := Qabs (x finish - x start)) in *. clearbody dist. simpl.
  split; [field |]. split; [field |].
  split; [| split; [| split; reflexivity]]; lra.
Qed.

End Connecting.

(** ** Deleting a node *)

Section Deleting.

Context {A : Type} (key : A -> Z).

Let cmp (a b : A) : Z := key a - key b.
Let ordered (a b : A) : Prop := key a <= key b.

Lemma insert_before_all (a : A) (l : list A) :
  Forall (ordered a) l -> JS.insert cmp a l = a :: l.
Proof.
  intros H. destruct l as [| b rest]; [reflexivity |].
  inversion H as [| b' rest' Hab Hrest]; subst. simpl.
  unfold ordered in Hab. subst cmp. simpl.
  destruct (key a - key b <=? 0) eqn:E; [reflexivity |].
  apply Z.leb_gt in E. lia.
Qed.

Lemma insert_filter (p : A -> bool) (a : A) (l : list A) :
  StronglySorted ordered l ->
  filter p (JS.insert cmp a l)
  = if p a then JS.insert cmp a (filter p l) else filter p l.
Proof.
  induction 1 as [| b rest Hrest IH Hb]; simpl.
  - destruct (p a); reflexivity.
  - destruct (cmp a b <=? 0) eqn:E.
    + simpl. destruct (p a); [| reflexivity].
      symmetry. apply insert_before_all.
      apply Z.leb_le in E. subst cmp. simpl in E.
      assert (Hall : Forall (ordered a) (b :: rest)).
      { constructor; [unfold ordered; lia |].
        eapply Forall_impl; [| exact Hb]. unfold ordered.
        intros c Hc. lia. }
      apply (Forall_filter (ordered a) p (b :: rest)). exact Hall.
    + simpl. rewrite IH.
      destruct (p b), (p a); simpl; try rewrite E; reflexivity.
Qed.

Lemma sort_filter (p : A -> bool) (l : list A) :
  filter p (JS.sort cmp l) = JS.sort cmp (filter p l).
Proof.
  induction l as [| a rest IH]; simpl; [reflexivity |].
  rewrite insert_filter by apply sort_sorted.
  rewrite IH. destruct (p a); reflexivity.
Qed.

End Deleting.

Section DeletingNodes.

Lemma find_after_delete (ns : list Node) (nodeId other : string) :
  other <> nodeId ->
  JS.find (fun n => String.eqb (id n) other)
    (filter (fun n => negb (String.eqb (id n) nodeId)) ns)
  = JS.find (fun n => String.eqb (id n) other) ns.
Proof.
  intros Hne. unfold JS.find.
  induction ns as [| n rest IH]; simpl; [reflexivity |].
  destruct (String.eqb (id n) nodeId) eqn:E; simpl.
  - destruct (String.eqb (id n) other) eqn:E'; [| exact IH].
    apply String.eqb_eq in E, E'. congruence.
  - rewrite IH. reflexivity.
Qed.

Lemma found_after_delete (ns : list Node) (nodeId : string)
    (conns : list Connection) :
  defined
    (map (fun conn =>
            JS.find (fun n => String.eqb (id n) (sourceId conn))
              (filter (fun n => negb (String.eqb (id n) nodeId)) ns))
       (filter (fun c => negb (String.eqb (sourceId c) nodeId)) conns))
  = filter (fun n => negb (String.eqb (id n) nodeId))
      (defined
         (map (fun conn =>
                 JS.find (fun n => String.eqb (id n) (sourceId conn)) ns)
            conns)).
Proof.
  induction conns as [| c rest IH]; simpl; [reflexivity |].
  destruct (String.eqb (sourceId c) nodeId) eqn:E; simpl.
  - apply String.eqb_eq in E.
    destruct (JS.find (fun n => String.eqb (id n) (sourceId c)) ns)
      as [n |] eqn:Hfind; simpl; [| exact IH].
    apply find_id in Hfind. rewrite Hfind, E, String.eqb_refl. simpl.
    exact IH.
  - apply String.eqb_neq in E. rewrite find_after_delete by exact E.
    destruct (JS.find (fun n => String.eqb (id n) (sourceId c)) ns)
      as [n |] eqn:Hfind; simpl; [| exact IH].
    apply find_id in Hfind. rewrite Hfind.
    apply String.eqb_neq in E. rewrite E. simpl. rewrite IH. reflexivity.
Qed.

Lemma incoming_after_delete (conns : list Connection)
    (nodeId generatorId : string) :
  generatorId <> nodeId ->
  filter (fun c => String.eqb (targetId c) generatorId)
    (filter (fun c => negb (String.eqb (sourceId c) nodeId)
                      && negb (String.eqb (targetId c) nodeId)) conns)
  = filter (fun c => negb (String.eqb (sourceId c) nodeId))
      (filter (fun c => String.eqb (targetId c) generatorId) conns).
Proof.
  intros Hne. induction conns as [| c rest IH]; simpl; [reflexivity |].
  destruct (String.eqb (targetId c) generatorId) eqn:Et.
  - apply String.eqb_eq in Et.
    assert (Hn : String.eqb (targetId c) nodeId = false)
      by (apply String.eqb_neq; congruence).
    rewrite Hn. simpl. rewrite andb_true_r.
    destruct (negb (String.eqb (sourceId c) nodeId)); simpl;
      [apply String.eqb_eq in Et; rewrite Et; f_equal |]; exact IH.
  - destruct (negb (String.eqb (sourceId c) nodeId)
              && negb (String.eqb (targetId c) nodeId))%bool; simpl;
      [rewrite Et |]; exact IH.
Qed.

(** Deleting a node cascades. The node and exactly the connections that
    start or end at it are removed, the rest keeps its order, and view,
    both selections and the drag state are as before. For every other generator, the source nodes
    resolved afterwards are the ones resolved before without the deleted
    node, in the same order: its image leaves their requests and nothing
    else changes. *)
Theorem deleteNode_cascades (st : State) (nodeId : string) :
  (forall n, In n (nodes (deleteNode st nodeId))
             <-> In n (nodes st) /\ id n <> nodeId)
  /\ (forall c, In c (connections (deleteNode st nodeId))
                <-> In c (connections st)
                    /\ sourceId c <> nodeId /\ targetId c <> nodeId)
  /\ scale (deleteNode st nodeId) = scale st
  /\ offset (deleteNode st nodeId) = offset st
  /\ selectedNodeId (deleteNode st nodeId) = selectedNodeId st
  /\ selectedConnectionId (deleteNode st nodeId) = selectedConnectionId st
  /\ dragState (deleteNode st nodeId) = dragState st
  /\ (forall generatorId,
        generatorId <> nodeId ->
        sourceNodes (nodes (deleteNode st nodeId))
          (connections (deleteNode st nodeId)) generatorId
        = filter (fun n => negb (String.eqb (id n) nodeId))
            (sourceNodes (nodes st) (connections st) generatorId)).
Proof.
  split; [| split; [| split; [| split; [| split; [| split; [| split]]]]]];
    try reflexivity.
  - intros n. simpl. rewrite filter_In, negb_true_iff, String.eqb_neq.
    tauto.
  - intros c. simpl.
    rewrite filter_In, andb_true_iff, !negb_true_iff, !String.eqb_neq.
    tauto.
  - intros generatorId Hne. unfold sourceNodes. simpl.
    rewrite incoming_after_delete by exact Hne.
    rewrite found_after_delete.
    symmetry. apply (sort_filter (fun n => displayId (data n))).
Qed.

End DeletingNodes.

(** ** Labels and layers *)

Section Labels.

Lemma findLastEnabled_unfold (ls : list Layer) (i : nat) :
  findLastEnabled ls i
  = if match nth_error ls i with Some l => isEnabled l | None => false end
    then Some i
    else match i with
         | O => None
         | S j => findLastEnabled ls j
         end.
Proof.
  destruct i; reflexivity.
Qed.

Lemma findLastEnabled_some (ls : list Layer) (i t : nat) :
  findLastEnabled ls i = Some t ->
  (t <= i)%nat
  /\ (exists l, nth_error ls t = Some l /\ isEnabled l = true)
  /\ (forall j l, (t < j <= i)%nat -> nth_error ls j = Some l ->
                  isEnabled l = false).
Proof.
  induction i as [| i IH]; rewrite findLastEnabled_unfold.
  - destruct (nth_error ls 0) as [l |] eqn:El;
      try destruct (isEnabled l) eqn:En; intros H; try discriminate H.
    inversion H; subst t. split; [lia |]. split; [eauto |].
    intros j l' Hj. lia.
  - destruct (nth_error ls (S i)) as [l |] eqn:El;
      try destruct (isEnabled l) eqn:En; intros H;
      try (inversion H; subst t; split; [lia |]; split; [eauto |];
           intros j l' Hj; lia);
      destruct (IH H) as [Hle [Hl Hafter]];
      (split; [lia |]; split; [exact Hl |]);
      intros j l' Hj Hnth;
      (destruct (Nat.eq_dec j (S i)) as [-> | Hne];
       [congruence | apply (Hafter j); [lia | exact Hnth]]).
Qed.

Lemma findLastEnabled_none (ls : list Layer) (i : nat) :
  findLastEnabled ls i = None ->
  forall j l, (j <= i)%nat -> nth_error ls j = Some l -> isEnabled l = false.
Proof.
  induction i as [| i IH]; rewrite findLastEnabled_unfold.
  - destruct (nth_error ls 0) as [l |] eqn:El;
      try destruct (isEnabled l) eqn:En; intros H j l' Hj Hnth;
      try discriminate H;
      assert (j = 0)%nat by lia; subst j; congruence.
  - destruct (nth_error ls (S i)) as [l |] eqn:El;
      try destruct (isEnabled l) eqn:En; intros H j l' Hj Hnth;
      try discriminate H;
      (destruct (Nat.eq_dec j (S i)) as [-> | Hne];
       [congruence | apply (IH H j); [lia | exact Hnth]]).
Qed.

Lemma assignAt_length {A : Type} (arr : list A) (i : nat) (a : A) :
  (i < List.length arr)%nat ->
  List.length (assignAt arr i a) = List.length arr.
Proof.
  intros H. unfold assignAt.
  rewrite length_app, length_firstn.
  change (List.length (a :: skipn (S i) arr))
    with (S (List.length (skipn (S i) arr))).
  rewrite length_skipn. lia.
Qed.

Lemma assignAt_same {A : Type} (arr : list A) (i : nat) (a : A) :
  (i < List.length arr)%nat ->
  nth_error (assignAt arr i a) i = Some a.
Proof.
  intros H. unfold assignAt.
  rewrite nth_error_app2; rewrite length_firstn; [| lia].
  replace (i - Nat.min i (List.length arr))%nat with 0%nat by lia.
  reflexivity.
Qed.

Lemma assignAt_other {A : Type} (arr : list A) (i j : nat) (a : A) :
  (i < List.length arr)%nat -> j <> i ->
  nth_error (assignAt arr i a) j = nth_error arr j.
Proof.
  intros H Hne. unfold assignAt.
  destruct (Nat.lt_ge_cases j i) as [Hlt | Hge].
  - rewrite nth_error_app1 by (rewrite length_firstn; lia).
    rewrite nth_error_firstn. apply Nat.ltb_lt in Hlt. rewrite Hlt.
    reflexivity.
  - rewrite nth_error_app2 by (rewrite length_firstn; lia).
    rewrite length_firstn.
    replace (j - Nat.min i (List.length arr))%nat with (S (j - S i))%nat
      by lia.
    change (nth_error (a :: skipn (S i) arr) (S (j - S i)))
      with (nth_error (skipn (S i) arr) (j - S i)).
    rewrite nth_error_skipn. f_equal. lia.
Qed.

(** A label goes to the last enabled layer. On a generator with layers
    there is one target layer: its prompt gets the label appended, every
    other layer and the number of layers are unchanged, and every layer after
    the target is disabled; the target is enabled, or no layer is enabled
    and the target is the last layer. *)
Theorem label_is_appended_to_last_enabled_layer (ls : list Layer)
    (labelText : string) :
  ls <> [] ->
  exists t l,
    nth_error ls t = Some l
    /\ nth_error (appendLabel ls labelText) t
       = Some (mkLayer (layer_id l) (layer_name l)
                 (layer_prompt l ++ labelText) (isEnabled l))
    /\ List.length (appendLabel ls labelText) = List.length ls
    /\ (forall j, j <> t ->
                  nth_error (appendLabel ls labelText) j = nth_error ls j)
    /\ (forall j l', (t < j)%nat -> nth_error ls j = Some l' ->
                     isEnabled l' = false)
    /\ (isEnabled l = true
        \/ (t = (List.length ls - 1)%nat
            /\ forall l', In l' ls -> isEnabled l' = false)).
Proof.
  intros Hne.
  assert (Hlen : (0 < List.length ls)%nat)
    by (destruct ls; [contradiction Hne; reflexivity | simpl; lia]).
  unfold appendLabel.
  destruct (findLastEnabled ls (List.length ls - 1)) as [t |] eqn:Hfind;
    simpl JS.or_else.
  - destruct (findLastEnabled_some _ _ _ Hfind)
      as [Hle [[l [Hnth Henabled]] Hafter]].
    assert (Ht : (t < List.length ls)%nat) by lia.
    exists t, l. rewrite Hnth.
    split; [reflexivity |].
    split; [apply assignAt_same; exact Ht |].
    split; [apply assignAt_length; exact Ht |].
    split; [intros j Hj; apply assignAt_other; assumption |].
    split; [| left; exact Henabled].
    intros j l' Hj Hnth'. apply (Hafter j); [| exact Hnth'].
    assert (j < List.length ls)%nat
      by (apply nth_error_Some; congruence).
    lia.
  - pose proof (findLastEnabled_none _ _ Hfind) as Hnone.
    assert (Ht : (List.length ls - 1 < List.length ls)%nat) by lia.
    destruct (nth_error ls (List.length ls - 1)) as [l |] eqn:Hnth;
      [| apply nth_error_None in Hnth; lia].
    exists (List.length ls - 1)%nat, l.
    split; [exact Hnth |].
    split; [apply assignAt_same; exact Ht |].
    split; [apply assignAt_length; exact Ht |].
    split; [intros j Hj; apply assignAt_other; assumption |].
    split.
    + intros j l' Hj Hnth'.
      assert (j < List.length ls)%nat
        by (apply nth_error_Some; congruence).
      lia.
    + right. split; [reflexivity |].
      intros l' Hin. apply In_nth_error in Hin. destruct Hin as [j Hj].
      apply (Hnone j); [| exact Hj].
      assert (j < List.length ls)%nat
        by (apply nth_error_Some; congruence).
      lia.
Qed.

(** What a click inserts, for any label text made from the node clicked:
    nothing but the nodes can change. *)
Lemma insertLabel_frame (st : State) (sourceNodeId : string)
    (label : Node -> string) :
  connections (insertLabel st sourceNodeId label) = connections st
  /\ scale (insertLabel st sourceNodeId label) = scale st
  /\ offset (insertLabel st sourceNodeId label) = offset st
  /\ selectedNodeId (insertLabel st sourceNodeId label) = selectedNodeId st
  /\ selectedConnectionId (insertLabel st sourceNodeId label)
     = selectedConnectionId st
  /\ dragState (insertLabel st sourceNodeId label) = dragState st.
Proof.
  assert (H : insertLabel st sourceNodeId label = st
              \/ exists ns, insertLabel st sourceNodeId label
                            = set_nodes st ns).
  { unfold insertLabel. repeat break_match;
      try (left; reflexivity). right. eexists. reflexivity. }
  destruct H as [H | [ns H]]; rewrite H; repeat split; reflexivity.
Qed.

Lemma insertLabel_applied (st : State) (sourceNodeId : string)
    (label : Node -> string) (selected : string) (generator clicked : Node)
    (ls : list Layer) :
  selectedNodeId st = Some selected ->
  selected <> EmptyString ->
  JS.find (fun n => String.eqb (id n) selected) (nodes st)
  = Some generator ->
  type generator = GENERATE_IMAGE ->
  JS.find (fun n => String.eqb (id n) sourceNodeId) (nodes st)
  = Some clicked ->
  layers (data generator) = Some ls ->
  ls <> [] ->
  insertLabel st sourceNodeId label
  = set_nodes st
      (updateNodeData (nodes st) selected
         (set_layers (appendLabel ls (label clicked)))).
Proof.
  intros Hsel Hne Hgen Htype Hclicked Hlayers Hls. unfold insertLabel.
  rewrite Hsel.
  destruct selected as [| c rest]; [contradiction Hne; reflexivity |].
  simpl JS.truthy_string. cbv iota.
  rewrite Hgen, Htype, Hclicked, Hlayers. simpl.
  destruct ls as [| l rest']; [contradiction Hls; reflexivity |].
  reflexivity.
Qed.

Lemma insertLabel_refused (st : State) (sourceNodeId : string)
    (label : Node -> string) :
  selectedNodeId st = None
  \/ selectedNodeId st = Some EmptyString
  \/ (exists selected,
        selectedNodeId st = Some selected
        /\ (JS.find (fun n => String.eqb (id n) selected) (nodes st) = None
            \/ exists node,
                 JS.find (fun n => String.eqb (id n) selected) (nodes st)
                 = Some node
                 /\ (type node = IMAGE_UPLOAD
                     \/ JS.or_else (layers (data node)) [] = [])))
  \/ JS.find (fun n => String.eqb (id n) sourceNodeId) (nodes st) = None ->
  insertLabel st sourceNodeId label = st.
Proof.
  unfold insertLabel.
  intros [H | [H | [[selected [H [Hfind | [node [Hfind [Ht | Hl]]]]]] | H]]].
  - rewrite H. reflexivity.
  - rewrite H. reflexivity.
  - rewrite H, Hfind. destruct (JS.truthy_string selected); reflexivity.
  - rewrite H, Hfind, Ht. destruct (JS.truthy_string selected); reflexivity.
  - rewrite H, Hfind, Hl. simpl. repeat break_match; reflexivity.
  - rewrite H. repeat break_match; reflexivity.
Qed.

(** The nodes after the label was inserted: the selected generator has the
    new layers and nothing else of it changed; the nodes with another id
    are as they were. *)
Lemma labelled_nodes (st : State) (selected : string) (generator : Node)
    (ls : list Layer) :
  JS.find (fun n => String.eqb (id n) selected) (nodes st)
  = Some generator ->
  JS.find (fun n => String.eqb (id n) selected)
    (nodes (set_nodes st (updateNodeData (nodes st) selected
                            (set_layers ls))))
  = Some (set_data generator (set_layers ls (data generator)))
  /\ forall k n,
       nth_error (nodes st) k = Some n ->
       id n <> selected ->
       nth_error
         (nodes (set_nodes st (updateNodeData (nodes st) selected
                                 (set_layers ls)))) k
       = Some n.
Proof.
  intros Hgen. simpl. split.
  - rewrite updateNodeData_find, Hgen. reflexivity.
  - intros k n Hn Hid. rewrite (updateNodeData_nth _ _ _ _ _ Hn).
    apply String.eqb_neq in Hid. rewrite Hid. reflexivity.
Qed.

(** A click on a node badge or on an annotation changes nothing unless a
    generator that has layers is selected and the node clicked exists. When
    they are, the click is applied: the selected generator gets its layers
    with the label of the node clicked ([图N], or [图N 标M] for an
    annotation) appended to the target layer ([appendLabel]), the rest of
    its data is kept, and the nodes with another id are as they were. View,
    selection, drag state and connections are untouched in every case. *)
Theorem label_click_changes_only_selected_generator (st : State)
    (sourceNodeId : string) (annotationId : Z) :
  (forall st',
      st' = handleLabelClick st sourceNodeId
      \/ st' = handleAnnotationClick st sourceNodeId annotationId ->
      connections st' = connections st
      /\ scale st' = scale st
      /\ offset st' = offset st
      /\ selectedNodeId st' = selectedNodeId st
      /\ selectedConnectionId st' = selectedConnectionId st
      /\ dragState st' = dragState st)
  /\ (selectedNodeId st = None
      \/ selectedNodeId st = Some EmptyString
      \/ (exists selected,
            selectedNodeId st = Some selected
            /\ (JS.find (fun n => String.eqb (id n) selected) (nodes st)
                = None
                \/ exists node,
                     JS.find (fun n => String.eqb (id n) selected)
                       (nodes st) = Some node
                     /\ (type node = IMAGE_UPLOAD
                         \/ JS.or_else (layers (data node)) [] = [])))
      \/ JS.find (fun n => String.eqb (id n) sourceNodeId) (nodes st)
         = None ->
      handleLabelClick st sourceNodeId = st
      /\ handleAnnotationClick st sourceNodeId annotationId = st)
  /\ (forall selected generator clicked ls,
        selectedNodeId st = Some selected ->
        selected <> EmptyString ->
        JS.find (fun n => String.eqb (id n) selected) (nodes st)
        = Some generator ->
        type generator = GENERATE_IMAGE ->
        JS.find (fun n => String.eqb (id n) sourceNodeId) (nodes st)
        = Some clicked ->
        layers (data generator) = Some ls ->
        ls <> [] ->
        forall st' labelText,
          (st' = handleLabelClick st sourceNodeId
           /\ labelText
              = "[图" ++ string_of_Z (displayId (data clicked)) ++ "]")
          \/ (st' = handleAnnotationClick st sourceNodeId annotationId
              /\ labelText
                 = "[图" ++ string_of_Z (displayId (data clicked))
                   ++ " 标" ++ string_of_Z annotationId ++ "]") ->
          st' = set_nodes st
                  (updateNodeData (nodes st) selected
                     (set_layers (appendLabel ls labelText)))
          /\ (exists generator',
                JS.find (fun n => String.eqb (id n) selected) (nodes st')
                = Some generator'
                /\ layers (data generator')
                   = Some (appendLabel ls labelText)
                /\ id generator' = id generator
                /\ type generator' = type generator
                /\ position generator' = position generator
                /\ displayId (data generator')
                   = displayId (data generator)
                /\ prompt (data generator') = prompt (data generator)
                /\ generatedImages (data generator')
                   = generatedImages (data generator)
                /\ generatedImage (data generator')
                   = generatedImage (data generator)
                /\ status (data generator') = status (data generator)
                /\ model (data generator') = model (data generator))
          /\ List.length (nodes st') = List.length (nodes st)
          /\ forall k n,
               nth_error (nodes st) k = Some n ->
               id n <> selected ->
               nth_error (nodes st') k = Some n).
Proof.
  split; [| split].
  - intros st' [H | H]; subst st'; apply insertLabel_frame.
  - intros H. split; apply insertLabel_refused; exact H.
  - intros selected generator clicked ls Hsel Hne Hgen Htype Hclicked
      Hlayers Hls st' labelText Hwhich.
    assert (Hst' : st' = set_nodes st
                           (updateNodeData (nodes st) selected
                              (set_layers (appendLabel ls labelText)))).
    { destruct Hwhich as [[H Hlabel] | [H Hlabel]]; subst st' labelText.
      - unfold handleLabelClick.
        rewrite (insertLabel_applied st sourceNodeId _ selected generator
                   clicked ls Hsel Hne Hgen Htype Hclicked Hlayers Hls).
        reflexivity.
      - unfold handleAnnotationClick.
        rewrite (insertLabel_applied st sourceNodeId _ selected generator
                   clicked ls Hsel Hne Hgen Htype Hclicked Hlayers Hls).
        reflexivity. }
    split; [exact Hst' |].
    destruct (labelled_nodes st selected generator
                (appendLabel ls labelText) Hgen) as [Hfound Hothers].
    rewrite Hst'. split; [| split].
    + eexists. split; [exact Hfound |]. simpl. repeat split; reflexivity.
    + simpl. unfold updateNodeData. apply length_map.
    + exact Hothers.
Qed.

End Labels.

Section Layers.

Lemma filter_removes_at_most_one (ls : list Layer) (layerId : string) :
  NoDup (map layer_id ls) ->
  (List.length ls - 1
   <= List.length
        (filter (fun l => negb (String.eqb (layer_id l) layerId)) ls))%nat.
Proof.
  induction ls as [| l rest IH]; simpl; [lia |].
  intros H. inversion H as [| i ids Hnotin Hrest]; subst.
  destruct (String.eqb (layer_id l) layerId) eqn:E; simpl.
  - apply String.eqb_eq in E.
    assert (Hall : filter (fun l0 => negb (String.eqb (layer_id l0) layerId))
                     rest = rest).
    { apply forallb_filter_id. apply forallb_forall. intros l' Hin.
      apply negb_true_iff, String.eqb_neq. intros Heq.
      apply Hnotin. rewrite E, <- Heq. apply in_map. exact Hin. }
    rewrite Hall. lia.
  - specialize (IH Hrest). lia.
Qed.

Lemma currentLayers_updated (nodeId : string) (ns : list Node)
    (node : Node) (patch : Patch) :
  JS.find (fun n => String.eqb (id n) nodeId) ns = Some node ->
  currentLayers nodeId (updateNodeData ns (id node) patch)
  = JS.or_else (layers (patch (data node))) [].
Proof.
  intros Hfind. unfold currentLayers.
  rewrite (find_id _ _ _ Hfind), updateNodeData_find, Hfind. reflexivity.
Qed.

Lemma layerStep_keeps_a_layer (nodeId : string) (ns : list Node)
    (e : LayerEvent) :
  NoDup (map layer_id (currentLayers nodeId ns)) ->
  (1 <= List.length (currentLayers nodeId ns))%nat ->
  match e with
  | AddLayer uuid => ~ In uuid (map layer_id (currentLayers nodeId ns))
  | UpdateLayer _ updates => upd_id updates = None
  | DeleteLayer _ => True
  end ->
  NoDup (map layer_id (currentLayers nodeId (layerStep nodeId ns e)))
  /\ (1 <= List.length (currentLayers nodeId (layerStep nodeId ns e)))%nat.
Proof.
  intros Hnodup Hlen Hfresh. unfold layerStep.
  destruct (JS.find (fun n => String.eqb (id n) nodeId) ns) as [node |]
    eqn:Hfind; [| auto].
  assert (Hcur : currentLayers nodeId ns
                 = JS.or_else (layers (data node)) []).
  { unfold currentLayers. rewrite Hfind. reflexivity. }
  rewrite Hcur in *.
  destruct e as [uuid | layerId updates | layerId]; simpl.
  - rewrite (currentLayers_updated _ _ _ _ Hfind). simpl.
    rewrite map_app, length_app. simpl. split; [| lia].
    apply NoDup_app; [exact Hnodup | repeat constructor; intros [] |].
    intros i Hi [Heq | []]. subst i. contradiction.
  - rewrite (currentLayers_updated _ _ _ _ Hfind). simpl.
    rewrite length_map. split; [| exact Hlen].
    rewrite map_map.
    replace (map (fun l => layer_id
                             (if String.eqb (layer_id l) layerId
                              then applyUpdates l updates else l))
               (JS.or_else (layers (data node)) []))
      with (map layer_id (JS.or_else (layers (data node)) []));
      [exact Hnodup |].
    apply map_ext. intros l.
    destruct (String.eqb (layer_id l) layerId); [| reflexivity].
    unfold applyUpdates. rewrite Hfresh. reflexivity.
  - unfold deleteLayer.
    destruct (Nat.leb (List.length (JS.or_else (layers (data node)) [])) 1)
      eqn:E.
    + rewrite Hcur. auto.
    + rewrite (currentLayers_updated _ _ _ _ Hfind). simpl.
      apply Nat.leb_gt in E.
      pose proof (filter_removes_at_most_one _ layerId Hnodup) as Hone.
      split; [apply NoDup_map_filter; exact Hnodup | lia].
Qed.

(** A generator keeps at least one layer. Starting from a node whose layers
    have distinct ids, and with every added layer given an id that the node
    does not have yet, no sequence of adding, updating and deleting layers
    leaves the node without a layer; the ids stay distinct. *)
Theorem generator_keeps_a_layer (nodeId : string)
    (events : list LayerEvent) :
  forall ns,
    NoDup (map layer_id (currentLayers nodeId ns)) ->
    (1 <= List.length (currentLayers nodeId ns))%nat ->
    freshLayerIds nodeId ns events ->
    (1 <= List.length
            (currentLayers nodeId
               (fold_left (layerStep nodeId) events ns)))%nat
    /\ NoDup (map layer_id
                (currentLayers nodeId
                   (fold_left (layerStep nodeId) events ns))).
Proof.
  induction events as [| e rest IH]; intros ns Hnodup Hlen Hfresh; simpl.
  - auto.
  - destruct Hfresh as [He Hrest].
    destruct (layerStep_keeps_a_layer nodeId ns e Hnodup Hlen He)
      as [Hnodup' Hlen'].
    apply IH; assumption.
Qed.

End Layers.

(** ** Markers *)

Section Markers.

Local Open Scope Q_scope.

(** The markers baked into an image follow its annotations: one marker per
    annotation, in order, labelled with the id of the annotation, centred at
    the percentages of the annotation taken of the image size. An annotation
    within 0..100 percent gives a centre within the image, and one at
    (50, 50) gives the centre of the image. *)
Theorem baked_markers_follow_annotations (imgWidth imgHeight : Q)
    (anns : list Annotation) :
  List.length (bakedMarkers imgWidth imgHeight anns) = List.length anns
  /\ map marker_text (bakedMarkers imgWidth imgHeight anns)
     = map (fun a => string_of_Z (ann_id a)) anns
  /\ (forall k a,
        nth_error anns k = Some a ->
        exists m,
          nth_error (bakedMarkers imgWidth imgHeight anns) k = Some m
          /\ marker_x m == ann_x a * imgWidth / 100
          /\ marker_y m == ann_y a * imgHeight / 100
          /\ (0 <= imgWidth -> 0 <= ann_x a <= 100 ->
              0 <= marker_x m <= imgWidth)
          /\ (0 <= imgHeight -> 0 <= ann_y a <= 100 ->
              0 <= marker_y m <= imgHeight)
          /\ (ann_x a == 50 -> marker_x m == imgWidth / 2)
          /\ (ann_y a == 50 -> marker_y m == imgHeight / 2)).
Proof.
  unfold bakedMarkers. split; [apply length_map |].
  split; [rewrite map_map; reflexivity |].
  intros k a Hk. eexists. split; [apply nth_error_map_some; exact Hk |].
  simpl.
  assert (Hbound : forall p w, 0 <= w -> 0 <= p <= 100 ->
                               0 <= p / 100 * w <= w).
  { intros p w Hw [Hp0 Hp1]. split.
    - apply Qmult_le_0_compat; [| exact Hw].
      apply Qle_shift_div_l; [reflexivity | lra].
    - rewrite <- (Qmult_1_l w) at 2. apply Qmult_le_compat_r; [| exact Hw].
      apply Qle_shift_div_r; [reflexivity | lra]. }
  split; [field |]. split; [field |].
  split; [apply Hbound |]. split; [apply Hbound |].
  split; intros H50; rewrite H50; field.
Qed.

(** A marker is baked where the user clicked. A click that adds an
    annotation, on an image shown in a box of positive size, yields an
    annotation whose marker on an image of any size sits at the same
    fraction of the image as the click sat in the box; on an image of the
    size of the box it sits at the offset of the click in the box. A click
    within the box gives percentages within 0..100. *)
Theorem click_is_baked_where_it_landed (rect : DOMRect) (node : Node)
    (cx cy : Q) (patch : Patch) :
  NodeComponent.handleImageClick true (Some rect) node cx cy = Some patch ->
  0 < rect_width rect ->
  0 < rect_height rect ->
  exists a,
    annotations (patch (data node))
    = Some (JS.or_else (annotations (data node)) [] ++ [a])%list
    /\ ann_id a
       = NodeComponent.newId (JS.or_else (annotations (data node)) [])
    /\ (forall imgWidth imgHeight,
          exists m,
            bakedMarkers imgWidth imgHeight [a] = [m]
            /\ marker_x m * rect_width rect
               == (cx - rect_left rect) * imgWidth
            /\ marker_y m * rect_height rect
               == (cy - rect_top rect) * imgHeight
            /\ (imgWidth == rect_width rect ->
                marker_x m == cx - rect_left rect)
            /\ (imgHeight == rect_height rect ->
                marker_y m == cy - rect_top rect))
    /\ (rect_left rect <= cx <= rect_left rect + rect_width rect ->
        0 <= ann_x a <= 100)
    /\ (rect_top rect <= cy <= rect_top rect + rect_height rect ->
        0 <= ann_y a <= 100).
Proof.
  unfold NodeComponent.handleImageClick. intros H Hw Hh.
  destruct (negb true || negb (JS.truthy (imageUrl (data node))))%bool;
    [discriminate H |].
  inversion H. clear H. eexists. split; [reflexivity |].
  split; [reflexivity |].
  assert (Hwn : ~ rect_width rect == 0) by lra.
  assert (Hhn : ~ rect_height rect == 0) by lra.
  assert (Hfrac : forall c l w, 0 < w -> l <= c <= l + w ->
                                0 <= (c - l) / w * 100 <= 100).
  { intros c l w Hpos [Hlo Hhi].
    assert (Hge : 0 <= (c - l) / w)
      by (apply Qle_shift_div_l; [exact Hpos | lra]).
    assert (Hle : (c - l) / w <= 1)
      by (apply Qle_shift_div_r; [exact Hpos | lra]).
    lra. }
  split; [| split; [apply Hfrac; exact Hw | apply Hfrac; exact Hh]].
  intros imgWidth imgHeight. eexists. split; [reflexivity |]. simpl.
  split; [field; exact Hwn |]. split; [field; exact Hhn |].
  split; intros Hsize; rewrite Hsize; field; assumption.
Qed.

End Markers.

(** ** Downloads *)

Section Downloads.

Lemma splitAtComma_spec (header rest : string) :
  lacks "," header ->
  splitAtComma (header ++ String "," rest) = (header, Some rest).
Proof.
  induction header as [| c header IH]; simpl.
  - reflexivity.
  - intros [Hc Hrest]. apply Ascii.eqb_neq in Hc. rewrite Hc.
    rewrite (IH Hrest). reflexivity.
Qed.

Lemma splitAtComma_none (s : string) :
  lacks "," s -> splitAtComma s = (s, None).
Proof.
  induction s as [| c s IH]; simpl; [reflexivity |].
  intros [Hc Hrest]. apply Ascii.eqb_neq in Hc. rewrite Hc.
  rewrite (IH Hrest). reflexivity.
Qed.

(** The download decodes the payload of a data URL, and any other string as
    it is. For a URL that starts with [data:] and is made of a header
    without comma, a comma and a non-empty payload without comma, the text
    decoded is the payload; a string that does not start with [data:] is
    decoded whole. *)
Theorem download_decodes_data_url_payload (header payload : string) :
  (String.prefix "data:" (header ++ String "," payload) = true ->
   lacks "," header ->
   lacks "," payload ->
   payload <> EmptyString ->
   base64Data (header ++ String "," payload) = payload)
  /\ (forall s, String.prefix "data:" s = false -> base64Data s = s).
Proof.
  split.
  - intros Hdata Hheader Hpayload Hne. unfold base64Data, secondField.
    rewrite Hdata, (splitAtComma_spec _ _ Hheader). simpl.
    rewrite (splitAtComma_none _ Hpayload). simpl.
    destruct payload; [contradiction Hne; reflexivity | reflexivity].
  - intros s Hs. unfold base64Data. rewrite Hs. reflexivity.
Qed.

Lemma replaceColonsAndDots_lacks (s : string) :
  lacks ":" (replaceColonsAndDots s) /\ lacks "." (replaceColonsAndDots s).
Proof.
  induction s as [| c s [IH1 IH2]]; simpl; [auto |].
  destruct (Ascii.eqb c ":") eqn:E1; simpl.
  - repeat split; try discriminate; assumption.
  - destruct (Ascii.eqb c ".") eqn:E2; simpl.
    + repeat split; try discriminate; assumption.
    + apply Ascii.eqb_neq in E1, E2. repeat split; assumption.
Qed.

Lemma replaceColonsAndDots_length (s : string) :
  String.length (replaceColonsAndDots s) = String.length s.
Proof.
  induction s as [| c s IH]; simpl; [reflexivity |].
  rewrite IH. reflexivity.
Qed.

Lemma string_of_Z_inj (a b : Z) : string_of_Z a = string_of_Z b -> a = b.
Proof.
  unfold string_of_Z. intros H. apply DecimalZ.to_int_inj.
  assert (Hnonnil : forall z,
             Z.to_int z <> Decimal.Pos Decimal.Nil
             /\ Z.to_int z <> Decimal.Neg Decimal.Nil).
  { intros [| p | p]; simpl; split; try discriminate;
      intros E; inversion E as [Hp];
      apply (DecimalPos.Unsigned.to_uint_nonnil p Hp). }
  destruct (Hnonnil a) as [Ha1 Ha2]. destruct (Hnonnil b) as [Hb1 Hb2].
  assert (E : Some (Z.to_int a) = Some (Z.to_int b)).
  { rewrite <- (NilZero.isi _ Ha1 Ha2), <- (NilZero.isi _ Hb1 Hb2), H.
    reflexivity. }
  inversion E. reflexivity.
Qed.

Lemma append_length (a b : string) :
  String.length (a ++ b) = (String.length a + String.length b)%nat.
Proof.
  induction a as [| c a IH]; simpl; [reflexivity | rewrite IH; reflexivity].
Qed.

Lemma append_assoc (a b c : string) : (a ++ b) ++ c = a ++ (b ++ c).
Proof.
  induction a as [| ch a IH]; simpl; [reflexivity | rewrite IH; reflexivity].
Qed.

Lemma append_inv_head (a b c : string) : a ++ b = a ++ c -> b = c.
Proof.
  induction a as [| ch a IH]; simpl; intros H; [exact H |].
  inversion H. apply IH. assumption.
Qed.

Lemma append_inv_length (a : string) :
  forall b c d,
    a ++ b = c ++ d -> String.length a = String.length c -> a = c.
Proof.
  induction a as [| ch a IH]; intros b [| ch' c] d H Hlen; simpl in *;
    try discriminate Hlen; [reflexivity |].
  inversion H. f_equal. apply (IH b c d); [assumption | lia].
Qed.

(** The name of a downloaded file is the title (or [generated-image]), the
    short name of the model, for an image of a batch the word [batch] with
    the position of the image counted from 1, then the time stamp and the
    extension. In the time stamp every colon and dot of the ISO string has
    become a hyphen: it has as many characters and holds neither colon nor
    dot. The images of a batch saved at the same instant get different
    names, and none of them the name of a single download. *)
Theorem download_filename_has_safe_timestamp (node : Node)
    (isoString : string) :
  downloadFilename node None isoString
  = (if JS.truthy_string (title (data node))
     then title (data node) else "generated-image")
    ++ "-" ++ modelShortName (model (data node)) ++ "-"
    ++ replaceColonsAndDots isoString ++ ".png"
  /\ (forall i,
        downloadFilename node (Some i) isoString
        = (if JS.truthy_string (title (data node))
           then title (data node) else "generated-image")
          ++ "-" ++ modelShortName (model (data node)) ++ "-"
          ++ "batch-" ++ string_of_Z (i + 1) ++ "-"
          ++ replaceColonsAndDots isoString ++ ".png")
  /\ String.length (replaceColonsAndDots isoString)
     = String.length isoString
  /\ lacks ":" (replaceColonsAndDots isoString)
  /\ lacks "." (replaceColonsAndDots isoString)
  /\ (forall i j,
        i <> j ->
        downloadFilename node (Some i) isoString
        <> downloadFilename node (Some j) isoString)
  /\ (forall i,
        downloadFilename node (Some i) isoString
        <> downloadFilename node None isoString).
Proof.
  assert (Hsome : forall i,
             downloadFilename node (Some i) isoString
             = (if JS.truthy_string (title (data node))
                then title (data node) else "generated-image")
               ++ "-" ++ modelShortName (model (data node)) ++ "-"
               ++ "batch-" ++ string_of_Z (i + 1) ++ "-"
               ++ replaceColonsAndDots isoString ++ ".png").
  { intros i. unfold downloadFilename. rewrite !append_assoc.
    reflexivity. }
  assert (Hnone : downloadFilename node None isoString
                  = (if JS.truthy_string (title (data node))
                     then title (data node) else "generated-image")
                    ++ "-" ++ modelShortName (model (data node)) ++ "-"
                    ++ replaceColonsAndDots isoString ++ ".png")
    by reflexivity.
  split; [exact Hnone |]. split; [exact Hsome |].
  split; [| split; [| split; [| split]]].
  - apply replaceColonsAndDots_length.
  - apply replaceColonsAndDots_lacks.
  - apply replaceColonsAndDots_lacks.
  - intros i j Hij E. rewrite !Hsome in E.
    do 5 apply append_inv_head in E.
    apply Hij.
    assert (Hlen : String.length (string_of_Z (i + 1))
                   = String.length (string_of_Z (j + 1))).
    { apply (f_equal String.length) in E. rewrite !append_length in E.
      lia. }
    apply append_inv_length in E; [| exact Hlen].
    apply string_of_Z_inj in E. lia.
  - intros i E. rewrite Hsome, Hnone in E.
    do 4 apply append_inv_head in E.
    apply (f_equal String.length) in E. rewrite !append_length in E.
    simpl in E. lia.
Qed.

End Downloads.

(** ** The service *)

Section Service.

Lemma prefix_split (p s : string) :
  String.prefix p s = true -> s = p ++ dropChars (String.length p) s.
Proof.
  revert s. induction p as [| c p IH]; intros s H; simpl.
  - destruct s; reflexivity.
  - destruct s as [| c' s]; simpl in H; [discriminate H |].
    destruct (ascii_dec c c') as [-> | Hne]; [| discriminate H].
    simpl. f_equal. apply IH. exact H.
Qed.

Lemma prefix_app (p rest : string) : String.prefix p (p ++ rest) = true.
Proof.
  induction p as [| c p IH]; simpl; [destruct rest; reflexivity |].
  destruct (ascii_dec c c) as [_ | Hne]; [exact IH | contradiction Hne;
                                                     reflexivity].
Qed.

Lemma untilParen_spec (s body : string) :
  untilParen s = Some body ->
  lacks ")" body /\ exists after, s = body ++ String ")" after.
Proof.
  revert body. induction s as [| c s IH]; intros body H; simpl in H;
    [discriminate H |].
  destruct (Ascii.eqb c ")") eqn:E.
  - inversion H. apply Ascii.eqb_eq in E. subst c. simpl.
    split; [exact I | exists s; reflexivity].
  - destruct (untilParen s) as [b |]; [| discriminate H].
    inversion H. destruct (IH b eq_refl) as [Hlacks [after Hs]].
    apply Ascii.eqb_neq in E. simpl.
    split; [split; assumption |]. exists after. rewrite Hs at 1.
    reflexivity.
Qed.

Lemma matchImageAt_spec (s m : string) :
  matchImageAt s = Some m ->
  exists body after,
    s = "![image](data:image/" ++ body ++ String ")" after
    /\ m = "data:image/" ++ body
    /\ body <> EmptyString
    /\ lacks ")" body.
Proof.
  unfold matchImageAt. intros H.
  destruct (String.prefix "![image](data:image/" s) eqn:Hp;
    [| discriminate H].
  apply prefix_split in Hp. change (String.length "![image](data:image/")
    with 20%nat in Hp.
  destruct (untilParen (dropChars 20 s)) as [body |] eqn:Hu;
    [| discriminate H].
  destruct (JS.truthy_string body) eqn:Ht; [| discriminate H].
  inversion H. destruct (untilParen_spec _ _ Hu) as [Hlacks [after Hs]].
  exists body, after. rewrite Hs in Hp.
  repeat split; try assumption.
  intros Hempty. subst body. discriminate Ht.
Qed.

Lemma matchImage_prefix (s m : string) :
  matchImage s = Some m -> String.prefix "data:image" m = true.
Proof.
  induction s as [| c s IH]; simpl; [discriminate |].
  destruct (matchImageAt (String c s)) as [m' |] eqn:Hat; [| exact IH].
  intros H. inversion H; subst m'.
  destruct (matchImageAt_spec _ _ Hat) as [body [_ [_ [Hm _]]]].
  rewrite Hm. reflexivity.
Qed.

(** What the regular expression finds is a marked image link of the
    content: the text between [![image](] and the next closing parenthesis,
    which starts with [data:image/], goes on with at least one character and
    holds no closing parenthesis. *)
Theorem matched_image_is_a_link_of_the_content (s m : string) :
  matchImage s = Some m ->
  exists before body after,
    s = before ++ "![image](" ++ m ++ String ")" after
    /\ m = "data:image/" ++ body
    /\ body <> EmptyString
    /\ lacks ")" m.
Proof.
  induction s as [| c s IH]; simpl.
  - intros H. discriminate H.
  - destruct (matchImageAt (String c s)) as [m' |] eqn:Hat.
    + intros H. inversion H; subst m'.
      destruct (matchImageAt_spec _ _ Hat) as [body [after [Hs [Hm [Hne Hl]]]]].
      exists EmptyString, body, after. rewrite Hs, Hm. simpl.
      repeat split; try assumption; try discriminate.
    + intros H. destruct (IH H) as [before [body [after [Hs [Hm [Hne Hl]]]]]].
      exists (String c before), body, after. rewrite Hs at 1. simpl.
      repeat split; assumption.
Qed.

Lemma imageField_prefix (f : JSField) (img : string) :
  imageField f = Ok (Some img) -> String.prefix "data:image" img = true.
Proof.
  destruct f as [| s |]; simpl; try discriminate.
  destruct (String.prefix "data:image" s) eqn:E; intros H; inversion H.
  subst. exact E.
Qed.

Lemma fromParsed_prefix (o : option Parsed) (img : string) :
  fromParsed o = Ok img -> String.prefix "data:image" img = true.
Proof.
  unfold fromParsed, bind, noImageData.
  destruct o as [o |]; [| discriminate].
  destruct (imageField (parsed_url o)) as [[u |] | m] eqn:Hu;
    try discriminate.
  - intros H. inversion H; subst. apply (imageField_prefix _ _ Hu).
  - destruct (imageField (parsed_image o)) as [[i |] | m] eqn:Hi;
      try discriminate.
    intros H. inversion H; subst. apply (imageField_prefix _ _ Hi).
Qed.

Lemma extractImage_prefix (JSON_parse : string -> option Parsed)
    (response : Response) (img : string) :
  extractImage JSON_parse response = Ok img ->
  String.prefix "data:image" img = true /\ resp_ok response = true.
Proof.
  intros H. unfold extractImage, bind, noImageData in H.
  destruct (resp_ok response); [| discriminate H]. split; [| reflexivity].
  simpl in H.
  destruct (resp_choices response) as [choices | m]; [| discriminate H].
  destruct choices as [| [content |] rest]; try discriminate H.
  destruct content as [s | o].
  - destruct (JS.truthy_string s); [| discriminate H].
    destruct (matchImage s) as [m |] eqn:Hm.
    + inversion H; subst. apply (matchImage_prefix _ _ Hm).
    + destruct (String.prefix "data:image" s) eqn:Hs.
      * inversion H; subst. exact Hs.
      * apply (fromParsed_prefix (JSON_parse s) img H).
  - apply (fromParsed_prefix (Some o) img H).
Qed.

(** An answer of the API becomes an image only when it is one. Whatever
    [JSON.parse] makes of the content, an image extracted from a response is
    a non-empty string that starts with [data:image], and it comes from a
    response with an OK status; a response with another status is turned
    into the error that names the status and the body. *)
Theorem extracted_image_is_a_data_url (JSON_parse : string -> option Parsed)
    (response : Response) :
  (forall img,
      extractImage JSON_parse response = Ok img ->
      String.prefix "data:image" img = true
      /\ JS.truthy_string img = true
      /\ resp_ok response = true)
  /\ (resp_ok response = false ->
      extractImage JSON_parse response
      = Err ("API Error " ++ string_of_Z (resp_status response) ++ ": "
             ++ resp_text response)).
Proof.
  split.
  - intros img H.
    destruct (extractImage_prefix _ _ _ H) as [Hp Hok].
    repeat split; try assumption.
    destruct img; [discriminate Hp | reflexivity].
  - intros Hok. unfold extractImage. rewrite Hok. reflexivity.
Qed.

(** The message of a request lists the reference images, then the prompt:
    as many image parts as reference images, in their order, each a URL that
    starts with [data:] (an image that is one already is sent as it is, a
    bare base64 text gets the PNG header), and the prompt as the last
    part. *)
Theorem message_lists_images_then_prompt (prompt0 : string)
    (referenceImages : option (list string)) :
  List.length (messageContent prompt0 referenceImages)
  = S (List.length (JS.or_else referenceImages []))
  /\ nth_error (messageContent prompt0 referenceImages)
       (List.length (JS.or_else referenceImages []))
     = Some (TextPart prompt0)
  /\ (forall k img,
        nth_error (JS.or_else referenceImages []) k = Some img ->
        exists url,
          nth_error (messageContent prompt0 referenceImages) k
          = Some (ImageUrlPart url)
          /\ String.prefix "data:" url = true
          /\ (String.prefix "data:" img = true -> url = img)
          /\ (String.prefix "data:" img = false ->
              url = "data:image/png;base64," ++ img)).
Proof.
  unfold messageContent.
  destruct referenceImages as [imgs |]; simpl JS.or_else.
  - split; [rewrite length_app, length_map; simpl; lia |].
    split.
    + rewrite nth_error_app2 by (rewrite length_map; lia).
      rewrite length_map, Nat.sub_diag. reflexivity.
    + intros k img Hk.
      exists (if String.prefix "data:" img then img
              else "data:image/png;base64," ++ img).
      split.
      * rewrite nth_error_app1
          by (rewrite length_map; apply nth_error_Some; congruence).
        rewrite nth_error_map, Hk. reflexivity.
      * destruct (String.prefix "data:" img) eqn:E.
        -- repeat split; try assumption; try reflexivity. discriminate.
        -- repeat split; try reflexivity. discriminate.
  - split; [reflexivity |]. split; [reflexivity |].
    intros k img Hk. destruct k; discriminate Hk.
Qed.

Lemma Promise_all_map_Ok {A : Type} (results : list A) :
  Promise_all (map Ok results) = Ok results.
Proof.
  induction results as [| a rest IH]; simpl; [reflexivity |].
  rewrite IH. reflexivity.
Qed.

Lemma generate_fulfilled (env : Env) (options : GenerateImageOptions)
    (settings : SystemSettings) (results : list string) :
  generateImageWithGemini env options settings = Ok results ->
  JS.truthy (apiKey env) = true
  /\ List.length results
     = Z.to_nat (JS.or_else (opt_numberOfImages options) 1)
  /\ forall i,
       (i < Z.to_nat (JS.or_else (opt_numberOfImages options) 1%Z))%nat ->
       exists img,
         performSingleGeneration env options (modelIdOf settings) i = Ok img
         /\ nth_error results i = Some img.
Proof.
  unfold generateImageWithGemini. intros H.
  destruct (JS.truthy (apiKey env)); [| discriminate H]. simpl in H.
  apply Promise_all_fulfils in H. unfold Array_from in H.
  split; [reflexivity |].
  assert (Hlen : List.length results
                 = Z.to_nat (JS.or_else (opt_numberOfImages options) 1)).
  { apply (f_equal (@List.length _)) in H.
    rewrite !length_map, length_seq in H. symmetry. exact H. }
  split; [exact Hlen |]. intros i Hi.
  assert (Hnth : nth_error
                   (map (fun i => performSingleGeneration env options
                                    (modelIdOf settings) i)
                      (seq 0 (Z.to_nat
                                (JS.or_else (opt_numberOfImages options)
                                   1)))) i
                 = Some (performSingleGeneration env options
                           (modelIdOf settings) i)).
  { apply (Array_from_nth _ _ _ Hi). }
  rewrite H, nth_error_map in Hnth.
  destruct (nth_error results i) as [img |]; [| discriminate Hnth].
  inversion Hnth. exists img. auto.
Qed.

(** The service answers with one image per image asked for, in the order
    of the requests, or not at all. Without an API key it fails whatever the
    API would answer. With a key, it succeeds exactly when every one of the
    parallel requests does, and then its result holds, at each index, the
    image of the request of that index. *)
Theorem service_returns_one_image_per_request (env : Env)
    (options : GenerateImageOptions) (settings : SystemSettings) :
  (JS.truthy (apiKey env) = false ->
   generateImageWithGemini env options settings
   = Err "API Key is missing. Please ensure you have configured an API key.")
  /\ (forall results,
        generateImageWithGemini env options settings = Ok results ->
        JS.truthy (apiKey env) = true
        /\ List.length results
           = Z.to_nat (JS.or_else (opt_numberOfImages options) 1)
        /\ forall i,
             (i < Z.to_nat (JS.or_else (opt_numberOfImages options) 1%Z))%nat ->
             exists img,
               performSingleGeneration env options (modelIdOf settings) i
               = Ok img
               /\ nth_error results i = Some img)
  /\ (forall images : nat -> string,
        JS.truthy (apiKey env) = true ->
        (forall i,
            (i < Z.to_nat (JS.or_else (opt_numberOfImages options) 1%Z))%nat ->
            performSingleGeneration env options (modelIdOf settings) i
            = Ok (images i)) ->
        generateImageWithGemini env options settings
        = Ok (map images
                (seq 0 (Z.to_nat
                          (JS.or_else (opt_numberOfImages options) 1))))).
Proof.
  unfold generateImageWithGemini.
  split; [intros Hkey; rewrite Hkey; reflexivity |]. split.
  - intros results H. apply generate_fulfilled.
    unfold generateImageWithGemini. exact H.
  - intros images Hkey Hall. rewrite Hkey. simpl. unfold Array_from.
    rewrite <- Promise_all_map_Ok. f_equal. rewrite map_map.
    apply map_ext_in. intros i Hi. apply in_seq in Hi. apply Hall. lia.
Qed.

End Service.

(** ** Generation, from trigger to result *)

Section Triggering.

Lemma requestOf_buildRequest (env : Env) (ns : list Node)
    (conns : list Connection) (nodeId : string)
    (options : GenerateImageOptions) (settings : SystemSettings) :
  requestOf env ns conns nodeId = Some (options, settings) ->
  exists targetNode compiledPrompt,
    JS.find (fun n => String.eqb (id n) nodeId) ns = Some targetNode
    /\ compilePrompt targetNode = Some compiledPrompt
    /\ buildRequest env targetNode compiledPrompt
         (sourceNodes ns conns nodeId) = Ok (options, settings).
Proof.
  unfold requestOf. intros H.
  destruct (JS.find (fun n => String.eqb (id n) nodeId) ns)
    as [targetNode |] eqn:Hfind; [| discriminate H].
  destruct (compilePrompt targetNode) as [compiledPrompt |] eqn:Hprompt;
    [| discriminate H].
  destruct (buildRequest env targetNode compiledPrompt
              (sourceNodes ns conns nodeId)) as [request | m] eqn:Hreq;
    [| discriminate H].
  inversion H. subst request. exists targetNode, compiledPrompt. auto.
Qed.

(** A trigger that succeeds stores the whole batch. When the request of a
    call is sent and the service answers with images, the target node ends
    with status [success], with the images as its batch, as many as were
    asked for, the first of them as active image and 0 as selected index;
    its configuration, layers and everything else are as before, and the
    other nodes are untouched. *)
Theorem successful_trigger_stores_the_batch (env : Env) (ns : list Node)
    (conns : list Connection) (nodeId : string)
    (options : GenerateImageOptions) (settings : SystemSettings)
    (resultImages : list string) :
  requestOf env ns conns nodeId = Some (options, settings) ->
  generateImageWithGemini env options settings = Ok resultImages ->
  (exists targetNode,
      JS.find (fun n => String.eqb (id n) nodeId) ns = Some targetNode
      /\ List.length resultImages = Z.to_nat (requestedCount targetNode))
  /\ forall (k : nat) (n : Node),
       nth_error ns k = Some n ->
       exists n',
         nth_error (handleTriggerGeneration env ns conns nodeId) k = Some n'
         /\ (id n = nodeId ->
             status (data n') = Some success
             /\ generatedImages (data n') = Some resultImages
             /\ generatedImage (data n') = JS.get resultImages 0
             /\ selectedImageIndex (data n') = Some 0
             /\ coherent (data n')
             /\ model (data n') = model (data n)
             /\ aspectRatio (data n') = aspectRatio (data n)
             /\ imageResolution (data n') = imageResolution (data n)
             /\ numberOfImages (data n') = numberOfImages (data n)
             /\ layers (data n') = layers (data n)
             /\ prompt (data n') = prompt (data n)
             /\ imageUrl (data n') = imageUrl (data n)
             /\ annotations (data n') = annotations (data n)
             /\ displayId (data n') = displayId (data n)
             /\ id n' = id n /\ type n' = type n
             /\ position n' = position n)
         /\ (id n <> nodeId -> n' = n).
Proof.
  intros Hreq Hgen.
  destruct (requestOf_buildRequest _ _ _ _ _ _ Hreq)
    as [targetNode [compiledPrompt [Hfind [Hprompt Hbuild]]]].
  split.
  - exists targetNode. split; [exact Hfind |].
    destruct (generate_fulfilled _ _ _ _ Hgen) as [_ [Hlen _]].
    destruct (buildRequest_options _ _ _ _ _ _ Hbuild) as [Hn _].
    rewrite Hlen, Hn. reflexivity.
  - intros k n Hn. unfold handleTriggerGeneration.
    rewrite Hfind, Hprompt. unfold outcome, bind. rewrite Hbuild, Hgen.
    simpl. eexists. split.
    + apply updateNodeData_nth. apply updateNodeData_nth. exact Hn.
    + split.
      * intros Heq. apply String.eqb_eq in Heq. rewrite Heq. simpl.
        rewrite Heq. unfold coherent. simpl. repeat split; reflexivity.
      * intros Hneq. apply String.eqb_neq in Hneq. rewrite Hneq, Hneq.
        reflexivity.
Qed.

Lemma activeLayers_none (targetNode : Node) :
  (forall l, In l (JS.or_else (layers (data targetNode)) []) ->
             isEnabled l = false \/ JS.trim (layer_prompt l) = EmptyString) ->
  activeLayers targetNode = [].
Proof.
  intros H. unfold activeLayers.
  induction (JS.or_else (layers (data targetNode)) []) as [| l rest IH];
    simpl; [reflexivity |].
  destruct (H l (or_introl eq_refl)) as [Hl | Hl]; rewrite Hl; simpl;
    try rewrite andb_false_r; apply IH; intros l' Hin; apply H; right;
    exact Hin.
Qed.

(** A trigger without a prompt does nothing at all. When the node is not on
    the canvas, or when none of its layers is enabled with a text that is
    not blank and its legacy prompt is absent or empty, the handler returns
    before its first update: the store is as before, not even the status
    changes, and no request is built. *)
Theorem trigger_without_prompt_does_nothing (env : Env) (ns : list Node)
    (conns : list Connection) (nodeId : string) :
  (forall targetNode,
      JS.find (fun n => String.eqb (id n) nodeId) ns = Some targetNode ->
      (forall l, In l (JS.or_else (layers (data targetNode)) []) ->
                 isEnabled l = false
                 \/ JS.trim (layer_prompt l) = EmptyString)
      /\ JS.truthy (prompt (data targetNode)) = false) ->
  handleTriggerGeneration env ns conns nodeId = ns
  /\ requestOf env ns conns nodeId = None.
Proof.
  intros H. unfold handleTriggerGeneration, requestOf.
  destruct (JS.find (fun n => String.eqb (id n) nodeId) ns)
    as [targetNode |]; [| auto].
  destruct (H targetNode eq_refl) as [Hlayers Hprompt].
  unfold compilePrompt. rewrite (activeLayers_none _ Hlayers), Hprompt.
  simpl. auto.
Qed.

Lemma collectReferences_bake_fails (env : Env) (sources : list Node)
    (n : Node) (m : string) :
  In n sources ->
  Spec.referenced env n = Some (Err m) ->
  forall i refs notes,
    exists m', collectReferences env sources i refs notes = Err m'.
Proof.
  induction sources as [| node rest IH]; intros Hin Href i refs notes;
    [contradiction Hin |].
  rewrite collectReferences_step.
  destruct Hin as [Heq | Hin].
  - subst node. rewrite Href. simpl. eauto.
  - destruct (Spec.referenced env node) as [[img | m0] |]; simpl;
      [apply IH | eauto | apply IH]; assumption.
Qed.

(** A trigger that cannot send its request ends in error. When the prompt
    is there but nobody is signed in, or the image of one of the source
    nodes cannot be baked, no request is built, and every node with the id
    of the target ends with status [error] and without result images; its
    configuration and layers are kept. *)
Theorem trigger_fails_before_request (env : Env) (ns : list Node)
    (conns : list Connection) (nodeId : string) (targetNode : Node)
    (compiledPrompt : string) :
  JS.find (fun n => String.eqb (id n) nodeId) ns = Some targetNode ->
  compilePrompt targetNode = Some compiledPrompt ->
  (user env = None
   \/ exists n m, In n (sourceNodes ns conns nodeId)
                  /\ Spec.referenced env n = Some (Err m)) ->
  requestOf env ns conns nodeId = None
  /\ forall n',
       In n' (handleTriggerGeneration env ns conns nodeId) ->
       id n' = nodeId ->
       status (data n') = Some error
       /\ generatedImages (data n') = None
       /\ generatedImage (data n') = None
       /\ exists n, In n ns /\ id n = nodeId
                    /\ layers (data n') = layers (data n)
                    /\ model (data n') = model (data n)
                    /\ numberOfImages (data n') = numberOfImages (data n).
Proof.
  intros Hfind Hprompt Hwhy.
  assert (Hbuild : exists m,
             buildRequest env targetNode compiledPrompt
               (sourceNodes ns conns nodeId) = Err m).
  { unfold buildRequest, bind. destruct Hwhy as [Huser | [n [m [Hin Href]]]].
    - destruct (collectReferences env (sourceNodes ns conns nodeId) 0 [] [])
        as [[refs notes] | m]; [rewrite Huser |]; eauto.
    - destruct (collectReferences_bake_fails _ _ _ _ Hin Href 0 [] [])
        as [m' Hm']. rewrite Hm'. eauto. }
  destruct Hbuild as [m Hm]. split.
  - unfold requestOf. rewrite Hfind, Hprompt, Hm. reflexivity.
  - intros n' Hin Hid. unfold handleTriggerGeneration in Hin.
    rewrite Hfind, Hprompt in Hin. unfold outcome, bind in Hin.
    rewrite Hm in Hin. simpl in Hin.
    apply updateNodeData_in in Hin; [| exact Hid].
    destruct Hin as [n1 [Hin1 [Hid1 Heq1]]].
    apply updateNodeData_in in Hin1; [| exact Hid1].
    destruct Hin1 as [n0 [Hin0 [Hid0 Heq0]]].
    subst n' n1. simpl. repeat split; try reflexivity.
    exists n0. repeat split; assumption.
Qed.

Lemma collectReferences_counts (env : Env) (sources : list Node) :
  forall i refs notes refs' notes',
    collectReferences env sources i refs notes = Ok (refs', notes') ->
    List.length refs'
    = (List.length refs + List.length (Spec.contributors env sources))%nat
    /\ List.length notes'
       = (List.length notes
          + List.length (Spec.contributors env sources))%nat.
Proof.
  induction sources as [| node rest IH]; intros i refs notes refs' notes' H.
  - inversion H. simpl. lia.
  - rewrite collectReferences_step in H. rewrite contributors_cons.
    destruct (Spec.referenced env node) as [[img | m] |]; simpl in H;
      [| discriminate H | apply (IH _ _ _ _ _ H)].
    destruct (IH _ _ _ _ _ H) as [Hrefs Hnotes].
    rewrite !length_app in Hrefs, Hnotes. simpl in *. lia.
Qed.

(** The prompt sent extends the compiled prompt. The request built starts
    with the compiled prompt; when no source node contributes an image the
    prompt is exactly the compiled prompt and no reference image list is
    sent; otherwise the list holds one image for each contributing node. A
    user is signed in, and the model named is not the empty string. *)
Theorem request_extends_compiled_prompt (env : Env) (targetNode : Node)
    (compiledPrompt : string) (sources : list Node)
    (options : GenerateImageOptions) (settings : SystemSettings) :
  buildRequest env targetNode compiledPrompt sources
  = Ok (options, settings) ->
  String.prefix compiledPrompt (opt_prompt options) = true
  /\ (Spec.contributors env sources = [] ->
      opt_prompt options = compiledPrompt
      /\ opt_referenceImages options = None)
  /\ (Spec.contributors env sources <> [] ->
      exists refs,
        opt_referenceImages options = Some refs
        /\ List.length refs = List.length (Spec.contributors env sources))
  /\ user env <> None
  /\ modelName settings <> EmptyString.
Proof.
  unfold buildRequest, bind. intros H.
  destruct (collectReferences env sources 0 [] []) as [[refs notes] | m]
    eqn:Hcollect; [| discriminate H].
  destruct (user env) as [u |] eqn:Huser; [| discriminate H].
  destruct (collectReferences_counts _ _ _ _ _ _ _ Hcollect)
    as [Hrefs Hnotes].
  simpl in Hrefs, Hnotes. inversion H. simpl.
  split; [| split; [| split; [| split]]].
  - unfold finalPrompt. destruct (Nat.ltb 0 (List.length notes));
      [apply prefix_app |].
    clear. induction compiledPrompt as [| c s IH]; simpl; [reflexivity |].
    destruct (ascii_dec c c) as [_ | Hne];
      [exact IH | contradiction Hne; reflexivity].
  - intros Hnone. rewrite Hnone in Hrefs, Hnotes. simpl in Hrefs, Hnotes.
    unfold finalPrompt. rewrite Hrefs, Hnotes. auto.
  - intros Hsome. exists refs.
    destruct (Spec.contributors env sources) as [| c cs];
      [contradiction Hsome; reflexivity |].
    simpl in Hrefs. rewrite Hrefs. simpl. auto.
  - discriminate.
  - destruct (model (data targetNode)) as [[| c s] |]; simpl; discriminate.
Qed.

(** The images of the service can always be selected. When the requests go
    through the service, every image of a successful batch starts with
    [data:image], so is not empty; on a node that holds such a batch,
    selecting any index of the batch takes effect: the index becomes the
    selected one and its image the active one. *)
Theorem service_images_can_always_be_selected
    (currentUser key : option string)
    (bake : string -> list Annotation -> Result string)
    (JSON_parse : string -> option Parsed)
    (fetch : RequestBody -> nat -> Result Response)
    (options : GenerateImageOptions) (settings : SystemSettings)
    (resultImages : list string) :
  generateImageWithGemini
    (serviceEnv currentUser key bake JSON_parse fetch) options settings
  = Ok resultImages ->
  Forall (fun img => String.prefix "data:image" img = true) resultImages
  /\ forall (node : Node) (index : Z),
       generatedImages (data node) = Some resultImages ->
       0 <= index < Z.of_nat (List.length resultImages) ->
       exists patch img,
         NodeComponent.handleSelectGeneratedImage node index = Some patch
         /\ JS.get resultImages index = Some img
         /\ selectedImageIndex (patch (data node)) = Some index
         /\ generatedImage (patch (data node)) = Some img
         /\ coherent (patch (data node)).
Proof.
  intros Hgen.
  destruct (generate_fulfilled _ _ _ _ Hgen) as [_ [Hlen Hnth]].
  assert (Hall : Forall (fun img => String.prefix "data:image" img = true)
                   resultImages).
  { apply Forall_forall. intros img Hin.
    apply In_nth_error in Hin. destruct Hin as [i Hi].
    assert (Hlt : (i < List.length resultImages)%nat)
      by (apply nth_error_Some; congruence).
    rewrite Hlen in Hlt. destruct (Hnth i Hlt) as [img' [Hperform Himg']].
    rewrite Hi in Himg'. inversion Himg'; subst img'.
    simpl in Hperform. unfold bind in Hperform.
    destruct (fetch (requestBody options (modelIdOf settings)) i)
      as [response | m]; [| discriminate Hperform].
    apply (extractImage_prefix JSON_parse response img Hperform). }
  split; [exact Hall |].
  intros node index Himgs Hindex.
  unfold NodeComponent.handleSelectGeneratedImage. rewrite Himgs.
  unfold JS.get at 1 2.
  destruct (index <? 0) eqn:Hneg; [apply Z.ltb_lt in Hneg; lia |].
  destruct (nth_error resultImages (Z.to_nat index)) as [img |] eqn:Himg;
    [| apply nth_error_None in Himg; lia].
  rewrite Forall_forall in Hall.
  assert (Hdata : String.prefix "data:image" img = true)
    by (apply Hall; eapply nth_error_In; exact Himg).
  assert (Htruthy : JS.truthy (Some img) = true)
    by (destruct img; [discriminate Hdata | reflexivity]).
  rewrite Htruthy. eexists. exists img.
  split; [reflexivity |].
  unfold coherent, JS.get. simpl. rewrite Himgs, Hneg, Himg.
  repeat split; reflexivity.
Qed.

End Triggering.

(** ** Selecting an image of a batch *)

Section Selecting.

Import NodeComponent.

Local Open Scope Z_scope.

Variables NODE_WIDTH_UPLOAD NODE_WIDTH_GEN : Q.

(** What the service returns are data URLs of images. *)
Lemma served_prefixed (imgs : list string) :
  served imgs ->
  Forall (fun img => String.prefix "data:image" img = true) imgs.
Proof.
  intros [currentUser [key [bake [JSON_parse [fetch [options [settings
            Hgen]]]]]]].
  destruct (generate_fulfilled _ _ _ _ Hgen) as [_ [Hlen Hnth]].
  apply Forall_forall. intros img Hin.
  apply In_nth_error in Hin. destruct Hin as [i Hi].
  assert (Hlt : (i < List.length imgs)%nat)
    by (apply nth_error_Some; congruence).
  rewrite Hlen in Hlt. destruct (Hnth i Hlt) as [img' [Hperform Himg']].
  rewrite Hi in Himg'. inversion Himg'; subst img'.
  simpl in Hperform. unfold bind in Hperform.
  destruct (fetch (requestBody options (modelIdOf settings)) i)
    as [response | m]; [| discriminate Hperform].
  apply (extractImage_prefix JSON_parse response img Hperform).
Qed.

Lemma get_in {A : Type} (l : list A) (i : Z) (a : A) :
  JS.get l i = Some a -> In a l.
Proof.
  unfold JS.get. destruct (i <? 0); [discriminate |].
  apply nth_error_In.
Qed.

Lemma batches_map (st st' : State) (f : Node -> Node) :
  (forall n, batchServed (data n) -> batchServed (data (f n))) ->
  nodes st' = map f (nodes st) ->
  batchesServed st -> batchesServed st'.
Proof.
  unfold batchesServed. intros Hf Hnodes H. rewrite Hnodes.
  apply Forall_map. eapply Forall_impl; [| exact H]. exact Hf.
Qed.

Lemma batches_same (st st' : State) :
  nodes st' = nodes st -> batchesServed st -> batchesServed st'.
Proof.
  unfold batchesServed. intros Hnodes H. rewrite Hnodes. exact H.
Qed.

Lemma batches_filter (st st' : State) (f : Node -> bool) :
  nodes st' = filter f (nodes st) -> batchesServed st -> batchesServed st'.
Proof.
  unfold batchesServed. intros Hnodes H. rewrite Hnodes.
  apply Forall_forall. intros n Hn. apply filter_In in Hn.
  rewrite Forall_forall in H. apply H. apply Hn.
Qed.

Lemma batches_update (st : State) (nodeId : string) (patch : Patch) :
  (forall d, batchServed d -> batchServed (patch d)) ->
  batchesServed st ->
  batchesServed (set_nodes st (updateNodeData (nodes st) nodeId patch)).
Proof.
  intros Hpatch.
  apply (batches_map st _
           (fun n => if String.eqb (id n) nodeId
                     then set_data n (patch (data n)) else n));
    [| reflexivity].
  intros n Hn. destruct (String.eqb (id n) nodeId); [| exact Hn].
  apply Hpatch. exact Hn.
Qed.

(** A patch that leaves the batch alone. *)
Lemma batch_kept (patch : Patch) :
  (forall d, generatedImages (patch d) = generatedImages d) ->
  forall d, batchServed d -> batchServed (patch d).
Proof.
  unfold batchServed. intros Hpatch d H. rewrite Hpatch. exact H.
Qed.

Lemma patchOf_keeps_batch (node : Node) (e : NodeEvent) (patch : Patch) :
  patchOf node e = Some patch ->
  forall d, generatedImages (patch d) = generatedImages d.
Proof.
  destruct e; simpl;
    unfold handleImageClick, handleFileChange, handleSelectGeneratedImage;
    repeat break_match; intros H; inversion H; intros ?; reflexivity.
Qed.

Lemma layerPatchOf_keeps_batch (node : Node) (e : LayerEvent)
    (patch : Patch) :
  layerPatchOf node e = Some patch ->
  forall d, generatedImages (patch d) = generatedImages d.
Proof.
  destruct e; simpl; unfold deleteLayer; repeat break_match;
    intros H; inversion H; intros ?; reflexivity.
Qed.

Lemma insertLabel_batches (st : State) (sourceNodeId : string)
    (label : Node -> string) :
  batchesServed st -> batchesServed (insertLabel st sourceNodeId label).
Proof.
  intros H. unfold insertLabel. repeat break_match; try exact H.
  apply batches_update; [| exact H].
  apply batch_kept. intros ?; reflexivity.
Qed.

(** No handler stores a batch that the service did not return. *)
Lemma act_batchesServed (c : Canvas) (a : Action) :
  servedAction a ->
  batchesServed (view c) ->
  batchesServed (view (act NODE_WIDTH_UPLOAD NODE_WIDTH_GEN c a)).
Proof.
  intros Ha H.
  destruct a; simpl;
    try (apply (batches_same (view c)); [| exact H];
         unfold deleteConnection, handleNodeSelect, handleConnectionSelect,
           handleZoomIn, handleZoomOut, handleResetZoom, handleWheel,
           handleMouseDown, handleNodeMouseDown, handleStartConnection,
           handleMouseUp;
         repeat break_match; reflexivity).
  - unfold batchesServed. simpl. apply Forall_app. split; [exact H |].
    constructor; [| constructor]. unfold batchServed. simpl. exact I.
  - apply (batches_filter (view c) _
             (fun n => negb (String.eqb (id n) nodeId)));
      [reflexivity | exact H].
  - unfold handleKeyDown, set_selectedNodeId, set_selectedConnectionId.
    repeat break_match;
      try (apply (batches_same (view c)); [reflexivity | exact H]);
      match goal with
      | Hsel : selectedNodeId (view c) = Some ?s |- _ =>
          apply (batches_filter (view c) _
                   (fun n => negb (String.eqb (id n) s)));
            [reflexivity | exact H]
      end.
  - unfold handleMouseMove. repeat break_match;
      try (apply (batches_same (view c)); [reflexivity | exact H]).
    match goal with
    | |- batchesServed (set_nodes _ (map ?f _)) =>
        apply (batches_map (view c) _ f); [| reflexivity | exact H]
    end.
    intros n Hn. break_match; exact Hn.
  - apply insertLabel_batches. exact H.
  - apply insertLabel_batches. exact H.
  - unfold nodeStep. repeat break_match;
      try (apply (batches_same (view c)); [reflexivity | exact H]).
    apply batches_update; [| exact H].
    apply batch_kept. eapply patchOf_keeps_batch. eassumption.
  - unfold layerStep. repeat break_match;
      try (apply (batches_same (view c)); [reflexivity | exact H]).
    apply batches_update; [| exact H].
    apply batch_kept. eapply layerPatchOf_keeps_batch. eassumption.
  - apply batches_update; [| exact H].
    apply batch_kept. destruct c0; intros ?; reflexivity.
  - destruct e as [call nodeId | call nodeId [imgs | m]]; simpl;
      (apply batches_update; [| exact H]).
    + intros d _. exact I.
    + intros d _. unfold batchServed. simpl. apply served_prefixed.
      exact Ha.
    + apply batch_kept. intros ?; reflexivity.
Qed.

Lemma run_batchesServed (actions : list Action) :
  forall c,
    Forall servedAction actions ->
    batchesServed (view c) ->
    batchesServed
      (view (fold_left (act NODE_WIDTH_UPLOAD NODE_WIDTH_GEN) actions c)).
Proof.
  induction actions as [| a rest IH]; intros c Hall H; simpl; [exact H |].
  inversion Hall as [| a' rest' Ha Hrest]; subst.
  apply IH; [exact Hrest |]. apply act_batchesServed; assumption.
Qed.

(** C9. On the canvas, where the batches of the nodes are those that the
    service returned, selecting the generated image at index [i] does
    nothing when the node has no list of generated images or the list has no
    element at [i]; otherwise it sets [selectedImageIndex] to [i] and
    [generatedImage] to the element at [i] and leaves the list and the rest
    of the node as they are. After a selection, and after a successful
    generation (which stores the batch, index 0 and the first image), the
    active image is the element of the list at the selected index. *)
Theorem select_generated_image (rect : option DOMRect)
    (actions : list Action) (node : Node) (index : Z) :
  Forall servedAction actions ->
  In node
    (nodes (view (canvasAfter NODE_WIDTH_UPLOAD NODE_WIDTH_GEN rect
                    actions))) ->
  (handleSelectGeneratedImage node index = None <->
     generatedImages (data node) = None
     \/ exists imgs,
          generatedImages (data node) = Some imgs
          /\ JS.get imgs index = None)
  /\ (handleSelectGeneratedImage node index = None ->
      forall ns,
        JS.find (fun n => String.eqb (id n) (id node)) ns = Some node ->
        nodeStep (id node) ns (SelectGeneratedImage index) = ns)
  /\ (forall imgs img,
        generatedImages (data node) = Some imgs ->
        JS.get imgs index = Some img ->
        exists patch,
          handleSelectGeneratedImage node index = Some patch
          /\ selectedImageIndex (patch (data node)) = Some index
          /\ generatedImage (patch (data node)) = Some img
          /\ generatedImages (patch (data node)) = Some imgs
          /\ coherent (patch (data node))
          /\ status (patch (data node)) = status (data node)
          /\ layers (patch (data node)) = layers (data node)
          /\ model (patch (data node)) = model (data node)
          /\ numberOfImages (patch (data node)) = numberOfImages (data node)
          /\ forall ns,
               JS.find (fun n => String.eqb (id n) (id node)) ns
               = Some node ->
               nodeStep (id node) ns (SelectGeneratedImage index)
               = updateNodeData ns (id node) patch)
  /\ (forall resultImages d,
        coherent (successPatch resultImages d)
        /\ generatedImages (successPatch resultImages d)
           = Some resultImages
        /\ selectedImageIndex (successPatch resultImages d) = Some 0
        /\ generatedImage (successPatch resultImages d)
           = JS.get resultImages 0).
Proof.
  intros Hserved Hin.
  assert (Hbatch : batchServed (data node)).
  { assert (Hall : batchesServed
                     (view (canvasAfter NODE_WIDTH_UPLOAD NODE_WIDTH_GEN
                              rect actions))).
    { unfold canvasAfter, runActions. apply run_batchesServed;
        [exact Hserved | constructor]. }
    unfold batchesServed in Hall. rewrite Forall_forall in Hall.
    apply Hall. exact Hin. }
  assert (Htruthy : forall imgs img,
             generatedImages (data node) = Some imgs ->
             JS.get imgs index = Some img ->
             JS.truthy (Some img) = true).
  { intros imgs img Himgs Hget. unfold batchServed in Hbatch.
    rewrite Himgs in Hbatch. rewrite Forall_forall in Hbatch.
    specialize (Hbatch img (get_in _ _ _ Hget)).
    destruct img; [discriminate Hbatch | reflexivity]. }
  split; [| split; [| split]].
  - unfold handleSelectGeneratedImage.
    destruct (generatedImages (data node)) as [imgs |] eqn:Himgs.
    + destruct (JS.get imgs index) as [img |] eqn:Hget.
      * rewrite (Htruthy imgs img eq_refl Hget). split; [discriminate |].
        intros [H | [imgs' [Heq H]]]; [discriminate H |].
        inversion Heq; subst imgs'. rewrite Hget in H. discriminate H.
      * simpl. split; [| reflexivity].
        intros _. right. exists imgs. auto.
    + split; [left |]; reflexivity.
  - intros Hnone ns Hfind. unfold nodeStep. rewrite Hfind. simpl.
    rewrite Hnone. reflexivity.
  - intros imgs img Himgs Hget.
    exists (set_selection index (Some img)).
    assert (Hpatch : handleSelectGeneratedImage node index
                     = Some (set_selection index (Some img))).
    { unfold handleSelectGeneratedImage. rewrite Himgs, Hget.
      rewrite (Htruthy imgs img Himgs Hget). reflexivity. }
    split; [exact Hpatch |].
    unfold coherent. simpl. rewrite Himgs, Hget.
    repeat split; try reflexivity.
    intros ns Hfind. unfold nodeStep. rewrite Hfind. simpl.
    rewrite Hpatch. reflexivity.
  - intros resultImages d. unfold coherent. simpl.
    repeat split; reflexivity.
Qed.

End Selecting.

(** ** The further properties on the sample canvases *)

Section MoreInstances.

Local Open Scope Q_scope.

(** The generator, pressed at (100, 100) and dragged by way of (120, 90) to
    (140, 160) at scale 2, ends at (420, 30). *)
Lemma node_drag_is_path_independent_witness :
  nodes (fold_left handleMouseMove
           ([mkMouseEvent 120 90] ++ [mkMouseEvent 140 160])
           (handleNodeMouseDown Sample2.twoNodes (mkMouseEvent 100 100)
              "node-9"))
  = map (placeNode "node-9"
           (mkPosition (400 + (140 - 100) / 2) (0 + (160 - 100) / 2)))
        [Sample.source1; Sample.generator].
Proof.
  destruct (node_drag_is_path_independent Sample2.twoNodes
              (mkMouseEvent 100 100) (mkMouseEvent 140 160) "node-9"
              Sample.generator [mkMouseEvent 120 90]) as [Hnodes _].
  - reflexivity.
  - discriminate.
  - exact Hnodes.
Defined.

(** The plug of node 1 released over the socket of the generator connects
    the two. *)
Lemma mouse_up_ends_drag_and_connects_at_most_once_witness :
  connections (handleMouseUp Sample2.plugDragged (mkMouseEvent 830 236)
                 "conn-1")
  = [mkConnection "conn-1" "node-1" "node-9"].
Proof.
  assert (H := mouse_up_ends_drag_and_connects_at_most_once
                 Sample2.plugDragged (mkMouseEvent 830 236) "conn-1").
  repeat (destruct H as [_ H]).
  apply (H "node-1"%string Sample.generator).
  - reflexivity.
  - reflexivity.
  - discriminate.
  - vm_compute. reflexivity.
  - reflexivity.
  - discriminate.
  - intros c [].
Defined.

Lemma input_socket_is_in_drop_region_witness :
  inDropRegion (getInputCoords Sample2.twoNodes "node-9") Sample.generator
  = true
  /\ inDropRegion (getOutputCoords Sample2.twoNodes "node-9")
       Sample.generator = false.
Proof.
  apply (input_socket_is_in_drop_region Sample2.twoNodes "node-9"
           Sample.generator).
  - reflexivity.
  - unfold Qle. simpl. lia.
Defined.

(** An annotation at (50, 50) on an image of 1000 by 500 is baked at
    (500, 250). *)
Lemma baked_markers_follow_annotations_witness :
  exists m,
    nth_error (bakedMarkers 1000 500 [mkAnnotation 1 50 50]) 0 = Some m
    /\ marker_x m == 1000 / 2
    /\ marker_y m == 500 / 2.
Proof.
  destruct (baked_markers_follow_annotations 1000 500
              [mkAnnotation 1 50 50]) as [_ [_ H]].
  destruct (H 0%nat (mkAnnotation 1 50 50) eq_refl)
    as [m [Hm [_ [_ [_ [_ [Hx Hy]]]]]]].
  exists m. split; [exact Hm |].
  split; [apply Hx | apply Hy]; reflexivity.
Defined.

(** The click at (70, 50) in the box at (10, 10) of 200 by 100 gives
    annotation 1, baked at (60, 40) on an image of the size of the box. *)
Lemma click_is_baked_where_it_landed_witness :
  exists a,
    annotations (Sample2.clickPatch (data Sample.source1))
    = Some ([] ++ [a])%list
    /\ ann_id a = 1%Z
    /\ exists m,
         bakedMarkers 200 100 [a] = [m]
         /\ marker_x m == 70 - 10 /\ marker_y m == 50 - 10.
Proof.
  destruct (click_is_baked_where_it_landed Sample2.clickRect Sample.source1
              70 50 Sample2.clickPatch) as [a [Ha [Hid [Hbaked _]]]].
  - reflexivity.
  - reflexivity.
  - reflexivity.
  - exists a. split; [exact Ha |]. split; [exact Hid |].
    destruct (Hbaked 200 100) as [m [Hm [_ [_ [Hx Hy]]]]].
    exists m. split; [exact Hm |].
    split; [apply Hx | apply Hy]; reflexivity.
Defined.

Local Open Scope Z_scope.

(** Deleting image node 2 leaves the generator with the sources 1 and 3. *)
Lemma deleteNode_cascades_witness :
  sourceNodes
    (nodes (deleteNode
              (Sample.canvas Sample.threeSources Sample.connections312)
              "node-2"))
    (connections (deleteNode
                    (Sample.canvas Sample.threeSources
                       Sample.connections312) "node-2"))
    "node-9"
  = filter (fun n => negb (String.eqb (id n) "node-2"))
      (sourceNodes Sample.threeSources Sample.connections312 "node-9").
Proof.
  assert (H := deleteNode_cascades
                 (Sample.canvas Sample.threeSources Sample.connections312)
                 "node-2").
  repeat (destruct H as [_ H]).
  apply (H "node-9"). discriminate.
Defined.

(** With the layers A, B (enabled) and C (disabled), the label goes to B. *)
Lemma label_is_appended_to_last_enabled_layer_witness :
  exists t l,
    nth_error Sample.layersABC t = Some l
    /\ nth_error (appendLabel Sample.layersABC "[图1]") t
       = Some (mkLayer (layer_id l) (layer_name l)
                 (layer_prompt l ++ "[图1]") (isEnabled l))
    /\ isEnabled l = true.
Proof.
  destruct (label_is_appended_to_last_enabled_layer Sample.layersABC "[图1]")
    as [t [l [Hl [Hnew [_ [_ [_ Hwhich]]]]]]].
  - discriminate.
  - exists t, l. split; [exact Hl |]. split; [exact Hnew |].
    destruct Hwhich as [Henabled | [_ Hnone]]; [exact Henabled |].
    specialize (Hnone (mkLayer "layer-1" "基础图层" "A" true)
                  (or_introl eq_refl)).
    discriminate Hnone.
Defined.

(** A layer added to the generator and both layers deleted in turn: the
    second deletion is refused. *)
Lemma generator_keeps_a_layer_witness :
  (1 <= List.length
          (currentLayers "node-9"
             (fold_left (layerStep "node-9")
                [AddLayer "layer-2"; DeleteLayer "layer-1";
                 DeleteLayer "layer-2"]
                [Sample.generator])))%nat.
Proof.
  destruct (generator_keeps_a_layer "node-9"
              [AddLayer "layer-2"; DeleteLayer "layer-1";
               DeleteLayer "layer-2"]
              [Sample.generator]) as [H _].
  - simpl. repeat constructor. intros [].
  - simpl. lia.
  - simpl. repeat split. intros [H | []]. discriminate H.
  - exact H.
Defined.

Lemma download_decodes_data_url_payload_witness :
  base64Data "data:image/png;base64,AAAA" = "AAAA".
Proof.
  destruct (download_decodes_data_url_payload "data:image/png;base64" "AAAA")
    as [H _].
  apply H.
  - reflexivity.
  - simpl. repeat split; discriminate.
  - simpl. repeat split; discriminate.
  - discriminate.
Defined.

Lemma matched_image_is_a_link_of_the_content_witness :
  exists before body after,
    Sample2.linkContent
    = before ++ "![image](" ++ Sample.resultA ++ String ")" after
    /\ Sample.resultA = "data:image/" ++ body
    /\ body <> EmptyString
    /\ lacks ")" Sample.resultA.
Proof.
  apply (matched_image_is_a_link_of_the_content Sample2.linkContent
           Sample.resultA).
  vm_compute. reflexivity.
Defined.

Lemma extracted_image_is_a_data_url_witness :
  String.prefix "data:image" Sample.resultA = true
  /\ JS.truthy_string Sample.resultA = true
  /\ resp_ok Sample2.goodResponse = true.
Proof.
  destruct (extracted_image_is_a_data_url (fun _ => None)
              Sample2.goodResponse) as [H _].
  apply H. vm_compute. reflexivity.
Defined.

(** A data URL and a bare base64 text as reference images: the second is
    sent with the PNG header. *)
Lemma message_lists_images_then_prompt_witness :
  exists url,
    nth_error (messageContent "enhance" (Some [Sample.image1; "BBBB"])) 1
    = Some (ImageUrlPart url)
    /\ String.prefix "data:" url = true
    /\ (String.prefix "data:" "BBBB" = false ->
        url = "data:image/png;base64," ++ "BBBB").
Proof.
  destruct (message_lists_images_then_prompt "enhance"
              (Some [Sample.image1; "BBBB"])) as [_ [_ H]].
  destruct (H 1%nat "BBBB" eq_refl) as [url [Hurl [Hdata [_ Hraw]]]].
  exists url. auto.
Defined.

Lemma service_returns_one_image_per_request_witness :
  generateImageWithGemini Sample.env Sample2.optionsOfTwo systemSettings
  = Ok (map (fun _ => Sample.resultA) (seq 0 (Z.to_nat 2))).
Proof.
  destruct (service_returns_one_image_per_request Sample.env
              Sample2.optionsOfTwo systemSettings) as [_ [_ H]].
  apply (H (fun _ => Sample.resultA)).
  - reflexivity.
  - intros i Hi. reflexivity.
Defined.

Lemma successful_trigger_stores_the_batch_witness :
  exists n',
    nth_error
      (handleTriggerGeneration Sample.env Sample2.nodesOfTwo
         Sample2.connectionsOfTwo "node-9") 1 = Some n'
    /\ status (data n') = Some success
    /\ generatedImages (data n') = Some [Sample.resultA; Sample.resultA]
    /\ generatedImage (data n') = Some Sample.resultA.
Proof.
  destruct (successful_trigger_stores_the_batch Sample.env
              Sample2.nodesOfTwo Sample2.connectionsOfTwo "node-9"
              Sample2.sentOptions Sample2.sentSettings
              [Sample.resultA; Sample.resultA]) as [_ H].
  - vm_compute. reflexivity.
  - vm_compute. reflexivity.
  - destruct (H 1%nat Sample.generatorOfTwo eq_refl) as [n' [Hn' [Hset _]]].
    destruct (Hset eq_refl) as [Hstatus [Himgs [Himg _]]].
    exists n'. auto.
Defined.

(** The trigger of a generator just added, with its empty layer, is
    ignored. *)
Lemma trigger_without_prompt_does_nothing_witness :
  handleTriggerGeneration Sample.env [Sample2.freshGenerator] [] "node-9"
  = [Sample2.freshGenerator]
  /\ requestOf Sample.env [Sample2.freshGenerator] [] "node-9" = None.
Proof.
  apply (trigger_without_prompt_does_nothing Sample.env
           [Sample2.freshGenerator] [] "node-9").
  intros targetNode Hfind. inversion Hfind. subst targetNode. split.
  - intros l [Hl | []]. subst l. right. reflexivity.
  - reflexivity.
Defined.

Lemma trigger_fails_before_request_witness :
  requestOf Sample2.signedOut Sample2.nodesOfTwo Sample2.connectionsOfTwo
    "node-9" = None.
Proof.
  destruct (trigger_fails_before_request Sample2.signedOut
              Sample2.nodesOfTwo Sample2.connectionsOfTwo "node-9"
              Sample.generatorOfTwo "enhance") as [H _].
  - reflexivity.
  - vm_compute. reflexivity.
  - left. reflexivity.
  - exact H.
Defined.

Lemma request_extends_compiled_prompt_witness :
  String.prefix "enhance" (opt_prompt Sample2.sentOptions) = true.
Proof.
  destruct (request_extends_compiled_prompt Sample.env
              Sample.generatorOfTwo "enhance" [Sample.source1]
              Sample2.sentOptions Sample2.sentSettings) as [H _].
  - vm_compute. reflexivity.
  - exact H.
Defined.

Lemma service_images_can_always_be_selected_witness :
  Forall (fun img => String.prefix "data:image" img = true)
    [Sample.resultA; Sample.resultA].
Proof.
  destruct (service_images_can_always_be_selected (Some "user-1")
              (Some "sk-key") (fun img _ => Ok (img ++ "+markers"))
              (fun _ => None) (fun _ _ => Ok Sample2.goodResponse)
              Sample2.optionsOfTwo systemSettings
              [Sample.resultA; Sample.resultA]) as [H _].
  - vm_compute. reflexivity.
  - exact H.
Defined.

(** The sources 1 and 2, both with an image: the second note names
    position 2 and the second image is the image of node 2. *)
Lemma notes_agree_when_no_source_is_skipped_witness :
  exists imgs texts,
    [Sample.image1; Sample.image2] = ([] ++ imgs)%list
    /\ [noteText 1 1 false; noteText 2 2 false] = ([] ++ texts)%list
    /\ nth_error texts 1 = Some (noteText (0 + Z.of_nat 1 + 1) 2 false)
    /\ exists img,
         nth_error imgs 1 = Some img
         /\ Spec.referenced Sample.env Sample.source2 = Some (Ok img).
Proof.
  destruct (notes_agree_when_no_source_is_skipped Sample.env
              [Sample.source1; Sample.source2])
    with (i := 0) (refs := @nil string) (notes := @nil string)
         (refs' := [Sample.image1; Sample.image2])
         (notes' := [noteText 1 1 false; noteText 2 2 false])
    as [imgs [texts [Hrefs [Hnotes Hk]]]].
  - repeat constructor; discriminate.
  - vm_compute. reflexivity.
  - exists imgs, texts. split; [exact Hrefs |]. split; [exact Hnotes |].
    apply (Hk 1%nat Sample.source2). reflexivity.
Defined.

(** The first two images of a batch of the sample generator, saved at the
    same instant, get different names; the first is named [batch-1]. *)
Lemma download_filename_has_safe_timestamp_witness :
  downloadFilename Sample.generator (Some 0) "2024-01-15T10:30:00.000Z"
  = "AI 生成器-gemini-2.5-flash-batch-1-2024-01-15T10-30-00-000Z.png"
  /\ downloadFilename Sample.generator (Some 0) "2024-01-15T10:30:00.000Z"
     <> downloadFilename Sample.generator (Some 1)
          "2024-01-15T10:30:00.000Z".
Proof.
  destruct (download_filename_has_safe_timestamp Sample.generator
              "2024-01-15T10:30:00.000Z")
    as [_ [Hsome [_ [_ [_ [Hdistinct _]]]]]].
  split.
  - rewrite (Hsome 0%Z). reflexivity.
  - apply (Hdistinct 0%Z 1%Z). discriminate.
Defined.

(** On the canvas of the sample trigger the second image of the batch can
    be selected. *)
Lemma select_generated_image_witness :
  exists patch,
    NodeComponent.handleSelectGeneratedImage Sample3.servedGenerator 1
    = Some patch
    /\ generatedImage (patch (data Sample3.servedGenerator))
       = Some Sample.resultA
    /\ coherent (patch (data Sample3.servedGenerator)).
Proof.
  destruct (select_generated_image 280 320 None Sample3.servedTrigger
              Sample3.servedGenerator 1) as [_ [_ [Hset _]]].
  - repeat constructor.
    exists (Some "user-1"), (Some "sk-key"),
      (fun img _ => Ok (img ++ "+markers")), (fun _ => None),
      (fun _ _ => Ok Sample2.goodResponse), Sample2.optionsOfTwo,
      systemSettings.
    vm_compute. reflexivity.
  - vm_compute. left. reflexivity.
  - destruct (Hset [Sample.resultA; Sample.resultA] Sample.resultA
                eq_refl eq_refl)
      as [patch [Hpatch [_ [Himg [_ [Hcoherent _]]]]]].
    exists patch. auto.
Defined.

(** With the generator selected, a click on the badge of image node 1
    appends its label to the layer of the generator. *)
Lemma label_click_changes_only_selected_generator_witness :
  exists generator',
    JS.find (fun n => String.eqb (id n) "node-9")
      (nodes (handleLabelClick
                (handleNodeSelect Sample2.twoNodes "node-9") "node-1"))
    = Some generator'
    /\ layers (data generator')
       = Some [mkLayer "layer-1" "基础图层" "enhance[图1]" true].
Proof.
  destruct (label_click_changes_only_selected_generator
              (handleNodeSelect Sample2.twoNodes "node-9") "node-1" 1)
    as [_ [_ Happlied]].
  destruct (Happlied "node-9" Sample.generator Sample.source1
              [mkLayer "layer-1" "基础图层" "enhance" true]
              eq_refl ltac:(discriminate) eq_refl eq_refl eq_refl eq_refl
              ltac:(discriminate)
              (handleLabelClick
                 (handleNodeSelect Sample2.twoNodes "node-9") "node-1")
              "[图1]" (or_introl (conj eq_refl eq_refl)))
    as [_ [[generator' [Hfound [Hlayers _]]] _]].
  exists generator'. split; [exact Hfound | exact Hlayers].
Defined.

End MoreInstances.
